(** * citationkeys/misc.py: a shallow embedding and its specification

    The module [citationkeys/misc.py] keeps a library of papers named by
    citation keys (CKs): [<CK>.pdf] and [<CK>.bib] files in a bibliography
    directory, and tags as a tree of directories holding symbolic links
    [<CK>.pdf].  This file embeds the functions of the module and states
    the properties its specification claims about them.

    Conventions of the embedding.
    - A Python [str] is a list of characters ([pystr]); a character is a
      code point below 256 ([ascii]).  [str "..."] reads a literal.
    - A function that raises returns [inl e]; state that survives the
      exception (the record being canonicalized, the file system, what
      was printed) is threaded explicitly and returned next to the
      outcome.
    - A Python [dict] is a [gmap], a [set] a [gset]. *)

From Stdlib Require Import ZArith Ascii String List.
From stdpp Require Import base option list strings gmap sorting.

Local Open Scope Z_scope.

(** ** Python strings *)

Abbreviation pystr := (list ascii).

Definition str (s : string) : pystr := list_ascii_of_string s.
Global Arguments str : simpl never.

Definition code (c : ascii) : N := N_of_ascii c.

(** [str.isspace] on one character, for the code points below 256:
    TAB..CR, FS..US, SPACE, NEL and NBSP. *)
Definition is_space (c : ascii) : bool :=
  let n := code c in
  ((9 <=? n) && (n <=? 13) || (28 <=? n) && (n <=? 32)
   || (n =? 133) || (n =? 160))%N.

(** [str.lower] on one character: A-Z and the capital letters of the
    Latin-1 supplement (all of 0xC0..0xDE but the multiplication sign). *)
Definition lower_char (c : ascii) : ascii :=
  let n := code c in
  if ((65 <=? n) && (n <=? 90)
      || (192 <=? n) && (n <=? 222) && negb (n =? 215))%N
  then ascii_of_N (n + 32) else c.

Definition lower (s : pystr) : pystr := map lower_char s.

(** The characters of [s] from the first one that is not in the class
    [f]: [s.lstrip(chars)]; [rdrop_while] is [s.rstrip(chars)]. *)
Fixpoint drop_while (f : ascii -> bool) (s : pystr) : pystr :=
  match s with
  | c :: s' => if f c then drop_while f s' else s
  | [] => []
  end.

Definition rdrop_while (f : ascii -> bool) (s : pystr) : pystr :=
  reverse (drop_while f (reverse s)).

Definition lstrip (s : pystr) : pystr := drop_while is_space s.
Definition rstrip (s : pystr) : pystr := rdrop_while is_space s.

(** [s.strip()] *)
Definition strip (s : pystr) : pystr := rstrip (lstrip s).

(** [s.replace(old, new)] for a pattern [old] of one character. *)
Definition replace (old : ascii) (new : pystr) (s : pystr) : pystr :=
  flat_map (fun c => if decide (c = old) then new else [c]) s.

(** [old in s] for a pattern of one character. *)
Definition contains (c : ascii) (s : pystr) : bool := bool_decide (c ∈ s).

(** Python exceptions the module can raise or let through. *)
Inductive exn :=
| AssertionError
| IndexError
| KeyError (key : pystr)
| ValueError
| FileNotFoundError
| FileExistsError
| NotADirectoryError
| IsADirectoryError
| OSError_ELOOP
| RecursionError.

Global Instance exn_eq_dec : EqDecision exn.
Proof. solve_decision. Defined.

(** The exceptions that [except OSError] catches. *)
Definition is_OSError (e : exn) : bool :=
  match e with
  | FileNotFoundError | FileExistsError | NotADirectoryError
  | IsADirectoryError | OSError_ELOOP => true
  | _ => false
  end.

(** A computation without state that may raise. *)
Global Instance exn_ret : MRet (sum exn) := fun _ a => inr a.
Global Instance exn_bind : MBind (sum exn) := fun _ _ f m =>
  match m with inl e => inl e | inr a => f a end.

(** [for x in l: s = body(s, x)] *)
Fixpoint for_each {A S : Type} (body : S -> A -> exn + S) (l : list A) (s : S)
    : exn + S :=
  match l with
  | [] => inr s
  | x :: l' => s' ← body s x; for_each body l' s'
  end.

(** What [print] is given: strings, and for one call a list of strings. *)
Inductive pyval := VStr (s : pystr) | VList (l : list pystr).

(** [sorted] on strings: code point by code point. *)
Fixpoint str_leb (a b : pystr) : bool :=
  match a, b with
  | [], _ => true
  | _ :: _, [] => false
  | x :: a', y :: b' =>
      if (code x <? code y)%N then true
      else if (code x =? code y)%N then str_leb a' b' else false
  end.

Definition str_le (a b : pystr) : Prop := str_leb a b = true.

Global Instance str_le_dec a b : Decision (str_le a b).
Proof. unfold str_le. apply _. Defined.

Definition sorted (l : list pystr) : list pystr := merge_sort str_le l.

(** [s[i]], with Python's negative indices. *)
Definition getitem (s : pystr) (i : Z) : exn + ascii :=
  let j := if i <? 0 then i + Z.of_nat (length s) else i in
  if j <? 0 then inl IndexError
  else match s !! Z.to_nat j with
       | Some c => inr c
       | None => inl IndexError
       end.

(** ** The BibTeX canonicalizer *)

Module Bib.

(** One entry of [bibtex.entries]: a dict from field names to strings. *)
Abbreviation entry := (gmap pystr pystr).

(** What [canonicalize_bibtex] reads and writes: the entries of the
    record, mutated in place, and the lines printed so far. *)
Record state := State { entries : list entry; stdout : list (list pyval) }.

Definition M (A : Type) : Type := state -> state * (exn + A).

Definition ret {A} (a : A) : M A := fun s => (s, inr a).
Definition raise {A} (e : exn) : M A := fun s => (s, inl e).
Definition bind {A B} (m : M A) (k : A -> M B) : M B :=
  fun s => match m s with
           | (s', inr a) => k a s'
           | (s', inl e) => (s', inl e)
           end.
Definition lift {A} (r : exn + A) : M A := fun s => (s, r).

Notation "'do' x <- m ; k" := (bind m (fun x => k))
  (at level 10, x name, m at level 100, k at level 200).
Notation "m ;; k" := (bind m (fun _ => k))
  (at level 100, k at level 200, right associativity).

Definition print (line : pystr) : M unit :=
  fun s => (State (entries s) (stdout s ++ [[VStr line]]), inr tt).

Definition when (b : bool) (m : M unit) : M unit := if b then m else ret tt.

(** [bibtex.entries[i][key]] *)
Definition get_field (i : nat) (key : pystr) : M pystr :=
  fun s => match entries s !! i with
           | None => (s, inl IndexError)
           | Some bib => match bib !! key with
                         | Some v => (s, inr v)
                         | None => (s, inl (KeyError key))
                         end
           end.

(** [bibtex.entries[i][key] = v] *)
Definition set_field (i : nat) (key : pystr) (v : pystr) : M unit :=
  fun s => match entries s !! i with
           | None => (s, inl IndexError)
           | Some bib =>
               (State (<[i := <[key := v]> bib]> (entries s)) (stdout s), inr tt)
           end.

(** The body of the loop over the entries, lines 189-213, in its three
    blocks.  [updated] is the flag on entry, the result the flag on exit;
    [i] is the index of the entry [bib = bibtex.entries[i]]. *)

(** Lines 192-197: the CK in the record is the CK of the file name. *)
Definition fix_id (ck : pystr) (verbosity : Z) (i : nat) (updated : bool)
    : M bool :=
  do bck <- get_field i (str "ID");
  if decide (bck ≠ ck) then
    when (1 <? verbosity)
      (print (ck ++ str ": Replaced unexpected '" ++ bck
                 ++ str "' CK in .bib file. Fixing...")) ;;
    set_field i (str "ID") ck ;;
    ret true
  else ret updated.

(** Lines 199-204: no carriage return or newline in the author. *)
Definition fix_author (ck : pystr) (verbosity : Z) (i : nat) (updated : bool)
    : M bool :=
  do a <- get_field i (str "author");
  let author := strip (replace "010" (str " ") (replace "013" [] a)) in
  do a' <- get_field i (str "author");
  if decide (a' ≠ author) then
    when (1 <? verbosity)
      (print (ck ++ str ": Stripped author name(s): " ++ author)) ;;
    set_field i (str "author") author ;;
    ret true
  else ret updated.

(** Lines 206-213: braces around the title.  The condition of line 207
    is an [and] of two inequalities, evaluated left to right. *)
Definition fix_title (ck : pystr) (verbosity : Z) (i : nat) (updated : bool)
    : M bool :=
  do t <- get_field i (str "title");
  let title := strip t in
  do first <- lift (getitem title 0);
  do wrap <-
    (if decide (first ≠ "{"%char) then
       do last <- lift (getitem title (Z.of_nat (length title) - 1));
       ret (bool_decide (last ≠ "}"%char))
     else ret false);
  let title := if wrap : bool then str "{" ++ title ++ str "}" else title in
  do t' <- get_field i (str "title");
  if decide (t' ≠ title) then
    when (1 <? verbosity)
      (print (ck ++ str ": Added brackets to title: " ++ title)) ;;
    set_field i (str "title") title ;;
    ret true
  else ret updated.

Definition canonicalize_entry (ck : pystr) (verbosity : Z) (i : nat)
    (updated : bool) : M bool :=
  do updated <- fix_id ck verbosity i updated;
  do updated <- fix_author ck verbosity i updated;
  fix_title ck verbosity i updated.

(** [for i in range(n)] threading the flag. *)
Fixpoint for_range (body : nat -> bool -> M bool) (i n : nat)
    (updated : bool) : M bool :=
  match n with
  | O => ret updated
  | S n' => do updated <- body i updated; for_range body (S i) n' updated
  end.

Definition canonicalize_bibtex (ck : pystr) (verbosity : Z) : M bool :=
  fun s =>
    if decide (length (entries s) = 1%nat) then
      (do updated <- for_range (canonicalize_entry ck verbosity) 0
                       (length (entries s)) false;
       (* assert type(bib['ID']) == str: every value of the model is a str *)
       get_field (length (entries s) - 1) (str "ID") ;;
       ret updated) s
    else (s, inl AssertionError).

End Bib.

(** ** [os.path] on POSIX: the functions of [posixpath] the module calls *)

Module Path.

Definition startswith_sep (p : pystr) : bool :=
  match p with c :: _ => bool_decide (c = "/"%char) | [] => false end.

Definition endswith_sep (p : pystr) : bool :=
  bool_decide (last p = Some "/"%char).

(** [os.path.join(a, b)]; with more arguments, [join] is applied from
    the left: [os.path.join(a, b, c) = join (join a b) c]. *)
Definition join (a b : pystr) : pystr :=
  if startswith_sep b then b
  else if bool_decide (a = []) || endswith_sep a then a ++ b
  else a ++ "/"%char :: b.

(** [p.split(c)] *)
Fixpoint split_on (c : ascii) (p : pystr) : list pystr :=
  match p with
  | [] => [[]]
  | x :: p' =>
      if decide (x = c) then [] :: split_on c p'
      else match split_on c p' with
           | w :: ws => (x :: w) :: ws
           | [] => [[x]]
           end
  end.

(** [sep.join(comps)] *)
Fixpoint join_on (c : ascii) (comps : list pystr) : pystr :=
  match comps with
  | [] => []
  | [w] => w
  | w :: ws => w ++ c :: join_on c ws
  end.

(** [p.rfind(c) + 1]: the length of the prefix of [p] that ends with its
    last [c], and 0 when [c] does not occur. *)
Fixpoint rfind1 (c : ascii) (p : pystr) : nat :=
  match p with
  | [] => 0
  | x :: p' =>
      match rfind1 c p' with
      | S k => S (S k)
      | O => if decide (x = c) then 1 else 0
      end
  end.

(** [p.rstrip('/')] *)
Definition rstrip_sep (p : pystr) : pystr :=
  rdrop_while (fun c => bool_decide (c = "/"%char)) p.

(** the test [head and head != sep*len(head)] of [split] and [dirname] *)
Definition not_all_sep (p : pystr) : bool :=
  negb (forallb (fun c => bool_decide (c = "/"%char)) p).

(** [os.path.split(p)] *)
Definition split (p : pystr) : pystr * pystr :=
  let i := rfind1 "/" p in
  let head := take i p in
  (if not_all_sep head then rstrip_sep head else head, drop i p).

(** [os.path.dirname(p)] *)
Definition dirname (p : pystr) : pystr := fst (split p).

(** [os.path.splitext(p)]: the extension starts at the last dot of the
    last component, unless only dots come before it in the component. *)
Definition splitext (p : pystr) : pystr * pystr :=
  let sep1 := rfind1 "/" p in
  let dot1 := rfind1 "." p in
  (* dotIndex > sepIndex, and a character of p[sepIndex+1 : dotIndex]
     that is not a dot *)
  if bool_decide (sep1 < dot1)%nat
     && existsb (fun c => bool_decide (c ≠ "."%char))
          (drop sep1 (take (dot1 - 1) p))
  then (take (dot1 - 1) p, drop (dot1 - 1) p)
  else (p, []).

(** The loop of [normpath] over the components: [abs] is
    [initial_slashes], [acc] is [new_comps]. *)
Definition norm_step (abs : bool) (acc : list pystr) (comp : pystr)
    : list pystr :=
  if bool_decide (comp = []) || bool_decide (comp = str ".") then acc
  else if bool_decide (comp ≠ str "..")
          || (negb abs && bool_decide (acc = []))
          || bool_decide (last acc = Some (str ".."))
  then acc ++ [comp]
  else removelast acc.

Definition norm_comps (p : pystr) : list pystr :=
  fold_left (norm_step (startswith_sep p)) (split_on "/" p) [].

(** [os.path.normpath(p)] *)
Definition normpath (p : pystr) : pystr :=
  match p with
  | [] => str "."
  | _ =>
      let slashes :=
        match p with
        | "/"%char :: "/"%char :: "/"%char :: _ => str "/"
        | "/"%char :: "/"%char :: _ => str "//"
        | "/"%char :: _ => str "/"
        | _ => []
        end in
      match slashes ++ join_on "/" (norm_comps p) with
      | [] => str "."
      | q => q
      end
  end.

(** [os.path.abspath(p)], with the working directory [cwd] *)
Definition abspath (cwd p : pystr) : pystr :=
  normpath (if startswith_sep p then p else join cwd p).

(** The longest common prefix of two lists: [commonprefix([l1, l2])],
    which compares the smaller list with the larger one, item by item. *)
Fixpoint commonprefix (l1 l2 : list pystr) : list pystr :=
  match l1, l2 with
  | x :: l1', y :: l2' => if decide (x = y) then x :: commonprefix l1' l2' else []
  | _, _ => []
  end.

(** [[x for x in abspath(p).split(sep) if x]] *)
Definition path_list (cwd p : pystr) : list pystr :=
  filter (fun x => x ≠ []) (split_on "/" (abspath cwd p)).

(** [os.path.relpath(path, start)] *)
Definition relpath (cwd path start : pystr) : exn + pystr :=
  if bool_decide (path = []) then inl ValueError
  else
    let start_list := path_list cwd start in
    let path_list := path_list cwd path in
    let i := length (commonprefix start_list path_list) in
    let rel_list :=
      replicate (length start_list - i) (str "..") ++ drop i path_list in
    match rel_list with
    | [] => inr (str ".")
    | c :: cs => inr (fold_left join cs c)
    end.

End Path.

(** ** The file system

    A directory is the list of its entries in the order [os.listdir]
    reports them.  A symbolic link keeps the string it was created with,
    whether or not that string names anything.  Paths are resolved from
    the root of the tree, which is also the working directory, so
    [getcwd() = "/"].  Permissions, hard links, mount points and limits
    on the length of names are not modelled. *)

Module FS.

Inductive node :=
| File
| Symlink (target : pystr)
| Dir (entries : list (pystr * node)).

Fixpoint find_entry (name : pystr) (es : list (pystr * node)) : option node :=
  match es with
  | [] => None
  | (k, n) :: es' => if decide (k = name) then Some n else find_entry name es'
  end.

(** The node at a real path: names from the root, links not followed. *)
Fixpoint get (n : node) (p : list pystr) : option node :=
  match p with
  | [] => Some n
  | c :: p' =>
      match n with
      | Dir es => match find_entry c es with
                  | Some m => get m p'
                  | None => None
                  end
      | _ => None
      end
  end.

(** The directory at the real path [p] with its entries changed by [f]. *)
Fixpoint update (f : list (pystr * node) -> list (pystr * node)) (n : node)
    (p : list pystr) : node :=
  match n with
  | Dir es =>
      match p with
      | [] => Dir (f es)
      | c :: p' =>
          Dir (map (fun e => if decide (e.1 = c) then (e.1, update f e.2 p')
                             else e) es)
      end
  | _ => n
  end.

(** Where a path leads: to an entry, or to a name that is free in an
    existing directory ([trailing]: the path went on with slashes). *)
Inductive located :=
| Found (real : list pystr) (n : node)
| Missing (parent : list pystr) (name : pystr) (trailing : bool).

(** Path resolution.  [cur] is the real path of the directory reached,
    [rest] the components still to walk, [fuel] the number of symbolic
    links that may still be followed before [ELOOP].  The last component
    is followed when it is a link only if [follow]. *)
Fixpoint walk (root : node) (follow : bool) (fuel : nat)
    : list pystr -> list pystr -> exn + located :=
  fix go (cur rest : list pystr) {struct rest} : exn + located :=
    match rest with
    | [] => match get root cur with
            | Some n => inr (Found cur n)
            | None => inl FileNotFoundError
            end
    | c :: rest' =>
        if bool_decide (c = []) || bool_decide (c = str ".") then go cur rest'
        else if bool_decide (c = str "..") then go (removelast cur) rest'
        else
          match get root (cur ++ [c]) with
          | None =>
              if forallb (fun x => bool_decide (x = [])) rest'
              then inr (Missing cur c (negb (bool_decide (rest' = []))))
              else inl FileNotFoundError
          | Some (Dir _) => go (cur ++ [c]) rest'
          | Some File =>
              if bool_decide (rest' = []) then inr (Found (cur ++ [c]) File)
              else inl NotADirectoryError
          | Some (Symlink t) =>
              if bool_decide (rest' = []) && negb follow
              then inr (Found (cur ++ [c]) (Symlink t))
              else
                match fuel with
                | O => inl OSError_ELOOP
                | S fuel' =>
                    if bool_decide (t = []) then inl FileNotFoundError
                    else walk root follow fuel'
                           (if Path.startswith_sep t then [] else cur)
                           (Path.split_on "/" t ++ rest')
                end
          end
    end.

Global Arguments walk : simpl never.

Definition max_symlinks : nat := 40.

Definition resolve (root : node) (follow : bool) (p : pystr) : exn + located :=
  if contains "000" p then inl ValueError
  else if bool_decide (p = []) then inl FileNotFoundError
  else walk root follow max_symlinks [] (Path.split_on "/" p).

(** [os.stat(p)] and [os.lstat(p)], as far as the kind of the entry *)
Definition stat (root : node) (p : pystr) : exn + node :=
  loc ← resolve root true p;
  match loc with
  | Found _ n => inr n
  | Missing _ _ _ => inl FileNotFoundError
  end.

Definition lstat (root : node) (p : pystr) : exn + node :=
  loc ← resolve root false p;
  match loc with
  | Found _ n => inr n
  | Missing _ _ _ => inl FileNotFoundError
  end.

(** [os.path.exists], [os.path.isdir], [os.path.islink], [os.listdir] *)
Definition exists_ (root : node) (p : pystr) : bool :=
  match stat root p with inr _ => true | inl _ => false end.

Definition isdir (root : node) (p : pystr) : bool :=
  match stat root p with inr (Dir _) => true | _ => false end.

Definition islink (root : node) (p : pystr) : bool :=
  match lstat root p with inr (Symlink _) => true | _ => false end.

Definition listdir (root : node) (p : pystr) : exn + list pystr :=
  n ← stat root p;
  match n with
  | Dir es => inr (map fst es)
  | _ => inl NotADirectoryError
  end.

End FS.

(** ** The read-only functions: the CK scanner, the tag index and the
    untagged set

    They only query the file system, through the calls gathered in
    [os_view]; [limit] is the number of nested calls Python allows before
    it raises [RecursionError]. *)

Record os_view := OsView {
  getcwd : pystr;
  listdir : pystr -> exn + list pystr;
  isdir : pystr -> bool;
  islink : pystr -> bool;
  path_exists : pystr -> bool
}.

(** The view of a file system tree. *)
Definition os_of (root : FS.node) : os_view :=
  {| getcwd := str "/";
     listdir := FS.listdir root;
     isdir := FS.isdir root;
     islink := FS.islink root;
     path_exists := FS.exists_ root |}.

(** [ck_to_pdf] and [ck_to_bib], lines 42-46 *)
Definition ck_to_pdf (ck_bib_dir ck : pystr) : pystr :=
  Path.join ck_bib_dir (ck ++ str ".pdf").

Definition ck_to_bib (ck_bib_dir ck : pystr) : pystr :=
  Path.join ck_bib_dir (ck ++ str ".bib").

Section ReadOnly.
Context (os : os_view).

(** Lines 58-65: an entry of the directory that is not a directory. *)
Definition list_cks_file (filename : pystr) (cks : gset pystr) : gset pystr :=
  let '(ck, ext) := Path.splitext filename in
  if contains "." ck then cks
  else if bool_decide (lower ext = str ".pdf")
          || bool_decide (lower ext = str ".bib")
  then cks ∪ {[ck]} else cks.

(** [list_cks], lines 49-67 *)
Fixpoint list_cks (limit : nat) (ck_bib_dir : pystr) : exn + list pystr :=
  match limit with
  | O => inl RecursionError
  | S limit' =>
      names ← listdir os ck_bib_dir;
      cks ← for_each
              (fun (cks : gset pystr) filename =>
                 let fullpath := Path.join ck_bib_dir filename in
                 if isdir os fullpath then
                   sub ← list_cks limit' fullpath;
                   inr (cks ∪ list_to_set sub)
                 else inr (list_cks_file filename cks))
              (sorted names) ∅;
      inr (sorted (elements cks))
  end.

(** The dict [pdfs] that the helper fills, and what it has printed. *)
Record tagged := Tagged {
  pdfs : gmap pystr (list pystr);
  printed : list (list pyval)
}.

(** Lines 82-93: an entry that is a symbolic link and not a directory. *)
Definition visit_link (root_tag_dir : pystr) (verbosity : Z)
    (fullpath relpath : pystr) (st : tagged) : exn + tagged :=
  let '(citation_key, extension) := Path.splitext relpath in
  tagname ← Path.relpath (getcwd os) (Path.dirname fullpath) root_tag_dir;
  let out :=
    if 1 <? verbosity then
      printed st ++ [[VStr (str "CK:"); VStr citation_key];
                     [VStr (str "Tagname:"); VStr tagname];
                     [VStr (str "Symlink:"); VStr fullpath]]
    else printed st in
  if bool_decide (lower extension = str ".pdf") then
    let tags := default [] (pdfs st !! citation_key) in
    inr (Tagged (<[citation_key := tags ++ [tagname]]> (pdfs st)) out)
  else inr (Tagged (pdfs st) out).

(** [find_tagged_pdfs_helper], lines 75-93 *)
Fixpoint find_tagged_pdfs_helper (limit : nat)
    (root_tag_dir tag_subdir : pystr) (verbosity : Z) (st : tagged)
    : exn + tagged :=
  match limit with
  | O => inl RecursionError
  | S limit' =>
      names ← listdir os tag_subdir;
      for_each
        (fun st relpath =>
           let fullpath := Path.join tag_subdir relpath in
           if isdir os fullpath then
             find_tagged_pdfs_helper limit' root_tag_dir fullpath verbosity st
           else if islink os fullpath then
             visit_link root_tag_dir verbosity fullpath relpath st
           else inr st)
        names st
  end.

(** [find_tagged_pdfs], lines 70-73 *)
Definition find_tagged_pdfs (limit : nat) (ck_tag_subdir : pystr)
    (verbosity : Z) : exn + tagged :=
  find_tagged_pdfs_helper limit ck_tag_subdir ck_tag_subdir verbosity
    (Tagged ∅ []).

(** [find_untagged_pdfs], lines 95-111; the result goes with what the
    call has printed. *)
Definition find_untagged_pdfs (limit : nat) (ck_bib_dir ck_tag_dir : pystr)
    (verbosity : Z) : exn + (gset (pystr * pystr) * list (list pyval)) :=
  t ← find_tagged_pdfs limit ck_tag_dir verbosity;
  let tagged_cks := dom (pdfs t) in
  let out :=
    if 2 <? verbosity then
      printed t ++ [[VStr (str "Tagged papers:");
                     VList (sorted (elements tagged_cks))]]
    else printed t in
  cks ← list_cks limit ck_bib_dir;
  let untagged :=
    foldl (fun (untagged : gset (pystr * pystr)) ck =>
             let filepath := Path.join ck_bib_dir (ck ++ str ".pdf") in
             if path_exists os filepath then
               if bool_decide (ck ∉ tagged_cks) then untagged ∪ {[(filepath, ck)]}
               else untagged
             else untagged)
          ∅ cks in
  inr (untagged, out).

End ReadOnly.

(** ** The tag mutator

    [tag_paper] and [untag_paper] change the file system; they run in a
    state of the tree, the lines printed and the tracebacks written to the
    standard error. *)

Module Sys.

Record state := State {
  root : FS.node;
  stdout : list (list pyval);
  stderr : list exn
}.

Definition M (A : Type) : Type := state -> state * (exn + A).

Definition ret {A} (a : A) : M A := fun s => (s, inr a).
Definition raise {A} (e : exn) : M A := fun s => (s, inl e).
Definition bind {A B} (m : M A) (k : A -> M B) : M B :=
  fun s => match m s with
           | (s', inr a) => k a s'
           | (s', inl e) => (s', inl e)
           end.

(** [try: m  except: handler(e)] *)
Definition try_except {A} (m : M A) (handler : exn -> M A) : M A :=
  fun s => match m s with
           | (s', inr a) => (s', inr a)
           | (s', inl e) => handler e s'
           end.

Notation "'do' x <- m ; k" := (bind m (fun x => k))
  (at level 10, x name, m at level 100, k at level 200).
Notation "m ;; k" := (bind m (fun _ => k))
  (at level 100, k at level 200, right associativity).

(** A query of the file system. *)
Definition query {A} (f : FS.node -> A) : M A := fun s => (s, inr (f (root s))).

(** A system call that fails or replaces the tree. *)
Definition syscall (f : FS.node -> exn + FS.node) : M unit :=
  fun s => match f (root s) with
           | inr r => (State r (stdout s) (stderr s), inr tt)
           | inl e => (s, inl e)
           end.

Definition print (line : pystr) : M unit :=
  fun s => (State (root s) (stdout s ++ [[VStr line]]) (stderr s), inr tt).

(** [traceback.print_exc()] in the handler of [e] *)
Definition print_exc (e : exn) : M unit :=
  fun s => (State (root s) (stdout s) (stderr s ++ [e]), inr tt).

(** The last name of a real path and the directory it is in. *)
Definition parent (real : list pystr) : list pystr := removelast real.
Definition basename (real : list pystr) : pystr := default [] (last real).

(** [os.remove(p)]: unlinks a file or a link, never a directory. *)
Definition os_remove (p : pystr) (r : FS.node) : exn + FS.node :=
  loc ← FS.resolve r false p;
  match loc with
  | FS.Found _ (FS.Dir _) => inl IsADirectoryError
  | FS.Found real _ =>
      inr (FS.update (filter (fun e => e.1 ≠ basename real)) r (parent real))
  | FS.Missing _ _ _ => inl FileNotFoundError
  end.

(** [os.symlink(target, link)]: the target is stored, not looked up. *)
Definition os_symlink (target link : pystr) (r : FS.node) : exn + FS.node :=
  if contains "000" target then inl ValueError
  else
    loc ← FS.resolve r false link;
    if bool_decide (target = []) then inl FileNotFoundError
    else
      match loc with
      | FS.Found _ _ => inl FileExistsError
      | FS.Missing _ _ true => inl FileNotFoundError
      | FS.Missing dir name false =>
          inr (FS.update (fun es => es ++ [(name, FS.Symlink target)]) r dir)
      end.

(** [os.mkdir(p)]: slashes after the last name are passed over, and the
    last name is not followed when it is a link, so that whatever is
    there, a dangling link too, is in the way. *)
Definition os_mkdir (p : pystr) (r : FS.node) : exn + FS.node :=
  loc ← FS.resolve r false
          (if Path.not_all_sep p then Path.rstrip_sep p else p);
  match loc with
  | FS.Found _ _ => inl FileExistsError
  | FS.Missing dir name _ =>
      inr (FS.update (fun es => es ++ [(name, FS.Dir [])]) r dir)
  end.

(** [os.makedirs(name, exist_ok=True)], after [os.py]; [fuel] bounds the
    nested calls, one for each component of [name]. *)
Fixpoint makedirs (fuel : nat) (name : pystr) : M unit :=
  match fuel with
  | O => raise RecursionError
  | S fuel' =>
      let '(head, tail) := Path.split name in
      let '(head, tail) :=
        if bool_decide (tail = []) then Path.split head else (head, tail) in
      do head_exists <- query (fun r => FS.exists_ r head);
      do done_ <-
        (if bool_decide (head ≠ []) && bool_decide (tail ≠ [])
            && negb head_exists
         then
           try_except (makedirs fuel' head)
             (fun e => if decide (e = FileExistsError) then ret tt
                       else raise e) ;;
           ret (bool_decide (tail = str "."))
         else ret false);
      if done_ : bool then ret tt
      else
        try_except (syscall (os_mkdir name))
          (fun e =>
             if is_OSError e then
               do d <- query (fun r => FS.isdir r name);
               if d : bool then ret tt else raise e
             else raise e)
  end.

Definition os_makedirs (name : pystr) : M unit :=
  makedirs (S (length name)) name.

(** [untag_paper], lines 161-167 *)
Definition untag_paper (ck_tag_dir citation_key tag : pystr) : M bool :=
  let filepath :=
    Path.join (Path.join ck_tag_dir tag) (citation_key ++ str ".pdf") in
  do found <- query (fun r => FS.exists_ r filepath);
  if found : bool then
    syscall (os_remove filepath) ;;
    ret true
  else ret false.

(** [tag_paper], lines 169-182 *)
Definition tag_paper (ck_tag_dir ck_bib_dir citation_key tag : pystr)
    : M bool :=
  let pdf_tag_dir := Path.join ck_tag_dir tag in
  os_makedirs pdf_tag_dir ;;
  let pdfname := citation_key ++ str ".pdf" in
  try_except
    (syscall (os_symlink (Path.join ck_bib_dir pdfname)
                         (Path.join pdf_tag_dir pdfname)) ;;
     ret true)
    (fun e =>
       if decide (e = FileExistsError) then ret false
       else
         print (str "Unexpected error while tagging " ++ citation_key
                  ++ str " with '" ++ tag) ;;
         print_exc e ;;
         raise e).

End Sys.

(** ** What the scanner is to return

    Stated on the calls alone: [scans dir ck] when an entry below [dir],
    reached through entries that [isdir] accepts, is not a directory and
    has a name that yields the key [ck]. *)

Section ScannerSpec.
Context (os : os_view).

(** The name splits into a stem without a dot and an extension that is
    [.pdf] or [.bib] up to case. *)
Definition key_of (filename ck : pystr) : Prop :=
  ∃ ext, Path.splitext filename = (ck, ext) ∧ ("."%char ∉ ck) ∧
         (lower ext = str ".pdf" ∨ lower ext = str ".bib").

Inductive scans : pystr -> pystr -> Prop :=
| scans_file dir names filename ck :
    listdir os dir = inr names -> filename ∈ names ->
    isdir os (Path.join dir filename) = false ->
    key_of filename ck -> scans dir ck
| scans_sub dir names filename ck :
    listdir os dir = inr names -> filename ∈ names ->
    isdir os (Path.join dir filename) = true ->
    scans (Path.join dir filename) ck -> scans dir ck.

(** The tree below [dir] can be listed and is less than [n] deep. *)
Inductive walkable : nat -> pystr -> Prop :=
| walkable_dir n dir names :
    listdir os dir = inr names ->
    (∀ f, f ∈ names -> isdir os (Path.join dir f) = true ->
          walkable n (Path.join dir f)) ->
    walkable (S n) dir.
End ScannerSpec.

(** ** What the tag index is to hold

    The links below the tag root in the order of the traversal, each with
    the names of the directories that lead to it from the root; the tag
    of a link is these names joined by slashes. *)

(** A name that [os.listdir] can report. *)
Definition valid_name (f : pystr) : Prop :=
  f ≠ [] ∧ ("/"%char ∉ f) ∧ f ≠ str "." ∧ f ≠ str "..".

(** The path of the directory reached from [root] through [cs]. *)
Definition subdir (root : pystr) (cs : list pystr) : pystr :=
  fold_left Path.join cs root.

(** The tag of the directory reached through [cs]. *)
Definition tag_name (cs : list pystr) : pystr :=
  match cs with
  | [] => str "."
  | _ => Path.join_on "/" cs
  end.

Section IndexSpec.
Context (os : os_view).

(** The links in the order of the traversal. *)
Fixpoint tag_links (limit : nat) (root : pystr) (cs : list pystr)
    : exn + list (list pystr * pystr) :=
  match limit with
  | O => inl RecursionError
  | S limit' =>
      names ← listdir os (subdir root cs);
      for_each
        (fun acc f =>
           let fullpath := Path.join (subdir root cs) f in
           if isdir os fullpath then
             sub ← tag_links limit' root (cs ++ [f]);
             inr (acc ++ sub)
           else if islink os fullpath then inr (acc ++ [(cs, f)])
           else inr acc)
        names []
  end.

(** The tags of [ck] among [links]: one for each link whose name is
    [ck] with an extension that is [.pdf] up to case. *)
Definition tags_of (ck : pystr) (links : list (list pystr * pystr))
    : list pystr :=
  omap (fun l : list pystr * pystr =>
          let '(stem, ext) := Path.splitext l.2 in
          if bool_decide (lower ext = str ".pdf") && bool_decide (stem = ck)
          then Some (tag_name l.1) else None)
       links.

(** [os.listdir] reports names. *)
Definition lists_names : Prop :=
  ∀ d names, listdir os d = inr names -> Forall valid_name names.
End IndexSpec.

(** ** Well-formed trees *)

Definition valid_nameb (f : pystr) : bool :=
  bool_decide (f ≠ []) && negb (contains "/" f)
  && bool_decide (f ≠ str ".") && bool_decide (f ≠ str "..").

(** Every name in the tree is one that a directory can hold. *)
Fixpoint wf_node (n : FS.node) : bool :=
  match n with
  | FS.Dir es => forallb (fun e => valid_nameb e.1 && wf_node e.2) es
  | _ => true
  end.

(** The root of a file system is a directory. *)
Definition is_dir (n : FS.node) : Prop :=
  match n with FS.Dir _ => True | _ => False end.

(** ** Notions the proofs are stated with *)

(** A string is trimmed when neither end is in the class [f]. *)
Definition trimmed_by (f : ascii -> bool) (s : pystr) : Prop :=
  drop_while f s = s ∧ drop_while f (reverse s) = reverse s.

Definition trimmed : pystr -> Prop := trimmed_by is_space.

(** The author as line 199 computes it. *)
Definition norm_author (a : pystr) : pystr :=
  strip (replace "010" (str " ") (replace "013" [] a)).

(** The condition of line 207 on a trimmed title that is not empty. *)
Definition wraps (u : pystr) : bool :=
  bool_decide (head u ≠ Some "{"%char) && bool_decide (last u ≠ Some "}"%char).

(** The title as lines 206-208 compute it. *)
Definition norm_title (t : pystr) : pystr :=
  let u := strip t in if wraps u then str "{" ++ u ++ str "}" else u.

(** Strictly increasing: the order that leaves no choice. *)
Definition str_lt (a b : pystr) : Prop := str_le a b ∧ a ≠ b.

(** What one pass of [list_cks] over the entries [seen] of [dir] has
    gathered. *)
Definition gathered (os : os_view) (limit : nat) (dir : pystr)
    (seen : list pystr) (cks : gset pystr) : Prop :=
  (∀ f, f ∈ seen → isdir os (Path.join dir f) = true →
        ∃ sub, list_cks os limit (Path.join dir f) = inr sub) ∧
  ∀ ck, ck ∈ cks ↔
    ∃ f, f ∈ seen ∧
      (isdir os (Path.join dir f) = false ∧ key_of f ck ∨
       isdir os (Path.join dir f) = true ∧
         ∃ sub, list_cks os limit (Path.join dir f) = inr sub ∧ ck ∈ sub).

(** The components [normpath] keeps are not empty and hold no slash. *)
Definition plain_comp (w : pystr) : Prop := w ≠ [] ∧ "/"%char ∉ w.

(** The path that [abspath] normalizes. *)
Definition absjoin (cwd p : pystr) : pystr :=
  if Path.startswith_sep p then p else Path.join cwd p.

(** The dict after the link [l]: the step of [visit_link] on [pdfs]. *)
Definition add_link (m : gmap pystr (list pystr)) (l : list pystr * pystr)
    : gmap pystr (list pystr) :=
  let '(ck, ext) := Path.splitext l.2 in
  if bool_decide (lower ext = str ".pdf")
  then <[ck := default [] (m !! ck) ++ [tag_name l.1]]> m else m.

Definition add_links (links : list (list pystr * pystr))
    (m : gmap pystr (list pystr)) : gmap pystr (list pystr) :=
  foldl add_link m links.

(** The helper and the traversal end alike, and the dict is the links of
    the traversal added to the dict of the call. *)
Definition agree (r1 : exn + tagged) (r2 : exn + list (list pystr * pystr))
    (m : gmap pystr (list pystr)) : Prop :=
  match r1, r2 with
  | inr t, inr links => pdfs t = add_links links m
  | inl e1, inl e2 => e1 = e2
  | _, _ => False
  end.

(** [cur] is a directory of the tree. *)
Definition at_dir (root : FS.node) (cur : list pystr) : Prop :=
  ∃ es, FS.get root cur = Some (FS.Dir es).

(** The tree with the entry [name] added to the directory [dir]. *)
Definition add_entry (name : pystr) (x : FS.node) (n : FS.node)
    (dir : list pystr) : FS.node :=
  FS.update (fun es => es ++ [(name, x)]) n dir.

(** Same kind of node: what path resolution looks at. *)
Definition same_kind (n m : FS.node) : Prop :=
  match n, m with
  | FS.File, FS.File => True
  | FS.Symlink t, FS.Symlink t' => t = t'
  | FS.Dir _, FS.Dir _ => True
  | _, _ => False
  end.

(** The path of the link of [ck] under [tag]. *)
Definition link_path (ck_tag_dir tag ck : pystr) : pystr :=
  Path.join (Path.join ck_tag_dir tag) (ck ++ str ".pdf").

(** ** The examples of the specification *)

(** A record with the three fields the canonicalizer reads. *)
Definition record (id author title : pystr) : Bib.entry :=
  <[str "ID" := id]> (<[str "author" := author]> (<[str "title" := title]> ∅)).

(** The record of the canonicalizer's example, before and after. *)
Definition record_Y : Bib.entry :=
  record (str "Y") (str "A" ++ ["010"%char] ++ str "B") (str "T").

Definition record_X : Bib.entry := record (str "X") (str "A B") (str "{T}").

(** A bibliography directory with a multi-dot sibling. *)
Definition cmt12_fs : FS.node :=
  FS.Dir [(str "bib",
           FS.Dir [(str "CMT12.pdf", FS.File); (str "CMT12.bib", FS.File);
                   (str "CMT12.slides.pdf", FS.File)])].

(** A tag tree with the links [ml/A.pdf] and [ml/nlp/A.pdf]. *)
Definition ml_fs : FS.node :=
  FS.Dir [(str "bib", FS.Dir [(str "A.pdf", FS.File)]);
          (str "tags",
           FS.Dir [(str "ml",
                    FS.Dir [(str "A.pdf", FS.Symlink (str "/bib/A.pdf"));
                            (str "nlp",
                             FS.Dir [(str "A.pdf",
                                      FS.Symlink (str "/bib/A.pdf"))])])])].

(** The same entries, with [nlp] listed before [A.pdf]. *)
Definition ml_fs_nlp_first : FS.node :=
  FS.Dir [(str "bib", FS.Dir [(str "A.pdf", FS.File)]);
          (str "tags",
           FS.Dir [(str "ml",
                    FS.Dir [(str "nlp",
                             FS.Dir [(str "A.pdf",
                                      FS.Symlink (str "/bib/A.pdf"))]);
                            (str "A.pdf", FS.Symlink (str "/bib/A.pdf"))])])].

(** [{A.pdf, B.pdf, B.bib}] with [A] linked under the tag [x]. *)
Definition untagged_fs : FS.node :=
  FS.Dir [(str "bib",
           FS.Dir [(str "A.pdf", FS.File); (str "B.pdf", FS.File);
                   (str "B.bib", FS.File)]);
          (str "tags",
           FS.Dir [(str "x",
                    FS.Dir [(str "A.pdf", FS.Symlink (str "/bib/A.pdf"))])])].

(** No [/bib/A.pdf], and no tag yet. *)
Definition empty_tags_fs : FS.node :=
  FS.Dir [(str "bib", FS.Dir []); (str "tags", FS.Dir [])].

(** No [/bib/A.pdf], and the link [/tags/ml/A.pdf] to it. *)
Definition dangling_fs : FS.node :=
  FS.Dir [(str "bib", FS.Dir []);
          (str "tags",
           FS.Dir [(str "ml",
                    FS.Dir [(str "A.pdf", FS.Symlink (str "/bib/A.pdf"))])])].

(** A tag whose path is taken by a file. *)
Definition file_tag_fs : FS.node :=
  FS.Dir [(str "bib", FS.Dir [(str "A.pdf", FS.File)]);
          (str "tags", FS.Dir [(str "ml", FS.File)])].

(** ** The other functions of the module *)

(** [parse_tags], lines 151-155.  The function returns a [filter]
    object; the list is what iterating over it yields. *)
Definition parse_tags (tags : pystr) : list pystr :=
  let tags := Path.split_on "," tags in
  let tags := map strip tags in
  filter (fun t => (0 < length t)%nat) tags.

(** [s.split()]: the words between runs of white space. *)
Fixpoint split_ws (s : pystr) : list pystr :=
  match s with
  | [] => []
  | c :: s' =>
      if is_space c then split_ws s'
      else
        match s' with
        | d :: _ =>
            if is_space d then [c] :: split_ws s'
            else match split_ws s' with
                 | w :: ws => (c :: w) :: ws
                 | [] => [[c]]
                 end
        | [] => [[c]]
        end
  end.

(** [get_terminal_width], lines 11-13.  [stty_output] is what
    [os.popen('stty size', 'r').read()] returns: the standard output of
    the command.  The result is the second word, a string. *)
Definition get_terminal_width (stty_output : pystr) : exn + pystr :=
  match split_ws stty_output with
  | [rows; columns] => inr columns
  | _ => inl ValueError
  end.

Section TagListing.
Context (os : os_view).

(** Lines 122-125: the tag of the directory [tagname] below [prefix]. *)
Definition fulltag (prefix tagname : pystr) : pystr :=
  if bool_decide (0 < length prefix)%nat then prefix ++ "/"%char :: tagname
  else tagname.

(** [get_tags], lines 113-133 *)
Fixpoint get_tags (limit : nat) (tagdir prefix : pystr) : exn + list pystr :=
  match limit with
  | O => inl RecursionError
  | S limit' =>
      names ← listdir os tagdir;
      tags ← for_each
               (fun (tags : list pystr) tagname =>
                  let curdir := Path.join tagdir tagname in
                  if negb (isdir os curdir) then inr tags
                  else
                    let tags := tags ++ [fulltag prefix tagname] in
                    sub ← get_tags limit' curdir (fulltag prefix tagname);
                    inr (tags ++ sub))
               names [];
      inr (sorted tags)
  end.

(** What [print_tags] sends to the standard output: the text given to
    [sys.stdout.write] and the arguments of each [print]. *)
Inductive output := Write (s : pystr) | Print (args : list pyval).

(** [print_tags], lines 135-147; [ck = None] is Python's [None]. *)
Definition print_tags (limit : nat) (ck_tag_dir : pystr) (ck : option pystr)
    : exn + list output :=
  r ← match ck with
      | None =>
          tags ← get_tags limit ck_tag_dir [];
          inr ([], tags)
      | Some ck =>
          t ← find_tagged_pdfs os limit ck_tag_dir 0;
          inr (map Print (printed t),
               match pdfs t !! ck with Some tags => tags | None => [] end)
      end;
  inr (r.1 ++ [Write (str "Tags: "); Print [VList r.2]]).

End TagListing.

(** ** The prompts

    The functions that talk to the user read [sys.stdin] and write
    [sys.stdout]; the state is the text still to be read and what has
    been written. *)

Module Tty.

Inductive event := Write (s : pystr) | Flush.

Record state := State { stdin : pystr; stdout : list event }.

Definition M (A : Type) : Type := state -> state * A.

Definition ret {A} (a : A) : M A := fun s => (s, a).
Definition bind {A B} (m : M A) (k : A -> M B) : M B :=
  fun s => let '(s', a) := m s in k a s'.

Notation "'do' x <- m ; k" := (bind m (fun x => k))
  (at level 10, x name, m at level 100, k at level 200).
Notation "m ;; k" := (bind m (fun _ => k))
  (at level 100, k at level 200, right associativity).

Definition write (s : pystr) : M unit :=
  fun st => (State (stdin st) (stdout st ++ [Write s]), tt).

Definition flush : M unit :=
  fun st => (State (stdin st) (stdout st ++ [Flush]), tt).

(** The first line of [s], with its newline if it has one, and the rest. *)
Fixpoint first_line (s : pystr) : pystr * pystr :=
  match s with
  | [] => ([], [])
  | c :: s' =>
      if decide (c = "010"%char) then ([c], s')
      else let '(l, r) := first_line s' in (c :: l, r)
  end.

(** [sys.stdin.readline()]: the empty string at the end of the input. *)
Definition readline : M pystr :=
  fun st => let '(l, r) := first_line (stdin st) in (State r (stdout st), l).

(** [prompt_user], lines 15-19 *)
Definition prompt_user (prompt : pystr) : M pystr :=
  write prompt ;;
  flush ;;
  do line <- readline;
  let answer := strip line in
  ret answer.

(** [confirm_user], lines 21-24 *)
Definition confirm_user (prompt : pystr) : M bool :=
  let prompt := prompt ++ str " [y/N]: " in
  do a <- prompt_user prompt;
  let ans := strip a in
  ret (bool_decide (lower ans = str "y") || bool_decide (lower ans = str "yes")).

(** The answers that [confirm_user] takes for a yes: [y] and [yes] in
    any case of the letters. *)
Definition yes_answers : list pystr :=
  [str "y"; str "Y"; str "yes"; str "yeS"; str "yEs"; str "yES";
   str "Yes"; str "YeS"; str "YEs"; str "YES"].

(** [prompt_for_tags], lines 157-159 *)
Definition prompt_for_tags (prompt : pystr) : M (list pystr) :=
  do tags_str <- prompt_user prompt;
  ret (parse_tags tags_str).

End Tty.

(** ** Reading and writing a file

    [open] in text mode with its defaults.  A file of the tree has a
    text, kept by the real path of the file; a file that was never
    written is empty.  Writing stores the string as it is ([os.linesep]
    is the newline on POSIX); reading translates [\r\n] and [\r] to
    [\n] (universal newlines).  The encoding of the locale is taken to
    have every character of the strings. *)

Module Files.

Record state := State { tree : FS.node; data : gmap (list pystr) pystr }.

(** The newline translation of reading: [after_cr] when the character
    before was a carriage return. *)
Fixpoint universal_newlines (after_cr : bool) (s : pystr) : pystr :=
  match s with
  | [] => []
  | c :: s' =>
      if decide (c = "013"%char) then "010"%char :: universal_newlines true s'
      else if decide (c = "010"%char) then
        if after_cr then universal_newlines false s'
        else "010"%char :: universal_newlines false s'
      else c :: universal_newlines false s'
  end.

(** [open(path, 'r')]: the real path of the file that is opened. *)
Definition open_r (path : pystr) (r : FS.node) : exn + list pystr :=
  loc ← FS.resolve r true path;
  match loc with
  | FS.Found real FS.File => inr real
  | FS.Found _ (FS.Dir _) => inl IsADirectoryError
  | FS.Found _ (FS.Symlink _) => inl OSError_ELOOP
  | FS.Missing _ _ _ => inl FileNotFoundError
  end.

(** [file_to_string], lines 32-36 *)
Definition file_to_string (path : pystr) (st : state) : exn + pystr :=
  real ← open_r path (tree st);
  inr (universal_newlines false (default [] (data st !! real))).

(** The path resolution of [open(path, 'w')].  It is that of [os.stat],
    links followed to the end, but for a name that has slashes after it
    and nothing more: a file cannot be made under such a name, and the
    name is refused with [EISDIR] before it is looked up, whatever it
    names. *)
Fixpoint walk_w (root : FS.node) (fuel : nat)
    : list pystr -> list pystr -> exn + FS.located :=
  fix go (cur rest : list pystr) {struct rest} : exn + FS.located :=
    match rest with
    | [] => match FS.get root cur with
            | Some n => inr (FS.Found cur n)
            | None => inl FileNotFoundError
            end
    | c :: rest' =>
        if bool_decide (c = []) || bool_decide (c = str ".") then go cur rest'
        else if bool_decide (c = str "..") then go (removelast cur) rest'
        else if negb (bool_decide (rest' = []))
                && forallb (fun x => bool_decide (x = [])) rest'
        then inl IsADirectoryError
        else
          match FS.get root (cur ++ [c]) with
          | None =>
              if bool_decide (rest' = []) then inr (FS.Missing cur c false)
              else inl FileNotFoundError
          | Some (FS.Dir _) => go (cur ++ [c]) rest'
          | Some FS.File =>
              if bool_decide (rest' = []) then inr (FS.Found (cur ++ [c]) FS.File)
              else inl NotADirectoryError
          | Some (FS.Symlink t) =>
              match fuel with
              | O => inl OSError_ELOOP
              | S fuel' =>
                  if bool_decide (t = []) then inl FileNotFoundError
                  else walk_w root fuel'
                         (if Path.startswith_sep t then [] else cur)
                         (Path.split_on "/" t ++ rest')
              end
          end
    end.

Global Arguments walk_w : simpl never.

Definition resolve_w (root : FS.node) (p : pystr) : exn + FS.located :=
  if contains "000" p then inl ValueError
  else if bool_decide (p = []) then inl FileNotFoundError
  else walk_w root FS.max_symlinks [] (Path.split_on "/" p).

(** [string_to_file], lines 38-40: [open(path, 'w')] truncates the file
    or makes it, through a link if the path ends in one, and [write]
    stores the string. *)
Definition string_to_file (string path : pystr) (st : state)
    : state * (exn + unit) :=
  match resolve_w (tree st) path with
  | inl e => (st, inl e)
  | inr (FS.Found real FS.File) =>
      (State (tree st) (<[real := string]> (data st)), inr tt)
  | inr (FS.Found _ (FS.Dir _)) => (st, inl IsADirectoryError)
  | inr (FS.Found _ (FS.Symlink _)) => (st, inl OSError_ELOOP)
  | inr (FS.Missing dir name false) =>
      (State (FS.update (fun es => es ++ [(name, FS.File)]) (tree st) dir)
             (<[dir ++ [name] := string]> (data st)),
       inr tt)
  | inr (FS.Missing _ _ true) => (st, inl IsADirectoryError)
  end.

End Files.

(** ** Notions the further properties are stated with *)

(** A tag as [parse_tags] can return it. *)
Definition tag_ok (t : pystr) : Prop := t ≠ [] ∧ trimmed t ∧ ","%char ∉ t.

(** A word: not empty, no white space in it. *)
Definition word (w : pystr) : Prop := w ≠ [] ∧ Forall (fun c => is_space c = false) w.

Definition blank (s : pystr) : Prop := Forall (fun c => is_space c = true) s.

(** A computation of the canonicalizer that leaves the printed lines as
    they were. *)
Definition quiet {A} (m : Bib.M A) : Prop :=
  ∀ s s' r, m s = (s', r) → Bib.stdout s' = Bib.stdout s.

(** Two runs of the tag index end alike: with the same exception, or
    with the same dict. *)
Definition same_index (r1 r2 : exn + tagged) : Prop :=
  match r1, r2 with
  | inr t1, inr t2 => pdfs t1 = pdfs t2
  | inl e1, inl e2 => e1 = e2
  | _, _ => False
  end.

(** Two views of the file system that differ at most in the order in
    which [os.listdir] reports the names of a directory. *)
Definition same_listing (os os' : os_view) : Prop :=
  (∀ d, isdir os d = isdir os' d) ∧
  (∀ d names, listdir os d = inr names →
     ∃ names', listdir os' d = inr names' ∧ names' ≡ₚ names).

Section TagSpec.
Context (os : os_view).

(** The tags [get_tags] is to return: one for each directory below
    [tagdir], at any depth. *)
Inductive tag_below : pystr -> pystr -> pystr -> Prop :=
| tag_here tagdir prefix names tagname :
    listdir os tagdir = inr names -> tagname ∈ names ->
    isdir os (Path.join tagdir tagname) = true ->
    tag_below tagdir prefix (fulltag prefix tagname)
| tag_deeper tagdir prefix names tagname tag :
    listdir os tagdir = inr names -> tagname ∈ names ->
    isdir os (Path.join tagdir tagname) = true ->
    tag_below (Path.join tagdir tagname) (fulltag prefix tagname) tag ->
    tag_below tagdir prefix tag.

(** The links below the tag root: [link_in root cs c f] when, from the
    directory reached through [cs], the entry [f] of the directory
    reached through [c] is found by going down through directories, and
    is a symbolic link and not a directory. *)
Inductive link_in (root : pystr) : list pystr -> list pystr -> pystr -> Prop :=
| link_here cs names f :
    listdir os (subdir root cs) = inr names -> f ∈ names ->
    isdir os (Path.join (subdir root cs) f) = false ->
    islink os (Path.join (subdir root cs) f) = true ->
    link_in root cs cs f
| link_deeper cs names d c f :
    listdir os (subdir root cs) = inr names -> d ∈ names ->
    isdir os (Path.join (subdir root cs) d) = true ->
    link_in root (cs ++ [d]) c f ->
    link_in root cs c f.
End TagSpec.

(** The tree [r'] holds what [r] holds: every entry of [r] is in [r'] at
    the same place and is of the same kind. *)
Definition grows (r r' : FS.node) : Prop :=
  ∀ p n, FS.get r p = Some n → ∃ n', FS.get r' p = Some n' ∧ same_kind n n'.

(** A computation that only adds to the tree, and one that writes nothing
    to the standard output or the standard error. *)
Definition keeps {A} (m : Sys.M A) : Prop :=
  ∀ s s' r, m s = (s', r) → grows (Sys.root s) (Sys.root s').

Definition silent {A} (m : Sys.M A) : Prop :=
  ∀ s s' r, m s = (s', r) →
    Sys.stdout s' = Sys.stdout s ∧ Sys.stderr s' = Sys.stderr s.

(** The tree without the entry at the real path [real]: what
    [os.remove] leaves. *)
Definition rm_entry (real : list pystr) (r : FS.node) : FS.node :=
  FS.update (filter (fun e => e.1 ≠ Sys.basename real)) r (Sys.parent real).

(** No directory of the tree holds a name twice. *)
Fixpoint unique_names (n : FS.node) : Prop :=
  match n with
  | FS.Dir es =>
      NoDup (map fst es) ∧
      (fix all (es : list (pystr * FS.node)) : Prop :=
         match es with
         | [] => True
         | e :: es' => unique_names e.2 ∧ all es'
         end) es
  | _ => True
  end.

(** ** More examples *)

(** [/bib/A.pdf] is there, and no tag yet. *)
Definition pdf_fs : FS.node :=
  FS.Dir [(str "bib", FS.Dir [(str "A.pdf", FS.File)]); (str "tags", FS.Dir [])].

(** The path of the link is taken by a directory. *)
Definition dir_at_link_fs : FS.node :=
  FS.Dir [(str "bib", FS.Dir []);
          (str "tags", FS.Dir [(str "ml", FS.Dir [(str "A.pdf", FS.Dir [])])])].

(** A directory of two files, listed in one order and in the other. *)
Definition two_files (names : list pystr) : os_view :=
  {| getcwd := str "/";
     listdir := fun d => if decide (d = str "bib") then inr names
                         else inl FileNotFoundError;
     isdir := fun d => bool_decide (d = str "bib");
     islink := fun _ => false;
     path_exists := fun _ => true |}.

(** * Proofs *)

Section StringFacts.
Implicit Types (s t : pystr) (c : ascii).

Context (f : ascii → bool).

Lemma drop_while_idem s : drop_while f (drop_while f s) = drop_while f s.
Proof.
  induction s as [|c s IH]; simpl; [done|].
  destruct (f c) eqn:E; [done|]. simpl. by rewrite E.
Qed.

Lemma drop_while_snoc s c :
  f c = false → drop_while f (s ++ [c]) = drop_while f s ++ [c].
Proof.
  intros Hc. induction s as [|d s IH]; simpl; [by rewrite Hc|].
  by destruct (f d).
Qed.

Lemma drop_while_head s :
  drop_while f s = [] ∨ ∃ c s', drop_while f s = c :: s' ∧ f c = false.
Proof.
  induction s as [|c s IH]; simpl; [by left|].
  destruct (f c) eqn:E; [done|]. right. eauto.
Qed.

Lemma drop_while_subseteq s : drop_while f s ⊆ s.
Proof.
  induction s as [|c s IH]; simpl; [done|].
  destruct (f c); [|done]. by apply list_subseteq_cons.
Qed.

Lemma rdrop_while_subseteq s : rdrop_while f s ⊆ s.
Proof.
  intros x Hx. unfold rdrop_while in Hx.
  rewrite elem_of_reverse in Hx. apply drop_while_subseteq in Hx.
  by rewrite elem_of_reverse in Hx.
Qed.


Lemma strip_by_trimmed s : trimmed_by f (rdrop_while f (drop_while f s)).
Proof.
  unfold trimmed_by, rdrop_while.
  rewrite reverse_involutive, drop_while_idem. split; [|done].
  destruct (drop_while_head s) as [->|(c & u & -> & Hc)]; [done|].
  rewrite reverse_cons, drop_while_snoc by done.
  rewrite reverse_app. simpl. by rewrite Hc.
Qed.

Lemma trimmed_by_strip s : trimmed_by f s → rdrop_while f (drop_while f s) = s.
Proof.
  intros [H1 H2]. unfold rdrop_while. by rewrite H1, H2, reverse_involutive.
Qed.
End StringFacts.

Section StripFacts.
Implicit Types (s t : pystr) (c : ascii).

Lemma strip_subseteq s : strip s ⊆ s.
Proof.
  unfold strip, rstrip, lstrip. intros x Hx.
  by apply rdrop_while_subseteq, drop_while_subseteq in Hx.
Qed.

Lemma strip_trimmed s : trimmed (strip s).
Proof. apply strip_by_trimmed. Qed.

Lemma trimmed_strip s : trimmed s → strip s = s.
Proof. apply trimmed_by_strip. Qed.
Lemma strip_idem s : strip (strip s) = strip s.
Proof. apply trimmed_strip, strip_trimmed. Qed.

Lemma trimmed_braced s : trimmed (str "{" ++ s ++ str "}").
Proof.
  split; [done|]. by rewrite !reverse_app.
Qed.

Lemma replace_absent c new s : c ∉ s → replace c new s = s.
Proof.
  induction s as [|d s IH]; simpl; [done|].
  intros H. apply not_elem_of_cons in H as [H1 H2].
  unfold replace in *. simpl. rewrite decide_False by done. simpl. by rewrite IH.
Qed.

Lemma replace_removes c new s : c ∉ new → c ∉ replace c new s.
Proof.
  intros Hn. unfold replace. induction s as [|d s IH]; simpl; [apply not_elem_of_nil|].
  rewrite elem_of_app. intros [H|H]; [|done].
  destruct (decide (d = c)); [done|]. apply list_elem_of_singleton in H. congruence.
Qed.

Lemma replace_keeps_absent c d new s : d ∉ s → d ∉ new → d ∉ replace c new s.
Proof.
  intros Hs Hn. unfold replace. induction s as [|e s IH]; simpl; [apply not_elem_of_nil|].
  apply not_elem_of_cons in Hs as [H1 H2].
  rewrite elem_of_app. intros [H|H]; [|by apply IH].
  destruct (decide (e = c)); [done|]. apply list_elem_of_singleton in H. congruence.
Qed.
End StripFacts.

Section Getitem.
Import Bib.
Lemma getitem_first c s : getitem (c :: s) 0 = inr c.
Proof. done. Qed.

Lemma getitem_nil i : getitem [] i = inl IndexError.
Proof.
  unfold getitem. simpl. destruct (i <? 0) eqn:E.
  - by rewrite Z.add_0_r, E.
  - by rewrite E.
Qed.

Lemma getitem_last s d : last s = Some d → getitem s (Z.of_nat (length s) - 1) = inr d.
Proof.
  intros H. unfold getitem.
  assert (length s ≠ 0%nat) by (destruct s; done).
  destruct (Z.ltb_spec (Z.of_nat (length s) - 1) 0); [lia|].
  rewrite last_lookup in H.
  replace (Z.to_nat (Z.of_nat (length s) - 1)) with (pred (length s)) by lia.
  rewrite H. by destruct (Z.ltb_spec (Z.of_nat (length s) - 1) 0); [lia|].
Qed.
End Getitem.

Section Canonicalize.
Import Bib.
Context (ck : pystr) (v : Z).
Implicit Types (bib : entry) (out : list (list pyval)) (s : state).

Lemma bind_ok {A B} (m : M A) (k : A → M B) s s' a :
  m s = (s', inr a) → bind m k s = k a s'.
Proof. unfold bind. by intros ->. Qed.

Lemma bind_err {A B} (m : M A) (k : A → M B) s s' e :
  m s = (s', inl e) → bind m k s = (s', inl e).
Proof. unfold bind. by intros ->. Qed.

Lemma get_field_ok i k s bib x :
  entries s !! i = Some bib → bib !! k = Some x → get_field i k s = (s, inr x).
Proof. unfold get_field. by intros -> ->. Qed.

Lemma set_field_ok k x bib out :
  set_field 0 k x (State [bib] out) = (State [<[k := x]> bib] out, inr tt).
Proof. done. Qed.

Lemma when_print b line bib out :
  ∃ out', when b (print line) (State [bib] out) = (State [bib] out', inr tt).
Proof. destruct b; eexists; reflexivity. Qed.

(** One field of the entry brought to the value [x]: the shape shared by
    the three blocks. *)
Lemma fix_field_run (k x y msg : pystr) bib out upd :
  bib !! k = Some y →
  ∃ out',
    (if decide (y ≠ x) then
       when (1 <? v) (print msg) ;; set_field 0 k x ;; ret true
     else ret upd) (State [bib] out) =
      (State [<[k := x]> bib] out', inr (bool_decide (y ≠ x) || upd))
    ∧ (y = x → out' = out).
Proof.
  intros Hk. destruct (decide (y ≠ x)) as [Hne|Heq].
  - rewrite bool_decide_eq_true_2 by done.
    destruct (when_print (1 <? v) msg bib out) as [out' Hp].
    exists out'. split; [|done].
    erewrite bind_ok by exact Hp. erewrite bind_ok by apply set_field_ok. done.
  - apply dec_stable in Heq. subst y. rewrite bool_decide_eq_false_2 by auto.
    rewrite insert_id by done. by exists out.
Qed.

Lemma fix_id_run bib out id upd :
  bib !! str "ID" = Some id →
  ∃ out',
    fix_id ck v 0 upd (State [bib] out) =
      (State [<[str "ID" := ck]> bib] out', inr (bool_decide (id ≠ ck) || upd))
    ∧ (id = ck → out' = out).
Proof.
  intros Hid. unfold fix_id.
  erewrite bind_ok by by eapply get_field_ok.
  by apply fix_field_run.
Qed.

Lemma fix_author_run bib out a upd :
  bib !! str "author" = Some a →
  ∃ out',
    fix_author ck v 0 upd (State [bib] out) =
      (State [<[str "author" := norm_author a]> bib] out',
       inr (bool_decide (a ≠ norm_author a) || upd))
    ∧ (a = norm_author a → out' = out).
Proof.
  intros Ha. unfold fix_author.
  erewrite bind_ok by by eapply get_field_ok.
  erewrite bind_ok by by eapply get_field_ok.
  by apply fix_field_run.
Qed.

Lemma title_wrap_run (c : ascii) (u : pystr) s :
  (if decide (c ≠ "{"%char) then
     do last <- lift (getitem (c :: u) (Z.of_nat (length (c :: u)) - 1));
     ret (bool_decide (last ≠ "}"%char))
   else ret false) s = (s, inr (wraps (c :: u))).
Proof.
  destruct (last (c :: u)) as [d|] eqn:Hl;
    [|by apply last_None in Hl].
  unfold wraps. simpl head. rewrite Hl.
  destruct (decide (c ≠ "{"%char)) as [Hc|Hc].
  - erewrite bind_ok by (unfold lift; by rewrite (getitem_last _ _ Hl)).
    unfold ret.
    rewrite (bool_decide_eq_true_2 (Some c ≠ _)) by congruence. simpl.
    do 2 f_equal. apply bool_decide_ext. naive_solver.
  - apply dec_stable in Hc. subst c. by rewrite bool_decide_eq_false_2 by auto.
Qed.

Lemma fix_title_run bib out t upd :
  bib !! str "title" = Some t → strip t ≠ [] →
  ∃ out',
    fix_title ck v 0 upd (State [bib] out) =
      (State [<[str "title" := norm_title t]> bib] out',
       inr (bool_decide (t ≠ norm_title t) || upd))
    ∧ (t = norm_title t → out' = out).
Proof.
  intros Ht Hne. unfold fix_title, norm_title.
  erewrite bind_ok by by eapply get_field_ok.
  destruct (strip t) as [|c u] eqn:Eu; [done|].
  erewrite bind_ok by (unfold lift; by rewrite getitem_first).
  erewrite bind_ok by apply title_wrap_run.
  erewrite bind_ok by by eapply get_field_ok.
  by apply fix_field_run.
Qed.

Lemma fix_title_empty bib out t upd :
  bib !! str "title" = Some t → strip t = [] →
  fix_title ck v 0 upd (State [bib] out) = (State [bib] out, inl IndexError).
Proof.
  intros Ht He. unfold fix_title.
  erewrite bind_ok by by eapply get_field_ok.
  rewrite He. by erewrite bind_err by (unfold lift; by rewrite getitem_nil).
Qed.

(** The three rules at once, on a record of one entry that has the
    three fields and a title that is not blank. *)
Lemma canonicalize_run bib out id a t :
  bib !! str "ID" = Some id → bib !! str "author" = Some a →
  bib !! str "title" = Some t → strip t ≠ [] →
  ∃ out',
    canonicalize_bibtex ck v (State [bib] out) =
      (State [<[str "title" := norm_title t]>
                (<[str "author" := norm_author a]> (<[str "ID" := ck]> bib))] out',
       inr (bool_decide (id ≠ ck) || bool_decide (a ≠ norm_author a)
            || bool_decide (t ≠ norm_title t)))
    ∧ (id = ck → a = norm_author a → t = norm_title t → out' = out).
Proof.
  intros Hid Ha Ht Hne.
  destruct (fix_id_run bib out id false Hid) as (o1 & E1 & K1).
  destruct (fix_author_run (<[str "ID" := ck]> bib) o1 a
              (bool_decide (id ≠ ck) || false)) as (o2 & E2 & K2).
  { by rewrite lookup_insert_ne. }
  destruct (fix_title_run (<[str "author" := norm_author a]> (<[str "ID" := ck]> bib))
              o2 t (bool_decide (a ≠ norm_author a) || (bool_decide (id ≠ ck) || false)))
    as (o3 & E3 & K3); [by rewrite !lookup_insert_ne| done |].
  exists o3. split; [|intros; rewrite K3, K2, K1; done].
  unfold canonicalize_bibtex. cbn [entries length]. rewrite decide_True by done.
  erewrite bind_ok; cycle 1.
  { unfold for_range, canonicalize_entry. erewrite bind_ok; [reflexivity|].
    erewrite bind_ok by exact E1. erewrite bind_ok by exact E2. exact E3. }
  erewrite bind_ok; cycle 1.
  { eapply get_field_ok; [done|]. rewrite !lookup_insert_ne by done.
    apply lookup_insert_eq. }
  unfold ret. do 2 f_equal.
  by destruct (bool_decide (id ≠ ck)), (bool_decide (a ≠ norm_author a)),
    (bool_decide (t ≠ norm_title t)).
Qed.

(** What a call that returns has read. *)
Lemma canonicalize_returns s s' b :
  canonicalize_bibtex ck v s = (s', inr b) →
  ∃ bib id a t,
    entries s = [bib] ∧ bib !! str "ID" = Some id ∧
    bib !! str "author" = Some a ∧ bib !! str "title" = Some t ∧
    strip t ≠ [].
Proof.
  destruct s as [es out]. unfold canonicalize_bibtex. cbn [entries].
  destruct (decide (length es = 1%nat)) as [Hl|]; [|done].
  destruct es as [|bib [|]]; try done. clear Hl.
  intros H. exists bib.
  destruct (bib !! str "ID") as [id|] eqn:Hid; cycle 1.
  { exfalso. revert H. cbn [length for_range]. unfold canonicalize_entry, fix_id.
    erewrite bind_err; [done|]. erewrite bind_err; [done|].
    erewrite bind_err; [done|]. erewrite bind_err; [done|].
    unfold get_field. cbn [entries]. change ([bib] !! 0%nat) with (Some bib).
    cbv beta iota. by rewrite Hid. }
  destruct (fix_id_run bib out id false Hid) as (o1 & E1 & _).
  destruct (bib !! str "author") as [a|] eqn:Ha; cycle 1.
  { exfalso. revert H. cbn [length for_range]. unfold canonicalize_entry.
    erewrite bind_err; [done|]. erewrite bind_err; [done|].
    erewrite bind_ok by exact E1. erewrite bind_err; [done|].
    unfold fix_author. erewrite bind_err; [done|].
    unfold get_field. cbn [entries].
    change ([<[str "ID":=ck]> bib] !! 0%nat) with (Some (<[str "ID":=ck]> bib)).
    cbv beta iota. by rewrite lookup_insert_ne, Ha. }
  destruct (fix_author_run (<[str "ID" := ck]> bib) o1 a
              (bool_decide (id ≠ ck) || false)) as (o2 & E2 & _).
  { by rewrite lookup_insert_ne. }
  destruct (bib !! str "title") as [t|] eqn:Ht; cycle 1.
  { exfalso. revert H. cbn [length for_range]. unfold canonicalize_entry.
    erewrite bind_err; [done|]. erewrite bind_err; [done|].
    erewrite bind_ok by exact E1. erewrite bind_ok by exact E2.
    unfold fix_title. erewrite bind_err; [done|].
    unfold get_field. cbn [entries].
    match goal with |- context [[?b] !! 0%nat] => change ([b] !! 0%nat) with (Some b) end.
    cbv beta iota. by rewrite !lookup_insert_ne, Ht. }
  exists id, a, t. repeat split; try done.
  intros He. revert H. cbn [length for_range]. unfold canonicalize_entry.
  erewrite bind_err; [done|]. erewrite bind_err; [done|].
  erewrite bind_ok by exact E1. erewrite bind_ok by exact E2.
  apply (fix_title_empty _ _ t); [by rewrite !lookup_insert_ne|done].
Qed.
End Canonicalize.

Section Idempotence.
Import Bib.
Implicit Types (a t u : pystr).

Lemma norm_author_idem a : norm_author (norm_author a) = norm_author a.
Proof.
  unfold norm_author.
  set (x := replace "010" (str " ") (replace "013" [] a)).
  assert ("013"%char ∉ strip x ∧ "010"%char ∉ strip x) as [Hr Hn].
  { assert ("013"%char ∉ x ∧ "010"%char ∉ x) as [??].
    { split.
      - apply replace_keeps_absent; [apply replace_removes, not_elem_of_nil|].
        by intros ?%list_elem_of_singleton.
      - apply replace_removes. by intros ?%list_elem_of_singleton. }
    split; intros ?%strip_subseteq; done. }
  by rewrite (replace_absent "013"), (replace_absent "010"), strip_idem.
Qed.

Lemma wraps_braced u : wraps (str "{" ++ u ++ str "}") = false.
Proof.
  unfold wraps. change (head (str "{" ++ u ++ str "}")) with (Some "{"%char).
  by rewrite bool_decide_eq_false_2 by auto.
Qed.

Lemma norm_title_idem t : norm_title (norm_title t) = norm_title t.
Proof.
  unfold norm_title. destruct (wraps (strip t)) eqn:Hw.
  - rewrite (trimmed_strip _ (trimmed_braced _)). by rewrite wraps_braced.
  - by rewrite strip_idem, Hw.
Qed.

Lemma norm_title_nonblank t : strip t ≠ [] → strip (norm_title t) ≠ [].
Proof.
  intros Ht. unfold norm_title. destruct (wraps (strip t)).
  - by rewrite (trimmed_strip _ (trimmed_braced _)).
  - by rewrite strip_idem.
Qed.

(** A second run finds nothing to change, prints nothing and answers
    [False]. *)
Lemma canonicalize_twice ck v v' s s' b :
  canonicalize_bibtex ck v s = (s', inr b) →
  canonicalize_bibtex ck v' s' = (s', inr false).
Proof.
  intros H. destruct (canonicalize_returns ck v s s' b H)
    as (bib & id & a & t & Hs & Hid & Ha & Ht & Hne).
  destruct s as [es out]. simpl in Hs. subst es.
  destruct (canonicalize_run ck v bib out id a t Hid Ha Ht Hne) as (out' & Hrun & _).
  rewrite Hrun in H. injection H as <- <-.
  set (bib' := <[str "title":=norm_title t]>
                 (<[str "author":=norm_author a]> (<[str "ID":=ck]> bib))).
  destruct (canonicalize_run ck v' bib' out' ck (norm_author a) (norm_title t))
    as (out'' & Hrun' & Hout).
  - subst bib'. rewrite !lookup_insert_ne by done. apply lookup_insert_eq.
  - subst bib'. rewrite lookup_insert_ne by done. apply lookup_insert_eq.
  - subst bib'. apply lookup_insert_eq.
  - by apply norm_title_nonblank.
  - rewrite Hrun'. rewrite norm_author_idem, norm_title_idem in *.
    rewrite Hout by done.
    rewrite !bool_decide_eq_false_2 by auto. simpl. do 3 f_equal.
    assert (bib' !! str "ID" = Some ck) as H1.
    { subst bib'. rewrite !lookup_insert_ne by done. apply lookup_insert_eq. }
    assert (bib' !! str "author" = Some (norm_author a)) as H2.
    { subst bib'. rewrite lookup_insert_ne by done. apply lookup_insert_eq. }
    assert (bib' !! str "title" = Some (norm_title t)) as H3.
    { subst bib'. apply lookup_insert_eq. }
    by rewrite (insert_id _ _ _ H1), (insert_id _ _ _ H2), (insert_id _ _ _ H3).
Qed.
End Idempotence.

Section Blank.
Import Bib.
Context (ck : pystr) (v : Z).

(** A title of white space only: the first two rules are applied, then
    line 207 reads [title[0]]. *)
Lemma canonicalize_blank bib out id a t :
  bib !! str "ID" = Some id → bib !! str "author" = Some a →
  bib !! str "title" = Some t → strip t = [] →
  ∃ out',
    canonicalize_bibtex ck v (State [bib] out) =
      (State [<[str "author" := norm_author a]> (<[str "ID" := ck]> bib)] out',
       inl IndexError).
Proof.
  intros Hid Ha Ht He.
  destruct (fix_id_run ck v bib out id false Hid) as (o1 & E1 & _).
  destruct (fix_author_run ck v (<[str "ID" := ck]> bib) o1 a
              (bool_decide (id ≠ ck) || false)) as (o2 & E2 & _).
  { by rewrite lookup_insert_ne. }
  exists o2. unfold canonicalize_bibtex. cbn [entries length].
  rewrite decide_True by done. cbn [for_range]. unfold canonicalize_entry.
  erewrite bind_err; [done|]. erewrite bind_err; [done|].
  erewrite bind_ok by exact E1. erewrite bind_ok by exact E2.
  apply (fix_title_empty _ _ _ _ t); [by rewrite !lookup_insert_ne|done].
Qed.
End Blank.

(** *** The order of [sorted] *)
Section Order.
Implicit Types (a b c : pystr).

Lemma code_inj x y : code x = code y → x = y.
Proof.
  unfold code. intros H.
  rewrite <- (ascii_N_embedding x), <- (ascii_N_embedding y). by rewrite H.
Qed.

Global Instance str_le_refl : Reflexive str_le.
Proof.
  intros a. unfold str_le. induction a as [|x a IH]; simpl; [done|].
  by rewrite N.ltb_irrefl, N.eqb_refl.
Qed.

Global Instance str_le_trans : Transitive str_le.
Proof.
  unfold str_le. intros a. induction a as [|x a IH]; intros [|y b] [|z c]; simpl; try done.
  destruct (N.ltb_spec (code x) (code y)), (N.ltb_spec (code y) (code z)),
    (N.ltb_spec (code x) (code z)); try done; try lia;
    destruct (N.eqb_spec (code x) (code y)), (N.eqb_spec (code y) (code z)),
      (N.eqb_spec (code x) (code z)); try done; try lia.
  apply IH.
Qed.

Global Instance str_le_total : Total str_le.
Proof.
  unfold str_le. intros a. induction a as [|x a IH]; intros [|y b]; simpl; auto.
  destruct (N.ltb_spec (code x) (code y)), (N.ltb_spec (code y) (code x));
    auto; try lia.
  destruct (N.eqb_spec (code x) (code y)), (N.eqb_spec (code y) (code x));
    auto; lia.
Qed.

Global Instance str_le_antisymm : AntiSymm (=) str_le.
Proof.
  unfold str_le. intros a. induction a as [|x a IH]; intros [|y b]; simpl; try done.
  destruct (N.ltb_spec (code x) (code y)), (N.ltb_spec (code y) (code x));
    try done; try lia;
    destruct (N.eqb_spec (code x) (code y)), (N.eqb_spec (code y) (code x));
    try done; try lia.
  intros H1 H2. f_equal; [by apply code_inj|by apply IH].
Qed.


Lemma sorted_elem_of (l : list pystr) a : a ∈ sorted l ↔ a ∈ l.
Proof. unfold sorted. by rewrite merge_sort_Permutation. Qed.

Lemma sorted_strict (l : list pystr) :
  NoDup l → StronglySorted str_lt (sorted l).
Proof.
  intros Hnd.
  assert (NoDup (sorted l)) as Hnd'.
  { unfold sorted. by rewrite merge_sort_Permutation. }
  pose proof (StronglySorted_merge_sort str_le l) as Hs. fold (sorted l) in Hs.
  induction Hs as [|a l' Hs IH Hall]; [constructor|].
  apply NoDup_cons in Hnd' as [Hn Hnd']. constructor; [by apply IH|].
  rewrite Forall_forall in Hall |- *. intros b Hb. split; [by apply Hall|].
  intros ->. done.
Qed.

Lemma strict_sorted_unique (l1 l2 : list pystr) :
  StronglySorted str_lt l1 → StronglySorted str_lt l2 →
  (∀ a, a ∈ l1 ↔ a ∈ l2) → l1 = l2.
Proof.
  intros H1 H2 Heq.
  assert (∀ l, StronglySorted str_lt l → StronglySorted str_le l ∧ NoDup l) as Hw.
  { induction 1 as [|a l Hs [IH1 IH2] Hall]; [split; constructor|].
    split.
    - constructor; [done|]. eapply Forall_impl; [done|]. by intros ? [??].
    - constructor; [|done]. intros Ha. rewrite Forall_forall in Hall.
      by destruct (Hall _ Ha). }
  destruct (Hw _ H1), (Hw _ H2).
  apply (StronglySorted_unique str_le); [done..|].
  by apply NoDup_Permutation.
Qed.
End Order.

Section ForEach.
Context {A S : Type} (body : S → A → exn + S).

Lemma for_each_app l1 l2 s :
  for_each body (l1 ++ l2) s = (s' ← for_each body l1 s; for_each body l2 s').
Proof.
  revert s. induction l1 as [|x l1 IH]; intros s; simpl; [done|].
  destruct (body s x); simpl; [done|]. apply IH.
Qed.

(** An invariant of the loop, carried over the items already seen. *)
Lemma for_each_inv (I : list A → S → Prop) l s0 s :
  I [] s0 →
  (∀ seen x s s', I seen s → x ∈ l → body s x = inr s' → I (seen ++ [x]) s') →
  for_each body l s0 = inr s → I l s.
Proof.
  intros H0 Hstep.
  assert (∀ seen rest s1, seen ++ rest = l → I seen s1 →
                          for_each body rest s1 = inr s → I l s) as Hgen.
  { intros seen rest. revert seen. induction rest as [|x rest IH];
      intros seen s1 Heq Hs1; simpl.
    - intros [= <-]. by rewrite app_nil_r in Heq; subst.
    - destruct (body s1 x) as [e|s2] eqn:Hb; simpl; [done|].
      apply (IH (seen ++ [x])); [by rewrite <- app_assoc|].
      eapply Hstep; [done| |done]. subst l. set_solver. }
  by apply (Hgen [] l s0).
Qed.

(** The loop ends without an exception when every pass does. *)
Lemma for_each_returns (I : S → Prop) l s0 :
  I s0 →
  (∀ x s, I s → x ∈ l → ∃ s', body s x = inr s' ∧ I s') →
  ∃ s, for_each body l s0 = inr s ∧ I s.
Proof.
  revert s0. induction l as [|x l IH]; intros s0 H0 Hstep; simpl; [eauto|].
  destruct (Hstep x s0 H0) as (s1 & -> & H1); [set_solver|]. simpl.
  apply IH; [done|]. intros y s Hs Hy. apply Hstep; [done|set_solver].
Qed.
End ForEach.

Section Scanner.
Context (os : os_view).

Lemma list_cks_file_spec filename cks ck :
  ck ∈ list_cks_file filename cks ↔ ck ∈ cks ∨ key_of filename ck.
Proof.
  unfold list_cks_file, key_of.
  destruct (Path.splitext filename) as [k ext] eqn:Hs.
  unfold contains. case_bool_decide as Hdot.
  { split; [auto|]. intros [ ? | (e & [= <- <-] & ? & _)]; done. }
  destruct (bool_decide (lower ext = str ".pdf") || bool_decide (lower ext = str ".bib"))
    eqn:Hext.
  - apply orb_true_iff in Hext. rewrite !bool_decide_eq_true in Hext.
    rewrite elem_of_union, elem_of_singleton. split.
    + intros [ ? | -> ]; [auto|]. right. by exists ext.
    + intros [ ? | (e & [= <- <-] & _)]; auto.
  - apply orb_false_iff in Hext. rewrite !bool_decide_eq_false in Hext.
    split; [auto|]. intros [ ? | (e & Heq & _ & Hor)]; [done|].
    injection Heq as <- <-. naive_solver.
Qed.

Lemma gathered_step limit dir seen f cks cks' :
  gathered os limit dir seen cks →
  (if isdir os (Path.join dir f) then
     sub ← list_cks os limit (Path.join dir f);
     inr (cks ∪ list_to_set sub)
   else inr (list_cks_file f cks)) = inr cks' →
  gathered os limit dir (seen ++ [f]) cks'.
Proof.
  intros [Hok Hs] Hb.
  destruct (isdir os (Path.join dir f)) eqn:Hd.
  - destruct (list_cks os limit (Path.join dir f)) as [e|sub] eqn:Hsub;
      simpl in Hb; [done|]. injection Hb as <-. split.
    { intros g [Hg|Hg%list_elem_of_singleton]%elem_of_app ?; [by apply Hok|].
      subst g. eauto. }
    intros ck. rewrite elem_of_union, elem_of_list_to_set, (Hs ck). split.
    + intros [ (g & Hg & H) | Hck ].
      { exists g. split; [apply elem_of_app; by left|done]. }
      exists f. split; [apply elem_of_app; right; by apply list_elem_of_singleton|].
      right. eauto.
    + intros (g & Hg & H). apply elem_of_app in Hg as [Hg|Hg]; [left; eauto|].
      apply list_elem_of_singleton in Hg as ->.
      destruct H as [ [Hd' _] | (_ & sub' & Hsub' & Hck) ]; [congruence|].
      right. congruence.
  - injection Hb as <-. split.
    { intros g [Hg|Hg%list_elem_of_singleton]%elem_of_app ?; [by apply Hok|].
      congruence. }
    intros ck. rewrite list_cks_file_spec, (Hs ck). split.
    + intros [ (g & Hg & H) | Hck ].
      { exists g. split; [apply elem_of_app; by left|done]. }
      exists f. split; [apply elem_of_app; right; by apply list_elem_of_singleton|].
      by left.
    + intros (g & Hg & H). apply elem_of_app in Hg as [Hg|Hg]; [left; eauto|].
      apply list_elem_of_singleton in Hg as ->.
      destruct H as [ [_ ?] | [Hd' _] ]; [by right|congruence].
Qed.

Lemma list_cks_unfold limit dir l :
  list_cks os (S limit) dir = inr l →
  ∃ names cks,
    listdir os dir = inr names ∧ gathered os limit dir names cks ∧
    l = sorted (elements cks).
Proof.
  simpl. destruct (listdir os dir) as [e|names] eqn:Hl; simpl; [done|].
  match goal with |- context [for_each ?b _ _] => set (body := b) end.
  destruct (for_each body (sorted names) ∅) as [e|cks] eqn:Hf; simpl; [done|].
  intros [= <-]. exists names, cks. split; [done|]. split; [|done].
  assert (gathered os limit dir (sorted names) cks) as [Hok Hg].
  { revert Hf. apply (for_each_inv body (gathered os limit dir)).
    - split; [by intros ? ?%elem_of_nil|].
      intros ck. split; [by intros ?%not_elem_of_empty|].
      by intros (f & ?%elem_of_nil & _).
    - intros seen f s s' Hs _ Hb. by eapply gathered_step. }
  split.
  - intros f Hf'. apply Hok. by apply sorted_elem_of.
  - intros ck. rewrite (Hg ck). by setoid_rewrite sorted_elem_of.
Qed.

(** The scanner returns the keys that [scans] describes, in strictly
    increasing order. *)
Lemma list_cks_correct limit dir l :
  list_cks os limit dir = inr l →
  StronglySorted str_lt l ∧ ∀ ck, ck ∈ l ↔ scans os dir ck.
Proof.
  revert dir l. induction limit as [|limit IH]; intros dir l; [done|].
  intros (names & cks & Hl & [Hok Hg] & ->)%list_cks_unfold.
  split; [apply sorted_strict, NoDup_elements|].
  intros ck. rewrite sorted_elem_of, elem_of_elements, (Hg ck). split.
  - intros (f & Hf & [ [Hd Hk] | (Hd & sub & Hsub & Hck) ]).
    + by eapply scans_file.
    + eapply scans_sub; [done..|]. by apply (IH _ _ Hsub).
  - intros Hs. inversion Hs as [d ns f k Hl' Hf Hd Hk|d ns f k Hl' Hf Hd Hsub];
      subst; rewrite Hl in Hl'; injection Hl' as <-; exists f; (split; [done|]).
    + by left.
    + right. split; [done|]. destruct (Hok f Hf Hd) as [sub Hsub'].
      exists sub. split; [done|]. by apply (IH _ _ Hsub').
Qed.

(** On a tree that can be listed and is less than [limit] deep, the
    scanner returns. *)
Lemma list_cks_returns limit dir :
  walkable os limit dir → ∃ l, list_cks os limit dir = inr l.
Proof.
  induction 1 as [n dir names Hl _ IH]. simpl. rewrite Hl. simpl.
  match goal with |- context [for_each ?b _ _] => set (body := b) end.
  destruct (for_each_returns body (λ _, True) (sorted names) ∅ I) as (cks & -> & _);
    [|simpl; eauto].
  intros f s _ Hf. rewrite sorted_elem_of in Hf. subst body. cbv beta.
  destruct (isdir os (Path.join dir f)) eqn:Hd; [|eauto].
  destruct (IH f Hf Hd) as [sub ->]. simpl. eauto.
Qed.
End Scanner.

(** *** Facts on [posixpath] *)
Section PathFacts.
Import Path.
Implicit Types (p q a b d f : pystr) (c : ascii) (cs : list pystr).

Lemma split_on_nonempty c p : split_on c p ≠ [].
Proof. destruct p as [|x p]; simpl; [done|]. destruct (decide _); [done|]. by destruct (split_on c p). Qed.

Lemma split_on_absent c p : c ∉ p → split_on c p = [p].
Proof.
  induction p as [|x p IH]; simpl; [done|].
  intros [Hx Hp]%not_elem_of_cons. rewrite decide_False by done.
  by rewrite IH.
Qed.

Lemma split_on_app c a b :
  split_on c (a ++ c :: b) = split_on c a ++ split_on c b.
Proof.
  induction a as [|x a IH]; simpl.
  - by rewrite decide_True.
  - destruct (decide (x = c)); [by rewrite IH|].
    rewrite IH. pose proof (split_on_nonempty c a).
    by destruct (split_on c a).
Qed.

Lemma split_on_snoc_sep c a : split_on c (a ++ [c]) = split_on c a ++ [[]].
Proof. by rewrite split_on_app. Qed.

(** The components of a split have no separator. *)
Lemma split_on_no_sep c p w : w ∈ split_on c p → c ∉ w.
Proof.
  revert w. induction p as [|x p IH]; simpl; intros w.
  - intros ->%list_elem_of_singleton. apply not_elem_of_nil.
  - destruct (decide (x = c)).
    + intros [->|?]%elem_of_cons; [apply not_elem_of_nil|by apply IH].
    + pose proof (split_on_nonempty c p).
      destruct (split_on c p) as [|w0 ws]; [done|].
      intros [->|?]%elem_of_cons.
      * apply not_elem_of_cons. split; [done|]. apply IH. by left.
      * apply IH. by right.
Qed.

Lemma join_on_cons c w ws :
  ws ≠ [] → join_on c (w :: ws) = w ++ c :: join_on c ws.
Proof. by destruct ws. Qed.

Lemma split_on_join_on c ws :
  ws ≠ [] → Forall (λ w, c ∉ w) ws → split_on c (join_on c ws) = ws.
Proof.
  induction ws as [|w ws IH]; [done|]. intros _ [Hw Hws]%Forall_cons.
  destruct ws as [|w' ws].
  - simpl. by apply split_on_absent.
  - rewrite join_on_cons by done. rewrite split_on_app, IH by done.
    by rewrite split_on_absent.
Qed.

Lemma valid_name_no_lead f : valid_name f → startswith_sep f = false.
Proof.
  intros (Hne & Hs & _). destruct f as [|x f]; [done|]. simpl.
  apply bool_decide_eq_false. intros ->. apply Hs. by left.
Qed.

Lemma startswith_sep_app p q : p ≠ [] → startswith_sep (p ++ q) = startswith_sep p.
Proof. by destruct p. Qed.

Lemma endswith_sep_spec p : endswith_sep p = true ↔ ∃ p0, p = p0 ++ ["/"%char].
Proof.
  unfold endswith_sep. rewrite bool_decide_eq_true. split.
  - intros H. destruct (last_Some p "/"%char) as [[p0 ->] _]; eauto.
  - intros [p0 ->]. by rewrite last_snoc.
Qed.

Lemma endswith_sep_app p q : q ≠ [] → endswith_sep (p ++ q) = endswith_sep q.
Proof.
  intros Hq. unfold endswith_sep. destruct q as [|x q] using rev_ind; [done|].
  by rewrite app_assoc, !last_snoc.
Qed.

(** [join] when the second path is relative *)
Lemma join_rel a b :
  startswith_sep b = false →
  join a b = a ++ (if bool_decide (a = []) || endswith_sep a then b else "/"%char :: b).
Proof. intros Hb. unfold join. rewrite Hb. by destruct (_ || _). Qed.

Lemma join_nonempty a b : a ≠ [] → join a b ≠ [].
Proof.
  intros Ha. unfold join. destruct b as [|x b]; simpl.
  - destruct (_ || _); [by rewrite app_nil_r|by destruct a].
  - case_bool_decide; [done|]. destruct (_ || _); by destruct a.
Qed.

Lemma join_startswith a b :
  a ≠ [] → startswith_sep b = false → startswith_sep (join a b) = startswith_sep a.
Proof. intros Ha Hb. rewrite join_rel by done. by apply startswith_sep_app. Qed.

Lemma join_rel_ne a b :
  a ≠ [] → startswith_sep b = false →
  join a b = a ++ (if endswith_sep a then b else "/"%char :: b).
Proof.
  intros Ha Hb. rewrite join_rel by done.
  by rewrite (bool_decide_eq_false_2 (a = [])).
Qed.

Lemma join_nil_l b : join [] b = b.
Proof. unfold join. by destruct (startswith_sep b). Qed.

Lemma join_assoc a d f :
  d ≠ [] → startswith_sep d = false → startswith_sep f = false →
  join a (join d f) = join (join a d) f.
Proof.
  intros Hd Hd' Hf. destruct (decide (a = [])) as [->|Ha].
  { by rewrite !join_nil_l. }
  assert (startswith_sep (join d f) = false) as Hdf.
  { by rewrite join_startswith. }
  rewrite (join_rel_ne a (join d f)), (join_rel_ne a d) by done.
  rewrite (join_rel_ne d f) by done.
  destruct (endswith_sep a).
  - rewrite join_rel_ne; [|by destruct a|done].
    rewrite endswith_sep_app by done. by rewrite <- app_assoc.
  - rewrite join_rel_ne; [|by destruct a|done].
    rewrite (endswith_sep_app a ("/"%char :: d)) by done.
    change ("/"%char :: d) with (["/"%char] ++ d).
    rewrite (endswith_sep_app _ d) by done. by rewrite <- !app_assoc.
Qed.

(** *** [normpath] *)

Lemma norm_step_nil abs acc : norm_step abs acc [] = acc.
Proof. done. Qed.

Lemma norm_step_valid abs acc f : valid_name f → norm_step abs acc f = acc ++ [f].
Proof.
  intros (H1 & _ & H2 & H3). unfold norm_step.
  rewrite !bool_decide_eq_false_2 by done. simpl.
  by rewrite bool_decide_eq_true_2.
Qed.

Lemma fold_norm_nils abs acc k :
  fold_left (norm_step abs) (replicate k []) acc = acc.
Proof. induction k; simpl; [done|]. by rewrite norm_step_nil. Qed.


Lemma norm_comps_plain p : Forall plain_comp (norm_comps p).
Proof.
  unfold norm_comps.
  assert (∀ ws acc, Forall (λ w, "/"%char ∉ w) ws → Forall plain_comp acc →
            Forall plain_comp (fold_left (norm_step (startswith_sep p)) ws acc)) as H.
  { induction ws as [|w ws IH]; intros acc Hws Hacc; simpl; [done|].
    apply Forall_cons in Hws as [Hw Hws]. apply IH; [done|].
    unfold norm_step. case_bool_decide as H1; simpl; [done|].
    destruct (bool_decide (w = str ".")); simpl; [done|].
    destruct (_ || _).
    - apply Forall_app. split; [done|]. by repeat constructor.
    - destruct acc as [|a acc] using rev_ind; [done|].
      rewrite removelast_last. by apply Forall_app in Hacc as [? _]. }
  apply H; [|done]. apply Forall_forall. intros w. apply split_on_no_sep.
Qed.

(** Trailing slashes do not change the components. *)
Lemma split_on_trailing p k :
  split_on "/" (p ++ replicate k "/"%char) = split_on "/" p ++ replicate k [].
Proof.
  destruct k as [|k]; simpl; [by rewrite !app_nil_r|].
  rewrite split_on_app. f_equal.
  induction k as [|k IH]; simpl; [done|]. by rewrite IH.
Qed.

Lemma norm_comps_trailing p k :
  p ≠ [] → norm_comps (p ++ replicate k "/"%char) = norm_comps p.
Proof.
  intros Hp. unfold norm_comps.
  rewrite startswith_sep_app, split_on_trailing, fold_left_app by done.
  apply fold_norm_nils.
Qed.

Lemma norm_comps_join p f :
  p ≠ [] → valid_name f → norm_comps (join p f) = norm_comps p ++ [f].
Proof.
  intros Hp Hf. pose proof (valid_name_no_lead f Hf) as Hl.
  unfold norm_comps. rewrite join_startswith by done.
  rewrite join_rel_ne by done.
  destruct Hf as (Hf1 & Hf2 & Hf3 & Hf4).
  destruct (endswith_sep p) eqn:He.
  - apply endswith_sep_spec in He as [p0 ->].
    rewrite <- app_assoc. simpl. rewrite split_on_app, split_on_snoc_sep.
    rewrite !fold_left_app, split_on_absent by done. simpl.
    by rewrite norm_step_nil, norm_step_valid.
  - rewrite split_on_app, fold_left_app, split_on_absent by done. simpl.
    by rewrite norm_step_valid.
Qed.


Lemma absjoin_abs cwd p :
  startswith_sep cwd = true → startswith_sep (absjoin cwd p) = true.
Proof.
  intros Hc. unfold absjoin. destruct (startswith_sep p) eqn:Hp; [done|].
  rewrite join_rel by done. rewrite startswith_sep_app; [done|by destruct cwd].
Qed.

Lemma filter_split_join_on ws :
  Forall plain_comp ws →
  filter (λ x : pystr, x ≠ []) (split_on "/" (join_on "/" ws)) = ws.
Proof.
  intros Hws. destruct (decide (ws = [])) as [->|Hne]; [done|].
  rewrite split_on_join_on; [|done|].
  - induction Hws as [|w ws [Hw _] _ IH]; [done|].
    rewrite filter_cons_True by done. f_equal.
    destruct ws; [done|]. by apply IH.
  - eapply Forall_impl; [done|]. by intros ? [_ ?].
Qed.

Lemma path_list_abs cwd p :
  startswith_sep cwd = true → path_list cwd p = norm_comps (absjoin cwd p).
Proof.
  intros Hc. unfold path_list, abspath. fold (absjoin cwd p).
  pose proof (absjoin_abs cwd p Hc) as Ha.
  pose proof (norm_comps_plain (absjoin cwd p)) as Hpl.
  destruct (absjoin cwd p) as [|x q] eqn:Hq; [done|].
  simpl in Ha. apply bool_decide_eq_true in Ha as ->.
  set (ws := norm_comps ("/"%char :: q)) in *.
  assert (∀ r, r = str "/" ∨ r = str "//" →
            filter (λ x : pystr, x ≠ [])
              (split_on "/" (match r ++ join_on "/" ws with [] => str "." | t => t end))
            = ws) as H.
  { intros r [-> | ->]; simpl; rewrite ?decide_True by done;
      rewrite ?filter_cons_False by (by intros ?);
      by apply filter_split_join_on. }
  unfold normpath.
  destruct q as [|y q]; [apply H; by left|].
  destruct (decide (y = "/"%char)) as [->|Hy].
  - destruct q as [|z q]; [apply H; by right|].
    destruct (decide (z = "/"%char)) as [->|Hz]; [apply H; by left|].
    destruct z as [[] [] [] [] [] [] [] []]; try (apply H; by right); done.
  - destruct y as [[] [] [] [] [] [] [] []]; try (apply H; by left); done.
Qed.

(** *** [dirname] of a joined name *)

Lemma rfind1_absent c f : c ∉ f → rfind1 c f = 0%nat.
Proof.
  induction f as [|x f IH]; simpl; [done|].
  intros [Hx Hf]%not_elem_of_cons. rewrite IH by done. by rewrite decide_False.
Qed.

Lemma rfind1_app_absent c e f : c ∉ f → rfind1 c (e ++ f) = rfind1 c e.
Proof.
  intros Hf. induction e as [|x e IH]; simpl; [by apply rfind1_absent|].
  by rewrite IH.
Qed.

Lemma rfind1_snoc c e : rfind1 c (e ++ [c]) = S (length e).
Proof.
  induction e as [|x e IH]; simpl; [by rewrite decide_True|]. by rewrite IH.
Qed.

Lemma drop_while_split (g : ascii → bool) s :
  ∃ pre, s = pre ++ drop_while g s ∧ Forall (λ x, g x = true) pre.
Proof.
  induction s as [|x s (pre & IH1 & IH2)]; simpl; [by exists []|].
  destruct (g x) eqn:Hx; [|by exists []].
  exists (x :: pre). split; [simpl; by f_equal|by constructor].
Qed.

Lemma rstrip_sep_split e : ∃ k, rstrip_sep e ++ replicate k "/"%char = e.
Proof.
  unfold rstrip_sep, rdrop_while.
  destruct (drop_while_split (λ c, bool_decide (c = "/"%char)) (reverse e))
    as (pre & H1 & H2).
  exists (length pre). apply (f_equal reverse) in H1.
  rewrite reverse_involutive, reverse_app in H1. rewrite H1 at 2. f_equal.
  clear H1. induction pre as [|x pre IH] using rev_ind; [done|].
  apply Forall_app in H2 as [H2 [Hx%bool_decide_eq_true _]%Forall_cons].
  subst x. rewrite reverse_snoc, length_app. simpl.
  rewrite Nat.add_1_r. simpl. f_equal. by apply IH.
Qed.

Lemma not_all_sep_replicate k : not_all_sep (replicate k "/"%char) = false.
Proof. unfold not_all_sep. induction k; simpl in *; [done|]. done. Qed.

(** The directory of [join d f] is [d], up to trailing slashes. *)
Lemma dirname_join d f :
  d ≠ [] → valid_name f →
  dirname (join d f) ≠ [] ∧
  ∃ k j, dirname (join d f) ++ replicate k "/"%char = d ++ replicate j "/"%char.
Proof.
  intros Hd Hf. pose proof (valid_name_no_lead f Hf) as Hl.
  destruct Hf as (_ & Hf & _).
  assert (∃ e0 j, join d f = (e0 ++ ["/"%char]) ++ f ∧
                  e0 ++ ["/"%char] = d ++ replicate j "/"%char) as (e0 & j & Hj & He).
  { rewrite join_rel_ne by done. destruct (endswith_sep d) eqn:E.
    - apply endswith_sep_spec in E as [p0 ->]. exists p0, 0%nat.
      by rewrite app_nil_r.
    - exists d, 1%nat. split; [|done]. by rewrite <- app_assoc. }
  unfold dirname, split. rewrite Hj, rfind1_app_absent, rfind1_snoc by done.
  replace (S (length e0)) with (length (e0 ++ ["/"%char]))
    by (rewrite length_app; simpl; lia).
  rewrite take_app_length. cbn [fst].
  destruct (not_all_sep (e0 ++ ["/"%char])) eqn:Hn.
  - destruct (rstrip_sep_split (e0 ++ ["/"%char])) as [k Hk]. split.
    + intros H0. rewrite H0 in Hk. simpl in Hk. rewrite <- Hk in Hn.
      by rewrite not_all_sep_replicate in Hn.
    + exists k, j. by rewrite Hk.
  - split; [by destruct e0|]. exists 0%nat, j. by rewrite app_nil_r.
Qed.

Lemma absjoin_trailing cwd p k :
  p ≠ [] →
  absjoin cwd (p ++ replicate k "/"%char) = absjoin cwd p ++ replicate k "/"%char.
Proof.
  intros Hp. unfold absjoin. rewrite startswith_sep_app by done.
  destruct (startswith_sep p) eqn:E; [done|].
  rewrite !join_rel by (by rewrite ?startswith_sep_app).
  rewrite <- app_assoc. by destruct (_ || _).
Qed.

Lemma absjoin_nonempty cwd p : p ≠ [] → absjoin cwd p ≠ [].
Proof.
  intros Hp. unfold absjoin. destruct (startswith_sep p) eqn:E; [done|].
  rewrite join_rel by done. intros [_ H]%app_eq_nil. by destruct (_ || _).
Qed.

Lemma absjoin_join cwd d f :
  d ≠ [] → valid_name f → absjoin cwd (join d f) = join (absjoin cwd d) f.
Proof.
  intros Hd Hf. pose proof (valid_name_no_lead f Hf) as Hl.
  unfold absjoin. rewrite join_startswith by done.
  destruct (startswith_sep d) eqn:E; [done|]. by apply join_assoc.
Qed.

Lemma norm_absjoin_trailing cwd p k :
  p ≠ [] →
  norm_comps (absjoin cwd (p ++ replicate k "/"%char)) = norm_comps (absjoin cwd p).
Proof.
  intros Hp. rewrite absjoin_trailing by done.
  apply norm_comps_trailing. by apply absjoin_nonempty.
Qed.

Lemma path_list_dirname_join cwd d f :
  startswith_sep cwd = true → d ≠ [] → valid_name f →
  path_list cwd (dirname (join d f)) = path_list cwd d.
Proof.
  intros Hc Hd Hf. rewrite !path_list_abs by done.
  destruct (dirname_join d f Hd Hf) as (Hh & k & j & Hkj).
  rewrite <- (norm_absjoin_trailing cwd _ k) by done.
  rewrite Hkj. by apply norm_absjoin_trailing.
Qed.

Lemma path_list_join cwd d f :
  startswith_sep cwd = true → d ≠ [] → valid_name f →
  path_list cwd (join d f) = path_list cwd d ++ [f].
Proof.
  intros Hc Hd Hf. rewrite !path_list_abs by done.
  rewrite absjoin_join by done.
  apply norm_comps_join; [by apply absjoin_nonempty|done].
Qed.

(** *** [relpath] from the tag root *)

Lemma join_on_snoc c ws x :
  ws ≠ [] → join_on c (ws ++ [x]) = join_on c ws ++ c :: x.
Proof.
  induction ws as [|w ws IH]; [done|]. intros _.
  destruct ws as [|w' ws]; [done|].
  change ((w :: w' :: ws) ++ [x]) with (w :: ((w' :: ws) ++ [x])).
  rewrite join_on_cons by done. rewrite IH by done.
  rewrite (join_on_cons c w (w' :: ws)) by done. by rewrite <- app_assoc.
Qed.

Lemma join_on_valid ws :
  ws ≠ [] → Forall valid_name ws →
  join_on "/" ws ≠ [] ∧ endswith_sep (join_on "/" ws) = false.
Proof.
  intros Hne Hws. destruct ws as [|x ws] using rev_ind; [done|].
  apply Forall_app in Hws as [_ [(Hx1 & Hx2 & _) _]%Forall_cons].
  assert (x ≠ [] ∧ endswith_sep x = false) as [? Hex].
  { split; [done|]. apply not_true_iff_false.
    intros [p0 ->]%endswith_sep_spec. apply Hx2. set_solver. }
  destruct (decide (ws = [])) as [->|Hws']; [done|].
  rewrite join_on_snoc by done. split; [by destruct (join_on "/" ws)|].
  rewrite endswith_sep_app by done.
  change ("/"%char :: x) with (["/"%char] ++ x). by rewrite endswith_sep_app.
Qed.

Lemma fold_join_valid (w : pystr) cs :
  Forall valid_name (w :: cs) → fold_left join cs w = join_on "/" (w :: cs).
Proof.
  induction cs as [|x cs IH] using rev_ind; [done|].
  rewrite app_comm_cons. intros [Hcs [Hx _]%Forall_cons]%Forall_app.
  rewrite fold_left_app. cbn [fold_left]. rewrite IH by done.
  destruct (join_on_valid (w :: cs)) as [Hne He]; [done..|].
  rewrite join_rel_ne, He by (done || by apply valid_name_no_lead).
  symmetry. by apply (join_on_snoc _ (w :: cs)).
Qed.

Lemma tag_name_fold cs :
  Forall valid_name cs →
  match cs with [] => str "." | w :: cs' => fold_left join cs' w end = tag_name cs.
Proof. destruct cs as [|w cs]; [done|]. apply fold_join_valid. Qed.

Lemma subdir_snoc root cs f : subdir root (cs ++ [f]) = join (subdir root cs) f.
Proof. unfold subdir. by rewrite fold_left_app. Qed.

Lemma subdir_nonempty root cs : root ≠ [] → subdir root cs ≠ [].
Proof.
  intros Hr. induction cs as [|x cs IH] using rev_ind; [done|].
  rewrite subdir_snoc. by apply join_nonempty.
Qed.

Lemma path_list_subdir cwd root cs :
  startswith_sep cwd = true → root ≠ [] → Forall valid_name cs →
  path_list cwd (subdir root cs) = path_list cwd root ++ cs.
Proof.
  intros Hc Hr. induction cs as [|x cs IH] using rev_ind; intros Hcs.
  - by rewrite app_nil_r.
  - apply Forall_app in Hcs as [Hcs [Hx _]%Forall_cons].
    rewrite subdir_snoc, path_list_join by (done || by apply subdir_nonempty).
    by rewrite IH, app_assoc.
Qed.

Lemma commonprefix_app (l cs : list pystr) : commonprefix l (l ++ cs) = l.
Proof.
  induction l as [|x l IH]; simpl; [by destruct cs|].
  by rewrite decide_True, IH.
Qed.

(** The tag of a link: the directories between the root and the link. *)
Lemma relpath_subdir cwd root cs f :
  startswith_sep cwd = true → root ≠ [] → Forall valid_name cs → valid_name f →
  relpath cwd (dirname (join (subdir root cs) f)) root = inr (tag_name cs).
Proof.
  intros Hc Hr Hcs Hf. unfold relpath.
  destruct (dirname_join (subdir root cs) f) as [Hh _];
    [by apply subdir_nonempty|done|].
  rewrite bool_decide_eq_false_2 by done.
  rewrite path_list_dirname_join by (done || by apply subdir_nonempty).
  rewrite path_list_subdir by done.
  rewrite commonprefix_app, Nat.sub_diag, drop_app_length.
  cbn [replicate app]. destruct cs as [|w cs]; [done|].
  by rewrite fold_join_valid.
Qed.
End PathFacts.

Section SplitFacts.
Import Path.
Implicit Types (p q head tail : pystr) (c : ascii).

Lemma rfind1_spec c p :
  (rfind1 c p = 0%nat ∧ c ∉ p) ∨
  (∃ e0 f, p = e0 ++ c :: f ∧ c ∉ f ∧ rfind1 c p = S (length e0)).
Proof.
  induction p as [|x p [[H0 Hp]|(e0 & f & -> & Hf & Hr)]]; simpl.
  - left. split; [done|]. apply not_elem_of_nil.
  - rewrite H0. destruct (decide (x = c)) as [->|Hx].
    + right. by exists [], p.
    + left. split; [done|]. by apply not_elem_of_cons.
  - rewrite Hr. right. by exists (x :: e0), f.
Qed.

Lemma drop_while_hd (g : ascii → bool) s x :
  head (drop_while g s) = Some x → g x = false.
Proof.
  induction s as [|y s IH]; simpl; [done|].
  destruct (g y) eqn:E; [done|]. by intros [= <-].
Qed.

Lemma rstrip_sep_last p : last (rstrip_sep p) ≠ Some "/"%char.
Proof.
  unfold rstrip_sep, rdrop_while. rewrite last_reverse. intros H.
  apply drop_while_hd in H. by apply bool_decide_eq_false in H.
Qed.

Lemma not_all_sep_false p : not_all_sep p = false → p = replicate (length p) "/"%char.
Proof.
  unfold not_all_sep. rewrite negb_false_iff.
  induction p as [|x p IH]; simpl; [done|].
  intros [->%bool_decide_eq_true ?]%andb_true_iff. by rewrite <- IH.
Qed.

(** The two parts of [os.path.split(p)]: [p] is the head, slashes and
    the tail, and the tail holds no slash. *)
Lemma split_shape p head tail :
  split p = (head, tail) →
  "/"%char ∉ tail ∧
  (head = [] ∧ p = tail ∨
   (∃ j, head = replicate (S j) "/"%char) ∧ p = head ++ tail ∨
   head ≠ [] ∧ ∃ k, p = head ++ replicate (S k) "/"%char ++ tail).
Proof.
  unfold split.
  destruct (rfind1_spec "/" p) as [[-> Hp]|(e0 & f & -> & Hf & ->)].
  - rewrite take_0, drop_0. simpl. intros [= <- <-]. split; [done|by left].
  - replace (S (length e0)) with (length (e0 ++ ["/"%char]))
      by (rewrite length_app; simpl; lia).
    rewrite (cons_middle _ e0 f), app_assoc, take_app_length, drop_app_length.
    destruct (not_all_sep (e0 ++ ["/"%char])) eqn:Hn; intros [= <- <-];
      (split; [done|]); right.
    + right. destruct (rstrip_sep_split (e0 ++ ["/"%char])) as [k Hk].
      split.
      { intros H0. rewrite H0 in Hk. simpl in Hk. rewrite <- Hk in Hn.
        by rewrite not_all_sep_replicate in Hn. }
      destruct k as [|k].
      { exfalso. rewrite app_nil_r in Hk.
        apply (rstrip_sep_last (e0 ++ ["/"%char])). by rewrite Hk, last_snoc. }
      exists k. by rewrite app_assoc, Hk.
    + left. split; [|done]. apply not_all_sep_false in Hn.
      rewrite length_app, Nat.add_1_r in Hn. eauto.
Qed.

Lemma split_all_sep j head tail :
  split (replicate j "/"%char) = (head, tail) → tail = [].
Proof.
  intros (Ht & H)%split_shape.
  assert (∀ x, x ∈ tail → x = "/"%char) as Hall.
  { intros x Hx. assert (x ∈ replicate j "/"%char) as Hin.
    { destruct H as [[_ ->]|[[_ ->]|[_ [k ->]]]]; [done|set_solver..]. }
    by apply elem_of_replicate in Hin as [? _]. }
  destruct tail as [|x tail]; [done|]. exfalso. apply Ht.
  rewrite (Hall x); [by left|by left].
Qed.
End SplitFacts.

Section Splitext.
Import Path.
Implicit Types (p stem ext : pystr).

(** The two parts of [splitext] make up the name, and the extension is
    empty or starts at the last dot. *)
Lemma splitext_shape p stem ext :
  splitext p = (stem, ext) →
  p = stem ++ ext ∧
  (ext = [] ∨ ∃ e, ext = "."%char :: e ∧ "."%char ∉ e).
Proof.
  unfold splitext. destruct (_ && _) eqn:Hc.
  - intros [= <- <-]. split; [by rewrite take_drop|]. right.
    apply andb_true_iff in Hc as [Hlt%bool_decide_eq_true _].
    destruct (rfind1_spec "." p) as [[H0 _]|(e0 & f & -> & Hf & Hr)]; [lia|].
    rewrite Hr. cbn [Nat.sub]. rewrite Nat.sub_0_r, drop_app_length. eauto.
  - intros [= <- <-]. split; [by rewrite app_nil_r|by left].
Qed.
End Splitext.

Section Index.
Import Path.
Context (os : os_view).
Hypothesis Hnames : lists_names os.
Hypothesis Hcwd : startswith_sep (getcwd os) = true.

Implicit Types (m : gmap pystr (list pystr)) (links : list (list pystr * pystr)).

Lemma visit_link_pdfs root cs f v st :
  root ≠ [] → Forall valid_name cs → valid_name f →
  ∃ out, visit_link os root v (join (subdir root cs) f) f st
         = inr (Tagged (add_link (pdfs st) (cs, f)) out).
Proof.
  intros Hr Hcs Hf. unfold visit_link, add_link. cbn [fst snd].
  destruct (splitext f) as [ck ext].
  rewrite relpath_subdir by done. simpl.
  destruct (bool_decide (lower ext = str ".pdf")); eauto.
Qed.

Lemma helper_agrees limit root :
  root ≠ [] →
  ∀ cs v st, Forall valid_name cs →
    agree (find_tagged_pdfs_helper os limit root (subdir root cs) v st)
          (tag_links os limit root cs) (pdfs st).
Proof.
  intros Hr. induction limit as [|limit IH]; intros cs v st Hcs; [done|].
  simpl. destruct (listdir os (subdir root cs)) as [e|names] eqn:Hl; [done|].
  simpl. apply Hnames in Hl.
  match goal with |- agree (for_each ?b1 _ _) (for_each ?b2 _ _) _ =>
    set (body1 := b1); set (body2 := b2) end.
  assert (∀ acc st', pdfs st' = add_links acc (pdfs st) →
            agree (for_each body1 names st') (for_each body2 names acc) (pdfs st))
    as Hloop.
  { induction Hl as [|f names Hf _ IHn]; intros acc st' Hacc; [done|].
    simpl. subst body1 body2. cbv beta.
    destruct (isdir os (join (subdir root cs) f)) eqn:Hd.
    - assert (Forall valid_name (cs ++ [f])) as Hcf.
      { apply Forall_app. split; [done|by constructor]. }
      specialize (IH (cs ++ [f]) v st' Hcf). rewrite subdir_snoc in IH.
      unfold agree in IH.
      destruct (find_tagged_pdfs_helper os limit root _ v st') as [e1|t],
        (tag_links os limit root (cs ++ [f])) as [e2|sub]; simpl; try done.
      apply IHn. unfold add_links in *. by rewrite foldl_app, <- Hacc.
    - destruct (islink os (join (subdir root cs) f)) eqn:Hk.
      + destruct (visit_link_pdfs root cs f v st') as [out ->]; [done..|].
        simpl. apply IHn. cbn [pdfs]. unfold add_links in *.
        by rewrite foldl_app, <- Hacc.
      + simpl. by apply IHn. }
  by apply Hloop.
Qed.

Lemma tags_of_cons ck cs f links :
  tags_of ck ((cs, f) :: links) =
    (if bool_decide (lower (splitext f).2 = str ".pdf")
        && bool_decide ((splitext f).1 = ck)
     then [tag_name cs] else []) ++ tags_of ck links.
Proof.
  unfold tags_of. cbn [omap list_omap fst snd].
  destruct (splitext f) as [k ext]. cbn [fst snd].
  by destruct (_ && _).
Qed.

Lemma add_link_eq m cs f :
  add_link m (cs, f) =
    if bool_decide (lower (splitext f).2 = str ".pdf")
    then <[(splitext f).1 := default [] (m !! (splitext f).1) ++ [tag_name cs]]> m
    else m.
Proof. unfold add_link. cbn [fst snd]. by destruct (splitext f). Qed.

Lemma add_links_lookup links m ck :
  add_links links m !! ck =
    match tags_of ck links with
    | [] => m !! ck
    | ts => Some (default [] (m !! ck) ++ ts)
    end.
Proof.
  revert m. induction links as [|[cs f] links IH]; intros m; [reflexivity|].
  change (add_links ((cs, f) :: links) m)
    with (add_links links (add_link m (cs, f))).
  rewrite IH, tags_of_cons, add_link_eq.
  destruct (bool_decide (lower (splitext f).2 = str ".pdf")); [|done].
  case_bool_decide as Hk; cbn [andb app].
  - subst ck. rewrite lookup_insert_eq. cbn [default].
    destruct (tags_of _ links) as [|y ys]; [done|]. f_equal.
    by rewrite (app_assoc _ [tag_name cs] (y :: ys)) || rewrite <- (app_assoc _ [tag_name cs] (y :: ys)).
  - by rewrite lookup_insert_ne.
Qed.

(** The index: for each key the tags of its links, in the order of the
    traversal, and no key without a link. *)
Lemma find_tagged_pdfs_correct limit root v t :
  root ≠ [] →
  find_tagged_pdfs os limit root v = inr t →
  ∃ links,
    tag_links os limit root [] = inr links ∧
    ∀ ck, pdfs t !! ck =
            match tags_of ck links with [] => None | ts => Some ts end.
Proof.
  intros Hr Ht.
  pose proof (helper_agrees limit root Hr [] v (Tagged ∅ []) (Forall_nil_2 _)) as H.
  unfold find_tagged_pdfs in Ht. cbn [subdir fold_left] in H. rewrite Ht in H.
  unfold agree in H. destruct (tag_links os limit root []) as [e|links]; [done|].
  exists links. split; [done|]. intros ck. rewrite H.
  rewrite add_links_lookup. cbn [pdfs]. by rewrite lookup_empty.
Qed.

(** The index is built whenever the traversal ends. *)
Lemma find_tagged_pdfs_returns limit root v links :
  root ≠ [] →
  tag_links os limit root [] = inr links →
  ∃ t, find_tagged_pdfs os limit root v = inr t.
Proof.
  intros Hr Hl.
  pose proof (helper_agrees limit root Hr [] v (Tagged ∅ []) (Forall_nil_2 _)) as H.
  unfold find_tagged_pdfs. cbn [subdir fold_left] in H. rewrite Hl in H.
  unfold agree in H. destruct (find_tagged_pdfs_helper _ _ _ _ _ _); [done|eauto].
Qed.
End Index.

Section Untagged.
Import Path.
Context (os : os_view).

(** The loop of lines 103-109 over [cks], from the set [acc]. *)
Lemma untagged_loop (bib : pystr) (tagged_cks : gset pystr)
    (cks : list pystr) (acc : gset (pystr * pystr)) (p ck : pystr) :
  (p, ck) ∈ foldl (λ (untagged : gset (pystr * pystr)) ck,
              let filepath := join bib (ck ++ str ".pdf") in
              if path_exists os filepath then
                if bool_decide (ck ∉ tagged_cks) then untagged ∪ {[(filepath, ck)]}
                else untagged
              else untagged) acc cks
  ↔ (p, ck) ∈ acc ∨
    (ck ∈ cks ∧ p = join bib (ck ++ str ".pdf") ∧ path_exists os p = true ∧
     ck ∉ tagged_cks).
Proof.
  revert acc. induction cks as [|k cks IH]; intros acc; cbn [foldl].
  { split; [auto|]. intros [?|[?%elem_of_nil _]]; done. }
  rewrite IH. clear IH.
  destruct (path_exists os (join bib (k ++ str ".pdf"))) eqn:He;
    [case_bool_decide as Hk|].
  - rewrite elem_of_union, elem_of_singleton. split.
    + intros [[?|[= -> ->]]|(? & ? & ? & ?)]; [by left|right..].
      * split; [by left|done].
      * split; [by right|done].
    + intros [?|([->|?]%elem_of_cons & -> & ? & ?)]; [by left; left|..].
      * left; by right.
      * right. done.
  - split.
    + intros [?|(? & ? & ? & ?)]; [by left|right]. split; [by right|done].
    + intros [?|([->|?]%elem_of_cons & -> & ? & ?)]; [by left|done|by right].
  - split.
    + intros [?|(? & ? & ? & ?)]; [by left|right]. split; [by right|done].
    + intros [?|([->|?]%elem_of_cons & -> & ? & ?)]; [by left|congruence|by right].
Qed.

(** The untagged set: the keys of the scanner whose PDF exists and
    that the tag index does not hold. *)
Lemma find_untagged_pdfs_correct limit bib tags v u out :
  find_untagged_pdfs os limit bib tags v = inr (u, out) →
  ∃ cks t,
    list_cks os limit bib = inr cks ∧
    find_tagged_pdfs os limit tags v = inr t ∧
    ∀ p ck, (p, ck) ∈ u ↔
      p = join bib (ck ++ str ".pdf") ∧ ck ∈ cks ∧
      path_exists os p = true ∧ pdfs t !! ck = None.
Proof.
  unfold find_untagged_pdfs.
  destruct (find_tagged_pdfs os limit tags v) as [e|t]; simpl; [done|].
  destruct (list_cks os limit bib) as [e|cks]; simpl; [done|].
  intros [= <- _]. exists cks, t. repeat split; try done.
  - apply untagged_loop in H as [?%not_elem_of_empty|(? & ? & ? & ?)]; done.
  - apply untagged_loop in H as [?%not_elem_of_empty|(? & ? & ? & ?)]; done.
  - apply untagged_loop in H as [?%not_elem_of_empty|(? & ? & ? & ?)]; done.
  - apply untagged_loop in H as [?%not_elem_of_empty|(? & ? & ? & Hd)]; [done|].
    by apply not_elem_of_dom in Hd.
  - intros (-> & ? & ? & Hd). apply untagged_loop. right.
    repeat split; try done. by apply not_elem_of_dom.
Qed.

Lemma find_untagged_pdfs_returns limit bib tags v cks t :
  list_cks os limit bib = inr cks →
  find_tagged_pdfs os limit tags v = inr t →
  ∃ u out, find_untagged_pdfs os limit bib tags v = inr (u, out).
Proof.
  intros H1 H2. unfold find_untagged_pdfs. rewrite H1, H2. simpl. eauto.
Qed.
End Untagged.

(** *** Facts on the file system *)
Section FsFacts.
Import Path FS.
Context (root : node).
Implicit Types (cur rest real : list pystr) (c f : pystr) (n m : node).

Lemma walk_nil follow fuel cur :
  walk root follow fuel cur [] =
    match get root cur with
    | Some n => inr (Found cur n)
    | None => inl FileNotFoundError
    end.
Proof. by destruct fuel. Qed.

Lemma walk_cons follow fuel cur c rest :
  walk root follow fuel cur (c :: rest) =
    if bool_decide (c = []) || bool_decide (c = str ".")
    then walk root follow fuel cur rest
    else if bool_decide (c = str "..")
    then walk root follow fuel (removelast cur) rest
    else
      match get root (cur ++ [c]) with
      | None =>
          if forallb (λ x, bool_decide (x = [])) rest
          then inr (Missing cur c (negb (bool_decide (rest = []))))
          else inl FileNotFoundError
      | Some (Dir _) => walk root follow fuel (cur ++ [c]) rest
      | Some File =>
          if bool_decide (rest = []) then inr (Found (cur ++ [c]) File)
          else inl NotADirectoryError
      | Some (Symlink t) =>
          if bool_decide (rest = []) && negb follow
          then inr (Found (cur ++ [c]) (Symlink t))
          else
            match fuel with
            | O => inl OSError_ELOOP
            | S fuel' =>
                if bool_decide (t = []) then inl FileNotFoundError
                else walk root follow fuel'
                       (if startswith_sep t then [] else cur)
                       (split_on "/" t ++ rest)
            end
      end.
Proof. by destruct fuel. Qed.

Lemma find_entry_elem_of name es n :
  find_entry name es = Some n → (name, n) ∈ es.
Proof.
  induction es as [|[k m] es IH]; simpl; [done|].
  destruct (decide (k = name)) as [->|]; [intros [= ->]; by left|].
  intros ?. right. by apply IH.
Qed.

Lemma get_snoc n cur c :
  get n (cur ++ [c]) =
    match get n cur with
    | Some (Dir es) => find_entry c es
    | _ => None
    end.
Proof.
  revert n. induction cur as [|x cur IH]; intros n; simpl.
  - destruct n as [| |es]; try done. by destruct (find_entry c es).
  - destruct n as [| |es]; try done. destruct (find_entry x es); [apply IH|done].
Qed.

Lemma get_snoc_Some n cur c m :
  get n (cur ++ [c]) = Some m → ∃ es, get n cur = Some (Dir es).
Proof.
  rewrite get_snoc. destruct (get n cur) as [[| |es]|]; try done. eauto.
Qed.

Lemma get_removelast n cur es :
  get n cur = Some (Dir es) → ∃ es', get n (removelast cur) = Some (Dir es').
Proof.
  destruct cur as [|x cur] using rev_ind; [eauto|].
  rewrite removelast_last. intros H. by apply get_snoc_Some in H.
Qed.

(** An entry that is found is in the tree, at the place reported. *)
Lemma walk_found follow fuel cur rest real n :
  walk root follow fuel cur rest = inr (Found real n) → get root real = Some n.
Proof.
  revert cur rest. induction fuel as [|fuel IHf]; intros cur rest;
    revert cur; (induction rest as [|c rest IHr]; intros cur;
      [rewrite walk_nil; destruct (get root cur) eqn:E; [by intros [= <- <-]|done]
      |rewrite walk_cons]).
  all: destruct (_ || _); [by apply IHr|].
  all: destruct (bool_decide (c = str "..")); [by apply IHr|].
  all: destruct (get root (cur ++ [c])) as [[|t|es]|] eqn:E.
  all: try (destruct (bool_decide (rest = [])); [by intros [= <- <-]|done]).
  all: try (by apply IHr).
  all: try (by destruct (forallb _ rest)).
  - destruct (_ && _); [by intros [= <- <-]|done].
  - destruct (_ && _); [by intros [= <- <-]|].
    destruct (bool_decide (t = [])); [done|]. apply IHf.
Qed.
End FsFacts.

Section WfFacts.
Import Path FS.
Implicit Types (n m : node) (es : list (pystr * node)).

Lemma valid_nameb_spec f : valid_nameb f = true ↔ valid_name f.
Proof.
  unfold valid_nameb, valid_name, contains.
  rewrite !andb_true_iff, negb_true_iff, !bool_decide_eq_true, bool_decide_eq_false.
  naive_solver.
Qed.

Lemma wf_dir_names es : wf_node (Dir es) = true → Forall valid_name (map fst es).
Proof.
  simpl. rewrite forallb_forall. intros H. apply Forall_forall.
  intros f [[k m] [-> Hin]]%list_elem_of_fmap. simpl.
  apply list_elem_of_In, H, andb_true_iff in Hin as [?%valid_nameb_spec _]. done.
Qed.

Lemma wf_get n real m : wf_node n = true → get n real = Some m → wf_node m = true.
Proof.
  revert n. induction real as [|c real IH]; intros n Hn; simpl; [by intros [= <-]|].
  destruct n as [| |es]; try done.
  destruct (find_entry c es) as [m'|] eqn:E; [|done].
  apply IH. simpl in Hn. rewrite forallb_forall in Hn.
  apply find_entry_elem_of, list_elem_of_In, Hn, andb_true_iff in E as [_ ?]. done.
Qed.

(** On a well-formed tree [os.listdir] reports names. *)
Lemma wf_lists_names root : wf_node root = true → lists_names (os_of root).
Proof.
  intros Hwf d names. simpl. unfold listdir, stat.
  destruct (resolve root true d) as [e|[real n|]] eqn:E; simpl; try done.
  destruct n as [| |es]; try done. intros [= <-].
  apply wf_dir_names. apply (wf_get root real); [done|].
  unfold resolve in E. destruct (contains _ d); [done|].
  destruct (bool_decide (d = [])); [done|]. by apply walk_found in E.
Qed.
End WfFacts.

Section WalkPrefix.
Import Path FS.
Context (root : node).
Implicit Types (cur rest real P Q : list pystr) (c f : pystr) (n m : node).


Lemma at_dir_root cur : at_dir root cur → at_dir root [].
Proof.
  intros [es H]. unfold at_dir. destruct cur as [|x cur]; [eauto|].
  simpl in H |- *. destruct root as [| |es']; try done. eauto.
Qed.

Lemma at_dir_removelast cur : at_dir root cur → at_dir root (removelast cur).
Proof. intros [es H]. by eapply get_removelast. Qed.

Lemma at_dir_target cur t :
  at_dir root cur → at_dir root (if startswith_sep t then [] else cur).
Proof. intros H. destruct (startswith_sep t); [by eapply at_dir_root|done]. Qed.

Lemma walk_skip_nils follow fuel cur k es :
  get root cur = Some (Dir es) →
  walk root follow fuel cur (replicate k []) = inr (Found cur (Dir es)).
Proof.
  intros H. induction k as [|k IH]; simpl.
  - by rewrite walk_nil, H.
  - by rewrite walk_cons.
Qed.

(** A path that leads somewhere goes through directories: each proper
    prefix of its components leads to a directory. *)
Lemma walk_prefix follow fuel cur P Q real n :
  Q ≠ [] → at_dir root cur →
  walk root follow fuel cur (P ++ Q) = inr (Found real n) →
  ∃ cur' es, walk root true fuel cur P = inr (Found cur' (Dir es)).
Proof.
  intros HQ. revert cur P.
  induction fuel as [|fuel IHf]; intros cur P; revert cur;
    (induction P as [|x P IHP]; intros cur Hcur;
      [destruct Hcur as [es Hes]; rewrite walk_nil, Hes; eauto|]).
  all: rewrite <- app_comm_cons, !walk_cons.
  all: destruct (_ || _); [by apply IHP|].
  all: destruct (bool_decide (x = str ".."));
    [intros; by apply IHP; [apply at_dir_removelast|]|].
  all: destruct (get root (cur ++ [x])) as [[|t|es]|] eqn:E.
  all: try (rewrite (bool_decide_eq_false_2 (P ++ Q = []))
              by (intros [_ ?]%app_eq_nil; done); done).
  all: try (by destruct (forallb _ (P ++ Q))).
  all: try (intros; apply IHP; [by eexists|done]).
  rewrite (bool_decide_eq_false_2 (P ++ Q = []))
    by (intros [_ ?]%app_eq_nil; done).
  rewrite andb_false_r. simpl.
  destruct (bool_decide (t = [])); [done|].
  rewrite app_assoc. apply IHf. by apply at_dir_target.
Qed.

(** Slashes after a directory change nothing. *)
Lemma walk_trailing fuel cur P k cur' es :
  walk root true fuel cur P = inr (Found cur' (Dir es)) →
  walk root true fuel cur (P ++ replicate k []) = inr (Found cur' (Dir es)).
Proof.
  revert cur P.
  induction fuel as [|fuel IHf]; intros cur P; revert cur;
    (induction P as [|x P IHP]; intros cur;
      [rewrite walk_nil; destruct (get root cur) eqn:E; [|done];
       intros [= <- ->]; by apply walk_skip_nils|]).
  all: rewrite <- app_comm_cons, !walk_cons.
  all: destruct (_ || _); [by apply IHP|].
  all: destruct (bool_decide (x = str "..")); [by apply IHP|].
  all: destruct (get root (cur ++ [x])) as [[|t|es']|] eqn:E.
  all: try (destruct (bool_decide (P = [])); done).
  all: try (by destruct (forallb _ P)).
  all: try (by apply IHP).
  all: rewrite ?andb_false_r; try done.
  destruct (bool_decide (t = [])); [done|].
  rewrite app_assoc. apply IHf.
Qed.

(** What [stat] finds, [lstat] finds too, the last link apart. *)
Lemma walk_nofollow fuel cur P real n :
  walk root true fuel cur P = inr (Found real n) →
  ∃ real' n', walk root false fuel cur P = inr (Found real' n').
Proof.
  revert cur P.
  induction fuel as [|fuel IHf]; intros cur P; revert cur;
    (induction P as [|x P IHP]; intros cur;
      [rewrite !walk_nil; destruct (get root cur); [eauto|done]|]).
  all: rewrite !walk_cons.
  all: destruct (_ || _); [by apply IHP|].
  all: destruct (bool_decide (x = str "..")); [by apply IHP|].
  all: destruct (get root (cur ++ [x])) as [[|t|es']|] eqn:E.
  all: try (destruct (bool_decide (P = [])); [eauto|done]).
  all: try (by destruct (forallb _ P)).
  all: try (by apply IHP).
  all: rewrite ?andb_false_r, ?andb_true_r.
  all: destruct (bool_decide (P = [])); [eauto|]; try done.
  destruct (bool_decide (t = [])); [done|]. apply IHf.
Qed.
End WalkPrefix.

Section Existing.
Import Path FS.
Context (r : node).
Implicit Types (p d head tail : pystr).

Lemma contains_false c p : contains c p = false ↔ c ∉ p.
Proof. unfold contains. by rewrite bool_decide_eq_false. Qed.

(** What [os.stat] needs to find a directory. *)
Lemma isdir_walk d :
  isdir r d = true →
  "000"%char ∉ d ∧ d ≠ [] ∧
  ∃ real es, walk r true max_symlinks [] (split_on "/" d) = inr (Found real (Dir es)).
Proof.
  unfold isdir, stat, resolve. destruct (contains "000" d) eqn:Hc; [done|].
  case_bool_decide as Hd; [done|]. simpl.
  apply contains_false in Hc.
  destruct (walk r true max_symlinks [] (split_on "/" d))
    as [e|[real [| |es]|]] eqn:Hw; simpl; try done.
  intros _. eauto.
Qed.

Lemma walk_exists p real n :
  "000"%char ∉ p → p ≠ [] →
  walk r true max_symlinks [] (split_on "/" p) = inr (Found real n) →
  exists_ r p = true.
Proof.
  intros Hc%contains_false Hp Hw. unfold exists_, stat, resolve.
  by rewrite Hc, bool_decide_eq_false_2, Hw.
Qed.

Lemma walk_isdir p real es :
  "000"%char ∉ p → p ≠ [] →
  walk r true max_symlinks [] (split_on "/" p) = inr (Found real (Dir es)) →
  isdir r p = true.
Proof.
  intros Hc%contains_false Hp Hw. unfold isdir, stat, resolve.
  by rewrite Hc, bool_decide_eq_false_2, Hw.
Qed.

Lemma split_on_replicate k :
  split_on "/" (replicate k "/"%char) = replicate (S k) [].
Proof. induction k as [|k IH]; simpl; [done|]. by rewrite IH. Qed.

Lemma exists_slashes j : at_dir r [] → exists_ r (replicate (S j) "/"%char) = true.
Proof.
  intros [es Hes]. apply (walk_exists _ [] (Dir es)).
  - by intros [? _]%elem_of_replicate.
  - done.
  - rewrite split_on_replicate. by apply walk_skip_nils.
Qed.

(** The head of a path that leads to a directory exists. *)
Lemma head_exists d head tail real es :
  "000"%char ∉ d →
  walk r true max_symlinks [] (split_on "/" d) = inr (Found real (Dir es)) →
  (∃ q, d = head ++ q) →
  (∃ j, head = replicate (S j) "/"%char) ∨
    (head ≠ [] ∧ ∃ q, d = head ++ "/"%char :: q) →
  exists_ r head = true.
Proof.
  intros Hc Hw [q0 Hq0] H.
  assert (at_dir r []) as Hroot.
  { apply walk_found in Hw. eapply at_dir_root. by eexists. }
  destruct H as [[j ->]|[Hh [q Hq]]]; [by apply exists_slashes|].
  rewrite Hq, split_on_app in Hw.
  apply walk_prefix in Hw as (cur' & es' & Hw');
    [|apply split_on_nonempty|done].
  eapply walk_exists; [|done..]. intros Hin. apply Hc. rewrite Hq0. set_solver.
Qed.

(** The test of [makedirs] before it recurses fails on a directory that
    exists: its head, when it has one, exists. *)
Lemma makedirs_head_exists d :
  isdir r d = true →
  let '(head, tail) := split d in
  let '(head, tail) :=
    if bool_decide (tail = []) then split head else (head, tail) in
  bool_decide (head ≠ []) && bool_decide (tail ≠ []) && negb (exists_ r head)
  = false.
Proof.
  intros (Hc & Hd & real & es & Hw)%isdir_walk.
  destruct (split d) as [head tail] eqn:Hs.
  pose proof (split_shape _ _ _ Hs) as [Ht Hshape].
  case_bool_decide as Htail.
  - subst tail. destruct (split head) as [h2 t2] eqn:Hs2.
    pose proof (split_shape _ _ _ Hs2) as [Ht2 Hshape2].
    case_bool_decide as Hh2; [|done]. case_bool_decide as Ht2'; [|done].
    simpl. apply negb_false_iff.
    destruct Hshape as [[-> ->]|[[[j ->] _]|[Hh [k Hk]]]]; [done|..].
    { by apply split_all_sep in Hs2. }
    rewrite app_nil_r in Hk.
    apply (head_exists d h2 t2 real es); [done..| |].
    + destruct Hshape2 as [[-> _]|[[_ ->]|[_ [k2 ->]]]]; [done|..];
        rewrite Hk, <- ?app_assoc; eauto.
    + destruct Hshape2 as [[-> _]|[[? _]|[_ [k2 Hk2]]]]; [done|by left|right].
      split; [done|]. rewrite Hk, Hk2. simpl. rewrite <- !app_assoc. simpl. eauto.
  - case_bool_decide as Hh; [|done].
    rewrite (bool_decide_eq_true_2 (tail ≠ [])) by done. simpl.
    apply negb_false_iff.
    apply (head_exists d head tail real es); [done..| |].
    + destruct Hshape as [[-> _]|[[_ ->]|[_ [k ->]]]]; [done|eauto..].
    + destruct Hshape as [[-> _]|[[? _]|[_ [k Hk]]]]; [done|by left|right].
      split; [done|]. rewrite Hk. simpl. eauto.
Qed.
End Existing.

Section LinkFacts.
Import Path FS.
Context (r : node).
Implicit Types (p d f : pystr).

Lemma walk_root_dir follow fuel cur rest real n :
  walk r follow fuel cur rest = inr (Found real n) →
  (∃ c, c ∈ rest ∧ valid_name c) → at_dir r [].
Proof.
  revert cur. induction rest as [|x rest IH]; intros cur Hw [c [Hc Hv]].
  { by apply elem_of_nil in Hc. }
  rewrite walk_cons in Hw.
  destruct (bool_decide (x = []) || bool_decide (x = str ".")) eqn:E1.
  { apply (IH cur Hw). exists c. split; [|done].
    apply elem_of_cons in Hc as [->|?]; [|done]. destruct Hv as (? & _ & ? & _).
    apply orb_true_iff in E1 as [?%bool_decide_eq_true|?%bool_decide_eq_true]; done. }
  case_bool_decide as E2.
  { apply (IH _ Hw). exists c. split; [|done].
    apply elem_of_cons in Hc as [->|?]; [|done]. by destruct Hv as (? & _ & _ & ?). }
  destruct (get r (cur ++ [x])) as [m|] eqn:E; [|by destruct (forallb _ rest)].
  apply get_snoc_Some in E. by eapply at_dir_root.
Qed.

Lemma join_no_nul d f : "000"%char ∉ join d f → "000"%char ∉ f.
Proof.
  unfold join. destruct (startswith_sep f); [done|].
  destruct (_ || _); set_solver.
Qed.

Lemma join_no_nul_l d f :
  startswith_sep f = false → "000"%char ∉ join d f → "000"%char ∉ d.
Proof. intros Hf. rewrite join_rel by done. set_solver. Qed.

Lemma no_nul_join d f : "000"%char ∉ d → "000"%char ∉ f → "000"%char ∉ join d f.
Proof.
  intros Hd Hf. unfold join. destruct (startswith_sep f); [done|].
  destruct (_ || _); set_solver.
Qed.

Lemma lstat_resolve p n :
  lstat r p = inr n → ∃ real, resolve r false p = inr (Found real n).
Proof.
  unfold lstat. destruct (resolve r false p) as [e|[real m|]]; simpl; try done.
  intros [= ->]. eauto.
Qed.

Lemma resolve_walk follow p loc :
  resolve r follow p = inr loc →
  "000"%char ∉ p ∧ p ≠ [] ∧
  walk r follow max_symlinks [] (split_on "/" p) = inr loc.
Proof.
  unfold resolve. destruct (contains "000" p) eqn:Hc; [done|].
  case_bool_decide; [done|]. by apply contains_false in Hc.
Qed.

(** A link can only be where its directory is. *)
Lemma link_parent_isdir d f n :
  d ≠ [] → valid_name f → lstat r (join d f) = inr n → isdir r d = true.
Proof.
  intros Hd Hf [real (Hc & _ & Hw)%resolve_walk]%lstat_resolve.
  pose proof (valid_name_no_lead f Hf) as Hl.
  apply join_no_nul_l in Hc; [|done].
  pose proof Hf as (Hf1 & Hf2 & Hf3 & Hf4).
  assert (at_dir r []) as Hroot.
  { eapply walk_root_dir; [done|]. exists f. split; [|done].
    rewrite join_rel_ne by done.
    destruct (endswith_sep d) eqn:E.
    - apply endswith_sep_spec in E as [d0 ->]. rewrite <- app_assoc. simpl.
      rewrite split_on_app, (split_on_absent _ f) by done. set_solver.
    - rewrite split_on_app, (split_on_absent _ f) by done. set_solver. }
  rewrite join_rel_ne in Hw by done.
  destruct (endswith_sep d) eqn:E.
  - apply endswith_sep_spec in E as [d0 ->]. rewrite <- app_assoc in Hw.
    simpl in Hw. rewrite split_on_app, (split_on_absent _ f) in Hw by done.
    apply walk_prefix in Hw as (cur' & es & Hw); [|done..].
    apply (walk_trailing _ _ _ _ 1) in Hw. simpl in Hw.
    eapply walk_isdir; [done..|]. by rewrite split_on_snoc_sep.
  - rewrite split_on_app, (split_on_absent _ f) in Hw by done.
    apply walk_prefix in Hw as (cur' & es & Hw); [|done..].
    by eapply walk_isdir.
Qed.
End LinkFacts.

Section Mutator.
Import Path FS.
Import Sys.
Implicit Types (s : state) (d f : pystr).

Lemma sys_bind_ok {A B} (m : M A) (k : A → M B) s s' a :
  m s = (s', inr a) → bind m k s = k a s'.
Proof. unfold bind. by intros ->. Qed.

Lemma sys_bind_err {A B} (m : M A) (k : A → M B) s s' e :
  m s = (s', inl e) → bind m k s = (s', inl e).
Proof. unfold bind. by intros ->. Qed.

Lemma syscall_err g s e : g (root s) = inl e → syscall g s = (s, inl e).
Proof. unfold syscall. by intros ->. Qed.

Lemma syscall_ok g s r' :
  g (root s) = inr r' → syscall g s = (State r' (stdout s) (stderr s), inr tt).
Proof. unfold syscall. by intros ->. Qed.

(** [os.mkdir] on what exists *)
Lemma os_mkdir_exists d r :
  isdir r d = true → os_mkdir d r = inl FileExistsError.
Proof.
  intros (Hc & Hd & real & es & Hw)%isdir_walk.
  assert (∃ real' n',
            resolve r false (if not_all_sep d then rstrip_sep d else d)
              = inr (Found real' n')) as (real' & n' & Hr).
  { destruct (not_all_sep d) eqn:Hn.
    - destruct (rstrip_sep_split d) as [k Hk].
      assert (rstrip_sep d ≠ []) as Hne.
      { intros H0. rewrite H0 in Hk. simpl in Hk.
        by rewrite <- Hk, not_all_sep_replicate in Hn. }
      assert ("000"%char ∉ rstrip_sep d) as Hc'%contains_false.
      { intros H0. apply Hc. rewrite <- Hk. apply elem_of_app. by left. }
      assert (at_dir r []) as Hroot.
      { eapply at_dir_root. apply walk_found in Hw. by eexists. }
      rewrite <- Hk, split_on_trailing in Hw.
      assert (∃ cur' n, walk r true max_symlinks [] (split_on "/" (rstrip_sep d))
                          = inr (Found cur' n)) as (cur' & n & Hw').
      { destruct k as [|k]; [rewrite app_nil_r in Hw; eauto|].
        apply walk_prefix in Hw as (cur' & es' & Hw'); [eauto|done..]. }
      apply walk_nofollow in Hw' as (real' & n' & Hw').
      exists real', n'. unfold resolve.
      by rewrite Hc', bool_decide_eq_false_2.
    - apply walk_nofollow in Hw as (real' & n' & Hw).
      exists real', n'. unfold resolve. apply contains_false in Hc.
      by rewrite Hc, bool_decide_eq_false_2. }
  unfold os_mkdir. by rewrite Hr.
Qed.

(** [os.makedirs(d, exist_ok=True)] on a directory that exists: nothing
    is made and nothing is raised. *)
Lemma makedirs_existing fuel d s :
  isdir (root s) d = true → makedirs (S fuel) d s = (s, inr tt).
Proof.
  intros Hd. pose proof (makedirs_head_exists (root s) d Hd) as Hh.
  cbn [makedirs]. destruct (split d) as [head tail].
  destruct (if bool_decide (tail = []) then split head else (head, tail))
    as [head' tail'].
  unfold bind at 1. unfold query at 1. cbv beta iota. rewrite Hh.
  unfold bind at 1. unfold ret at 1. cbv beta iota.
  unfold try_except. rewrite (syscall_err _ _ FileExistsError)
    by by apply os_mkdir_exists.
  cbn [is_OSError]. unfold bind, query. by rewrite Hd.
Qed.

Lemma pdfname_valid ck : "/"%char ∉ ck → valid_name (ck ++ str ".pdf").
Proof.
  intros Hck. repeat split.
  - by destruct ck.
  - rewrite elem_of_app. intros [?|H]; [done|]. by vm_compute in H; set_solver.
  - intros H. apply (f_equal length) in H. rewrite length_app in H. simpl in H. lia.
  - intros H. apply (f_equal length) in H. rewrite length_app in H. simpl in H. lia.
Qed.

(** Tagging where the link exists: nothing is made or changed, and the
    answer is [False]. *)
Lemma tag_paper_existing s tag_dir bib ck tag n :
  tag_dir ≠ [] → "/"%char ∉ ck → "000"%char ∉ bib →
  lstat (root s) (join (join tag_dir tag) (ck ++ str ".pdf")) = inr n →
  tag_paper tag_dir bib ck tag s = (s, inr false).
Proof.
  intros Ht Hck Hbib Hl. pose proof (pdfname_valid ck Hck) as Hf.
  assert (join tag_dir tag ≠ []) as Hd by by apply join_nonempty.
  pose proof (link_parent_isdir _ _ _ _ Hd Hf Hl) as Hdir.
  unfold tag_paper, os_makedirs.
  erewrite sys_bind_ok by by apply makedirs_existing.
  unfold try_except. erewrite sys_bind_err; [by rewrite decide_True|].
  apply syscall_err. unfold os_symlink.
  destruct (lstat_resolve _ _ _ Hl) as [real Hres].
  pose proof (resolve_walk _ _ _ _ Hres) as (Hc & _).
  apply join_no_nul in Hc.
  pose proof (no_nul_join bib _ Hbib Hc) as Hc'. apply contains_false in Hc'.
  rewrite Hc', Hres. simpl. rewrite bool_decide_eq_false_2; [done|].
  intros H. apply (f_equal length) in H. unfold join in H.
  rewrite (valid_name_no_lead _ Hf) in H. destruct (_ || _);
    rewrite !length_app in H; simpl in H; rewrite ?length_app in H; simpl in H; lia.
Qed.
End Mutator.

Section NewEntry.
Import Path FS.
Context (name : pystr) (x : node).
Implicit Types (n m : node) (p dir cur rest : list pystr) (es : list (pystr * node)).

Lemma same_kind_refl n : same_kind n n.
Proof. by destruct n. Qed.

Lemma add_entry_kind n dir : same_kind n (add_entry name x n dir).
Proof. destruct n; try done. by destruct dir. Qed.

Lemma find_entry_app c es es' m :
  find_entry c es = Some m → find_entry c (es ++ es') = Some m.
Proof.
  induction es as [|[k n] es IH]; simpl; [done|]. by destruct (decide (k = c)).
Qed.

Lemma find_entry_app_None c es es' :
  find_entry c es = None → find_entry c (es ++ es') = find_entry c es'.
Proof.
  induction es as [|[k n] es IH]; simpl; [done|]. by destruct (decide (k = c)).
Qed.

Lemma find_entry_map c c0 (g : node → node) es :
  find_entry c (map (λ e, if decide (e.1 = c0) then (e.1, g e.2) else e) es) =
    (λ m, if decide (c = c0) then g m else m) <$> find_entry c es.
Proof.
  induction es as [|[k n] es IH]; simpl; [done|].
  destruct (decide (k = c0)) as [->|Hk]; simpl.
  - destruct (decide (c0 = c)) as [->|]; [|done]. simpl. by rewrite decide_True.
  - destruct (decide (k = c)) as [->|]; [|done]. simpl. by rewrite decide_False.
Qed.

Lemma add_entry_nil es : add_entry name x (Dir es) [] = Dir (es ++ [(name, x)]).
Proof. done. Qed.

Lemma add_entry_cons es c0 dir :
  add_entry name x (Dir es) (c0 :: dir) =
    Dir (map (λ e, if decide (e.1 = c0) then (e.1, add_entry name x e.2 dir) else e) es).
Proof. done. Qed.

Lemma get_cons es c p :
  get (Dir es) (c :: p) =
    match find_entry c es with Some m => get m p | None => None end.
Proof. done. Qed.

Lemma get_add_entry n dir p m :
  get n p = Some m → ∃ m', get (add_entry name x n dir) p = Some m' ∧ same_kind m m'.
Proof.
  revert n dir. induction p as [|c p IH]; intros n dir.
  { intros [= <-]. eexists. split; [done|]. apply add_entry_kind. }
  destruct n as [| |es]; try done. rewrite get_cons.
  destruct (find_entry c es) as [m1|] eqn:E; [|done]. intros Hg.
  destruct dir as [|c0 dir].
  - rewrite add_entry_nil, get_cons, (find_entry_app _ _ _ _ E).
    eauto using same_kind_refl.
  - rewrite add_entry_cons, get_cons, (find_entry_map c c0 (λ m, add_entry name x m dir)), E.
    cbn [fmap option_fmap option_map].
    destruct (decide (c = c0)); [by apply IH|eauto using same_kind_refl].
Qed.

Lemma get_add_entry_new n dir es :
  get n dir = Some (Dir es) → find_entry name es = None →
  get (add_entry name x n dir) (dir ++ [name]) = Some x.
Proof.
  revert n. induction dir as [|c dir IH]; intros n.
  - intros [= ->] Hn. rewrite add_entry_nil. cbn [app]. rewrite get_cons.
    rewrite find_entry_app_None by done. simpl. by rewrite decide_True.
  - destruct n as [| |es0]; try done. rewrite get_cons.
    destruct (find_entry c es0) as [m1|] eqn:E; [|done]. intros Hg Hn.
    rewrite add_entry_cons. cbn [app].
    rewrite get_cons, (find_entry_map c c (λ m, add_entry name x m dir)), E.
    cbn [fmap option_fmap option_map]. rewrite decide_True by done. by apply IH.
Qed.
End NewEntry.

Section NewLink.
Import Path FS.
Context (r : node) (name target : pystr) (dir : list pystr).
Implicit Types (cur rest : list pystr).

(** A name that was free leads to the link once it is made. *)
Lemma walk_new_link fuel cur rest :
  at_dir r cur →
  walk r false fuel cur rest = inr (Missing dir name false) →
  walk (add_entry name (Symlink target) r dir) false fuel cur rest
    = inr (Found (dir ++ [name]) (Symlink target)).
Proof.
  revert cur rest.
  induction fuel as [|fuel IHf]; intros cur rest; revert cur;
    (induction rest as [|c rest IHr]; intros cur Hcur;
      [rewrite walk_nil; by destruct (get r cur)|]).
  all: rewrite !walk_cons.
  all: destruct (_ || _); [by apply IHr|].
  all: destruct (bool_decide (c = str ".."));
    [intros; by apply IHr; [apply at_dir_removelast|]|].
  all: destruct (get r (cur ++ [c])) as [m|] eqn:E.
  all: try (destruct (get_add_entry name (Symlink target) r dir _ _ E)
              as (m' & -> & Hk); destruct m as [|t|es], m' as [|t'|es'];
            try done; simpl in Hk; subst).
  all: try (destruct (bool_decide (rest = [])); done).
  all: try (intros; apply IHr; [by eexists|done]).
  all: try (destruct (bool_decide (rest = []) && negb false); done).
  all: try (destruct (bool_decide (rest = []) && negb false); [done|];
            destruct (bool_decide (t' = [])); [done|];
            intros; apply IHf; [by apply at_dir_target|done]).
  all: destruct (forallb _ rest); [|done].
  all: case_bool_decide as Hr; [|done]; intros [= -> ->]; subst rest.
  all: destruct Hcur as [es Hes].
  all: rewrite get_snoc, Hes in E.
  all: rewrite (get_add_entry_new _ _ _ _ _ Hes E).
  all: done.
Qed.
End NewLink.

Section WalkSnoc.
Import Path FS.
Context (r : node).
Implicit Types (cur rest P : list pystr) (f : pystr).

(** One more name after a directory: the entry of that name, or the
    name free in the directory. *)
Lemma walk_snoc fuel cur P cur' es f :
  valid_name f →
  walk r true fuel cur P = inr (Found cur' (Dir es)) →
  walk r false fuel cur (P ++ [f]) =
    inr (match find_entry f es with
         | Some m => Found (cur' ++ [f]) m
         | None => Missing cur' f false
         end).
Proof.
  intros (Hf1 & _ & Hf2 & Hf3). revert cur P.
  induction fuel as [|fuel IHf]; intros cur P; revert cur;
    (induction P as [|x P IHP]; intros cur;
      [rewrite walk_nil; destruct (get r cur) as [n|] eqn:E; [|done];
       intros [= <- ->]; cbn [app]; rewrite walk_cons;
       rewrite !bool_decide_eq_false_2 by done; cbn [orb];
       rewrite get_snoc, E;
       destruct (find_entry f es) as [[| |]|] eqn:E2; try done;
       by rewrite walk_nil, get_snoc, E, E2|]).
  all: rewrite <- app_comm_cons, !walk_cons.
  all: destruct (_ || _); [by apply IHP|].
  all: destruct (bool_decide (x = str "..")); [by apply IHP|].
  all: destruct (get r (cur ++ [x])) as [[|t|es']|] eqn:E.
  all: try (destruct (bool_decide (P = [])); done).
  all: try (by destruct (forallb _ P)).
  all: try (by apply IHP).
  all: rewrite ?andb_false_r; try done.
  rewrite (bool_decide_eq_false_2 (P ++ [f] = [])) by by destruct P.
  cbn [andb]. destruct (bool_decide (t = [])); [done|].
  rewrite app_assoc. apply IHf.
Qed.
End WalkSnoc.

Section FreshLink.
Import Path FS.
Context (r : node).
Implicit Types (d f : pystr).

(** Where the name [f] in the directory [d] leads. *)
Lemma link_resolve d f :
  isdir r d = true → valid_name f → "000"%char ∉ f →
  ∃ cur' es,
    get r cur' = Some (Dir es) ∧
    resolve r false (join d f) =
      inr (match find_entry f es with
           | Some m => Found (cur' ++ [f]) m
           | None => Missing cur' f false
           end).
Proof.
  intros (Hc & Hd & cur' & es & Hw)%isdir_walk Hf Hcf.
  pose proof (valid_name_no_lead f Hf) as Hl.
  pose proof Hf as (_ & Hf2 & _).
  pose proof (walk_found _ _ _ _ _ _ _ Hw) as Hg.
  exists cur', es. split; [done|].
  assert (walk r false max_symlinks [] (split_on "/" (join d f)) =
            inr (match find_entry f es with
                 | Some m => Found (cur' ++ [f]) m
                 | None => Missing cur' f false
                 end)) as Hw'.
  { rewrite join_rel_ne by done. destruct (endswith_sep d) eqn:E.
    - apply endswith_sep_spec in E as [d0 ->]. rewrite <- app_assoc. cbn [app].
      rewrite split_on_app, (split_on_absent _ f) by done.
      apply walk_snoc; [done|]. rewrite split_on_snoc_sep in Hw.
      pose proof Hw as Hw0.
      apply walk_prefix in Hw0 as (cur2 & es2 & Hw2);
        [|done|eapply at_dir_root; by eexists].
      pose proof (walk_trailing _ _ _ _ 1 _ _ Hw2) as Hw3. cbn [replicate] in Hw3.
      rewrite Hw in Hw3. by injection Hw3 as <- <-.
    - rewrite split_on_app, (split_on_absent _ f) by done. by apply walk_snoc. }
  unfold resolve.
  assert ("000"%char ∉ join d f) as Hcj%contains_false by by apply no_nul_join.
  rewrite Hcj, bool_decide_eq_false_2; [done|]. by apply join_nonempty.
Qed.
End FreshLink.

Section Mutator2.
Import Path FS.
Import Sys.
Implicit Types (s : state) (d f : pystr).

Lemma pdf_target_ok bib ck :
  "/"%char ∉ ck → "000"%char ∉ bib → "000"%char ∉ ck →
  contains "000" (join bib (ck ++ str ".pdf")) = false ∧
  join bib (ck ++ str ".pdf") ≠ [].
Proof.
  intros Hck Hb Hc. pose proof (pdfname_valid ck Hck) as Hf. split.
  - apply contains_false, no_nul_join; [done|].
    rewrite elem_of_app. intros [?|H]; [done|]. vm_compute in H. set_solver.
  - rewrite join_rel by by apply valid_name_no_lead.
    intros [_ H]%app_eq_nil. destruct Hf as [Hf _]. by destruct (_ || _).
Qed.

(** The first call: the directory is there, the link is not. *)
Lemma tag_paper_fresh s s1 tag_dir bib ck tag :
  tag_dir ≠ [] → "/"%char ∉ ck → "000"%char ∉ bib →
  os_makedirs (join tag_dir tag) s = (s1, inr tt) →
  isdir (root s1) (join tag_dir tag) = true →
  lstat (root s1) (join (join tag_dir tag) (ck ++ str ".pdf"))
    = inl FileNotFoundError →
  ∃ r2,
    tag_paper tag_dir bib ck tag s = (State r2 (stdout s1) (stderr s1), inr true) ∧
    lstat r2 (join (join tag_dir tag) (ck ++ str ".pdf"))
      = inr (Symlink (join bib (ck ++ str ".pdf"))).
Proof.
  intros Ht Hck Hbib Hmk Hdir Hl. pose proof (pdfname_valid ck Hck) as Hf.
  set (d := join tag_dir tag) in *. set (f := ck ++ str ".pdf") in *.
  assert ("000"%char ∉ join d f) as Hcl.
  { unfold lstat, resolve in Hl. destruct (contains "000" (join d f)) eqn:E; [done|].
    by apply contains_false. }
  pose proof (join_no_nul _ _ Hcl) as Hcf.
  assert ("000"%char ∉ ck) as Hcck by (subst f; set_solver).
  destruct (link_resolve (root s1) d f Hdir Hf Hcf) as (cur' & es & Hg & Hres).
  destruct (find_entry f es) as [m|] eqn:Hfe.
  { unfold lstat in Hl. by rewrite Hres in Hl. }
  destruct (pdf_target_ok bib ck Hck Hbib Hcck) as [Htc Htn]. fold f in Htc, Htn.
  set (r2 := add_entry f (Symlink (join bib f)) (root s1) cur').
  assert (os_symlink (join bib f) (join d f) (root s1) = inr r2) as Hsym.
  { unfold os_symlink. rewrite Htc, Hres. simpl.
    by rewrite bool_decide_eq_false_2. }
  exists r2. split.
  - unfold tag_paper. fold d f. erewrite sys_bind_ok by exact Hmk.
    unfold try_except. erewrite sys_bind_ok by (by apply syscall_ok). done.
  - apply resolve_walk in Hres as (_ & Hne & Hw).
    apply (walk_new_link _ _ (join bib f)) in Hw; [|eapply at_dir_root; by eexists].
    unfold lstat, resolve. apply contains_false in Hcl. fold r2 in Hw.
    by rewrite Hcl, bool_decide_eq_false_2, Hw.
Qed.

(** A failure of [os.makedirs] leaves [tag_paper] as it is, without a
    message. *)
Lemma tag_paper_makedirs_error s s1 e tag_dir bib ck tag :
  os_makedirs (join tag_dir tag) s = (s1, inl e) →
  tag_paper tag_dir bib ck tag s = (s1, inl e).
Proof. intros H. unfold tag_paper. by erewrite sys_bind_err. Qed.

(** A failure of [os.symlink] other than [FileExistsError] is printed
    with the key and the tag, and raised again. *)
Lemma tag_paper_symlink_error s s1 e tag_dir bib ck tag :
  os_makedirs (join tag_dir tag) s = (s1, inr tt) →
  os_symlink (join bib (ck ++ str ".pdf"))
    (join (join tag_dir tag) (ck ++ str ".pdf")) (root s1) = inl e →
  e ≠ FileExistsError →
  tag_paper tag_dir bib ck tag s =
    (State (root s1)
       (stdout s1 ++ [[VStr (str "Unexpected error while tagging " ++ ck
                              ++ str " with '" ++ tag)]])
       (stderr s1 ++ [e]),
     inl e).
Proof.
  intros Hmk Hsym Hne. unfold tag_paper. erewrite sys_bind_ok by exact Hmk.
  unfold try_except. erewrite sys_bind_err by by apply syscall_err.
  by rewrite decide_False.
Qed.

(** [os.symlink] does not look the target up: two targets succeed or
    fail alike. *)
Lemma os_symlink_target_blind t1 t2 link r :
  t1 ≠ [] → t2 ≠ [] → "000"%char ∉ t1 → "000"%char ∉ t2 →
  match os_symlink t1 link r, os_symlink t2 link r with
  | inl e1, inl e2 => e1 = e2
  | inr _, inr _ => True
  | _, _ => False
  end.
Proof.
  intros H1 H2 Hc1%contains_false Hc2%contains_false. unfold os_symlink.
  rewrite Hc1, Hc2. destruct (resolve r false link) as [e|[real n|dir name [|]]];
    simpl; by rewrite ?bool_decide_eq_false_2.
Qed.

(** Untagging where [os.path.exists] says no: nothing is removed. *)
Lemma untag_paper_absent s tag_dir ck tag :
  exists_ (root s) (join (join tag_dir tag) (ck ++ str ".pdf")) = false →
  untag_paper tag_dir ck tag s = (s, inr false).
Proof. intros H. unfold untag_paper, bind, query. by rewrite H. Qed.
End Mutator2.

Section IndexExample.
Context (os : os_view).

Lemma helper_step limit root sub v st :
  find_tagged_pdfs_helper os (S limit) root sub v st =
    names ← listdir os sub;
    for_each
      (λ st relpath,
         if isdir os (Path.join sub relpath) then
           find_tagged_pdfs_helper os limit root (Path.join sub relpath) v st
         else if islink os (Path.join sub relpath) then
           visit_link os root v (Path.join sub relpath) relpath st
         else inr st)
      names st.
Proof. reflexivity. Qed.

(** A link [A.pdf] adds the tag of its directory to the list of [A]. *)
Lemma visit_link_pdf root v full tag st :
  Path.relpath (getcwd os) (Path.dirname full) root = inr tag →
  ∃ out,
    visit_link os root v full (str "A.pdf") st
      = inr (Tagged (<[str "A" := default [] (pdfs st !! str "A") ++ [tag]]>
                       (pdfs st)) out).
Proof.
  intros Hrel. unfold visit_link.
  change (Path.splitext (str "A.pdf")) with (str "A", str ".pdf").
  cbv beta iota. rewrite Hrel. cbn [mbind exn_bind]. eauto.
Qed.

(** The index of the tree of [ml/A.pdf] and [ml/nlp/A.pdf], for the two
    orders in which the entries of [ml] can be listed. *)
Lemma index_by_listing limit v names :
  listdir os (str "/tags") = inr [str "ml"] →
  listdir os (str "/tags/ml") = inr names →
  listdir os (str "/tags/ml/nlp") = inr [str "A.pdf"] →
  isdir os (str "/tags/ml") = true →
  isdir os (str "/tags/ml/nlp") = true →
  isdir os (str "/tags/ml/A.pdf") = false →
  isdir os (str "/tags/ml/nlp/A.pdf") = false →
  islink os (str "/tags/ml/A.pdf") = true →
  islink os (str "/tags/ml/nlp/A.pdf") = true →
  (names = [str "A.pdf"; str "nlp"] →
   (t ← find_tagged_pdfs os (S (S (S limit))) (str "/tags") v; inr (pdfs t))
     = inr {[ str "A" := [str "ml"; str "ml/nlp"] ]}) ∧
  (names = [str "nlp"; str "A.pdf"] →
   (t ← find_tagged_pdfs os (S (S (S limit))) (str "/tags") v; inr (pdfs t))
     = inr {[ str "A" := [str "ml/nlp"; str "ml"] ]}).
Proof.
  intros H1 H2 H3 D1 D2 D3 D4 L1 L2.
  assert (∀ st, ∃ out,
            visit_link os (str "/tags") v (str "/tags/ml/A.pdf") (str "A.pdf") st
              = inr (Tagged (<[str "A" := default [] (pdfs st !! str "A")
                                            ++ [str "ml"]]> (pdfs st)) out)) as V1.
  { intros st. by apply visit_link_pdf. }
  assert (∀ st, ∃ out,
            visit_link os (str "/tags") v (str "/tags/ml/nlp/A.pdf") (str "A.pdf") st
              = inr (Tagged (<[str "A" := default [] (pdfs st !! str "A")
                                            ++ [str "ml/nlp"]]> (pdfs st)) out)) as V2.
  { intros st. by apply visit_link_pdf. }
  assert (∀ st, find_tagged_pdfs_helper os (S limit) (str "/tags")
                  (str "/tags/ml/nlp") v st
                = visit_link os (str "/tags") v (str "/tags/ml/nlp/A.pdf")
                    (str "A.pdf") st) as Hnlp.
  { intros st. rewrite helper_step, H3. cbn [mbind exn_bind for_each].
    change (Path.join (str "/tags/ml/nlp") (str "A.pdf"))
      with (str "/tags/ml/nlp/A.pdf").
    rewrite D4, L2. by destruct (visit_link _ _ _ _ _ _). }
  unfold find_tagged_pdfs. rewrite helper_step, H1.
  cbn [mbind exn_bind for_each].
  change (Path.join (str "/tags") (str "ml")) with (str "/tags/ml").
  rewrite D1, helper_step, H2.
  split; intros ->; cbn [mbind exn_bind for_each];
    change (Path.join (str "/tags/ml") (str "A.pdf")) with (str "/tags/ml/A.pdf");
    change (Path.join (str "/tags/ml") (str "nlp")) with (str "/tags/ml/nlp");
    rewrite D3, L1, D2.
  - destruct (V1 (Tagged ∅ [])) as [o1 ->]. cbn [mbind exn_bind].
    rewrite Hnlp.
    destruct (V2 (Tagged (<[str "A" := default [] (pdfs (Tagged ∅ []) !! str "A")
                                          ++ [str "ml"]]> (pdfs (Tagged ∅ []))) o1))
      as [o2 ->].
    cbn [mbind exn_bind pdfs]. f_equal.
  - rewrite Hnlp. destruct (V2 (Tagged ∅ [])) as [o1 ->]. cbn [mbind exn_bind].
    destruct (V1 (Tagged (<[str "A" := default [] (pdfs (Tagged ∅ []) !! str "A")
                                          ++ [str "ml/nlp"]]> (pdfs (Tagged ∅ []))) o1))
      as [o2 ->].
    cbn [mbind exn_bind pdfs]. f_equal.
Qed.
End IndexExample.

(** * The claims *)

(** C1. On the title [{T], and on [T}], the canonicalizer stores the title
    as it is and reports no change: line 207 wraps a title only when it
    neither starts with an opening brace nor ends with a closing one. *)
Theorem C1_title_with_one_brace_is_kept :
  Bib.canonicalize_bibtex (str "X") 0
      (Bib.State [record (str "X") (str "A") (str "{T")] [])
    = (Bib.State [record (str "X") (str "A") (str "{T")] [], inr false) ∧
  Bib.canonicalize_bibtex (str "X") 0
      (Bib.State [record (str "X") (str "A") (str "T}")] [])
    = (Bib.State [record (str "X") (str "A") (str "T}")] [], inr false).
Proof. split; vm_compute; reflexivity. Qed.

(** C2. Where [/tags/ml/A.pdf] is a link whose target is missing,
    [untag_paper] answers [False] and leaves the link in place. *)
Theorem C2_untag_keeps_dangling_link :
  FS.islink dangling_fs (str "/tags/ml/A.pdf") = true ∧
  FS.exists_ dangling_fs (str "/tags/ml/A.pdf") = false ∧
  Sys.untag_paper (str "/tags") (str "A") (str "ml") (Sys.State dangling_fs [] [])
    = (Sys.State dangling_fs [] [], inr false).
Proof. repeat split; vm_compute; reflexivity. Qed.

(** C3. With no [/bib/A.pdf], tagging [A] with [ml] makes the link,
    untagging answers [False] and removes nothing, and the index still
    holds [A] under [ml]. *)
Theorem C3_tag_then_untag_dangling :
  Sys.tag_paper (str "/tags") (str "/bib") (str "A") (str "ml")
      (Sys.State empty_tags_fs [] [])
    = (Sys.State dangling_fs [] [], inr true) ∧
  Sys.untag_paper (str "/tags") (str "A") (str "ml") (Sys.State dangling_fs [] [])
    = (Sys.State dangling_fs [] [], inr false) ∧
  (t ← find_tagged_pdfs (os_of dangling_fs) 3 (str "/tags") 0;
   inr (pdfs t !! str "A")) = inr (Some [str "ml"]).
Proof. repeat split; vm_compute; reflexivity. Qed.

(** C4, as stated, fails: with no [/bib/A.pdf] the call makes the link and
    answers [True]; and where the tag's path is a file, the error of
    [os.makedirs] is raised with nothing printed. *)
Lemma C4_missing_target_is_no_failure :
  FS.exists_ empty_tags_fs (str "/bib/A.pdf") = false ∧
  Sys.tag_paper (str "/tags") (str "/bib") (str "A") (str "ml")
      (Sys.State empty_tags_fs [] [])
    = (Sys.State dangling_fs [] [], inr true) ∧
  Sys.tag_paper (str "/tags") (str "/bib") (str "A") (str "ml")
      (Sys.State file_tag_fs [] [])
    = (Sys.State file_tag_fs [] [], inl FileExistsError).
Proof. repeat split; vm_compute; reflexivity. Qed.

(** C4, amended. A failure of [os.makedirs] is raised as it is; a failure
    of [os.symlink] other than [FileExistsError] is raised again after the
    message that names the key and the tag and after the traceback; and
    where the tag directory is there and the link is not, the link is made
    and [True] returned though the target does not exist. *)
Theorem C4_tag_paper_failures :
  (∀ s s1 e tag_dir bib ck tag,
     Sys.os_makedirs (Path.join tag_dir tag) s = (s1, inl e) →
     Sys.tag_paper tag_dir bib ck tag s = (s1, inl e)) ∧
  (∀ s s1 e tag_dir bib ck tag,
     Sys.os_makedirs (Path.join tag_dir tag) s = (s1, inr tt) →
     Sys.os_symlink (ck_to_pdf bib ck) (link_path tag_dir tag ck) (Sys.root s1)
       = inl e →
     e ≠ FileExistsError →
     Sys.tag_paper tag_dir bib ck tag s =
       (Sys.State (Sys.root s1)
          (Sys.stdout s1 ++ [[VStr (str "Unexpected error while tagging " ++ ck
                                      ++ str " with '" ++ tag)]])
          (Sys.stderr s1 ++ [e]),
        inl e)) ∧
  (∀ s s1 tag_dir bib ck tag,
     tag_dir ≠ [] → "/"%char ∉ ck → "000"%char ∉ bib →
     Sys.os_makedirs (Path.join tag_dir tag) s = (s1, inr tt) →
     FS.isdir (Sys.root s1) (Path.join tag_dir tag) = true →
     FS.lstat (Sys.root s1) (link_path tag_dir tag ck) = inl FileNotFoundError →
     FS.exists_ (Sys.root s1) (ck_to_pdf bib ck) = false →
     ∃ r2,
       Sys.tag_paper tag_dir bib ck tag s
         = (Sys.State r2 (Sys.stdout s1) (Sys.stderr s1), inr true) ∧
       FS.lstat r2 (link_path tag_dir tag ck) = inr (FS.Symlink (ck_to_pdf bib ck))).
Proof.
  split; [|split].
  - intros. by apply tag_paper_makedirs_error.
  - intros. by apply tag_paper_symlink_error.
  - intros s s1 tag_dir bib ck tag ? ? ? ? ? ? _. by apply tag_paper_fresh.
Qed.

Lemma C4_tag_paper_failures_witness :
  Sys.tag_paper (str "/tags") (str "/bib") (str "A") (str "ml")
      (Sys.State file_tag_fs [] [])
    = (Sys.State file_tag_fs [] [], inl FileExistsError) ∧
  Sys.tag_paper (str "/tags") (str "/bib") (str "x/A") (str "ml")
      (Sys.State dangling_fs [] [])
    = (Sys.State dangling_fs
         [[VStr (str "Unexpected error while tagging x/A with 'ml")]]
         [FileNotFoundError],
       inl FileNotFoundError) ∧
  ∃ r2,
    Sys.tag_paper (str "/tags") (str "/bib") (str "A") (str "ml")
        (Sys.State empty_tags_fs [] [])
      = (Sys.State r2 [] [], inr true) ∧
    FS.lstat r2 (str "/tags/ml/A.pdf") = inr (FS.Symlink (str "/bib/A.pdf")).
Proof.
  destruct C4_tag_paper_failures as (H1 & H2 & H3). split; [|split].
  - apply H1. vm_compute. reflexivity.
  - apply (H2 (Sys.State dangling_fs [] []) (Sys.State dangling_fs [] [])).
    + vm_compute. reflexivity.
    + vm_compute. reflexivity.
    + discriminate.
  - apply (H3 (Sys.State empty_tags_fs [] [])
              (Sys.State (FS.Dir [(str "bib", FS.Dir []);
                               (str "tags", FS.Dir [(str "ml", FS.Dir [])])]) [] [])
              (str "/tags") (str "/bib") (str "A") (str "ml")).
    + discriminate.
    + apply contains_false. vm_compute. reflexivity.
    + apply contains_false. vm_compute. reflexivity.
    + vm_compute. reflexivity.
    + vm_compute. reflexivity.
    + vm_compute. reflexivity.
    + vm_compute. reflexivity.
Defined.

(** C5. On the record [{ID: Y, author: A\nB, title: T}] the canonicalizer
    for the key [X] answers [True] and leaves [{ID: X, author: A B,
    title: {T}}]; on that record it answers [False] and changes nothing;
    and after any run that returns, a second run changes no field, prints
    nothing and answers [False]. *)
Theorem C5_canonicalize_idempotent :
  (Bib.canonicalize_bibtex (str "X") 0 (Bib.State [record_Y] [])
     = (Bib.State [record_X] [], inr true) ∧
   Bib.canonicalize_bibtex (str "X") 0 (Bib.State [record_X] [])
     = (Bib.State [record_X] [], inr false)) ∧
  ∀ ck v v' s s' b,
    Bib.canonicalize_bibtex ck v s = (s', inr b) →
    Bib.canonicalize_bibtex ck v' s' = (s', inr false).
Proof.
  split; [split; vm_compute; reflexivity|]. apply canonicalize_twice.
Qed.

Lemma C5_canonicalize_idempotent_witness :
  Bib.canonicalize_bibtex (str "X") 2 (Bib.State [record_Y] [])
    = (Bib.State [record_X]
         [[VStr (str "X: Replaced unexpected 'Y' CK in .bib file. Fixing...")];
          [VStr (str "X: Stripped author name(s): A B")];
          [VStr (str "X: Added brackets to title: {T}")]],
       inr true) ∧
  Bib.canonicalize_bibtex (str "X") 2
      (Bib.State [record_X]
         [[VStr (str "X: Replaced unexpected 'Y' CK in .bib file. Fixing...")];
          [VStr (str "X: Stripped author name(s): A B")];
          [VStr (str "X: Added brackets to title: {T}")]])
    = (Bib.State [record_X]
         [[VStr (str "X: Replaced unexpected 'Y' CK in .bib file. Fixing...")];
          [VStr (str "X: Stripped author name(s): A B")];
          [VStr (str "X: Added brackets to title: {T}")]],
       inr false).
Proof.
  assert (Bib.canonicalize_bibtex (str "X") 2 (Bib.State [record_Y] [])
    = (Bib.State [record_X]
         [[VStr (str "X: Replaced unexpected 'Y' CK in .bib file. Fixing...")];
          [VStr (str "X: Stripped author name(s): A B")];
          [VStr (str "X: Added brackets to title: {T}")]],
       inr true)) as H by (vm_compute; reflexivity).
  split; [exact H|].
  exact (proj2 C5_canonicalize_idempotent (str "X") 2 2 _ _ _ H).
Defined.

(** C6. Where the link is there, [tag_paper] answers [False] and leaves
    the state, and so the tag index, as they were; where the tag
    directory is there and the link is not, it answers [True], and a
    second call answers [False] and changes nothing.  The key holds no
    slash, the tag root is not the empty path, and the bibliography
    directory holds no NUL. *)
Theorem C6_tag_paper_idempotent :
  (∀ s tag_dir bib ck tag n,
     tag_dir ≠ [] → "/"%char ∉ ck → "000"%char ∉ bib →
     FS.lstat (Sys.root s) (link_path tag_dir tag ck) = inr n →
     Sys.tag_paper tag_dir bib ck tag s = (s, inr false) ∧
     ∀ limit v,
       find_tagged_pdfs
         (os_of (Sys.root (Sys.tag_paper tag_dir bib ck tag s).1)) limit tag_dir v
       = find_tagged_pdfs (os_of (Sys.root s)) limit tag_dir v) ∧
  (∀ s s1 tag_dir bib ck tag,
     tag_dir ≠ [] → "/"%char ∉ ck → "000"%char ∉ bib →
     Sys.os_makedirs (Path.join tag_dir tag) s = (s1, inr tt) →
     FS.isdir (Sys.root s1) (Path.join tag_dir tag) = true →
     FS.lstat (Sys.root s1) (link_path tag_dir tag ck) = inl FileNotFoundError →
     ∃ s2,
       Sys.tag_paper tag_dir bib ck tag s = (s2, inr true) ∧
       Sys.tag_paper tag_dir bib ck tag s2 = (s2, inr false)).
Proof.
  split.
  - intros s tag_dir bib ck tag n Ht Hck Hbib Hl.
    pose proof (tag_paper_existing s tag_dir bib ck tag n Ht Hck Hbib Hl) as H.
    split; [done|]. intros. by rewrite H.
  - intros s s1 tag_dir bib ck tag Ht Hck Hbib Hmk Hd Hl.
    destruct (tag_paper_fresh s s1 tag_dir bib ck tag Ht Hck Hbib Hmk Hd Hl)
      as (r2 & H1 & H2).
    eexists. split; [exact H1|]. by eapply tag_paper_existing.
Qed.

Lemma C6_tag_paper_idempotent_witness :
  Sys.tag_paper (str "/tags") (str "/bib") (str "A") (str "ml")
      (Sys.State dangling_fs [] [])
    = (Sys.State dangling_fs [] [], inr false) ∧
  ∃ s2,
    Sys.tag_paper (str "/tags") (str "/bib") (str "A") (str "ml")
        (Sys.State empty_tags_fs [] []) = (s2, inr true) ∧
    Sys.tag_paper (str "/tags") (str "/bib") (str "A") (str "ml") s2
      = (s2, inr false).
Proof.
  destruct C6_tag_paper_idempotent as (H1 & H2). split.
  - apply (H1 (Sys.State dangling_fs [] []) (str "/tags") (str "/bib") (str "A")
              (str "ml") (FS.Symlink (str "/bib/A.pdf"))).
    + discriminate.
    + apply contains_false. vm_compute. reflexivity.
    + apply contains_false. vm_compute. reflexivity.
    + vm_compute. reflexivity.
  - apply (H2 (Sys.State empty_tags_fs [] [])
              (Sys.State (FS.Dir [(str "bib", FS.Dir []);
                               (str "tags", FS.Dir [(str "ml", FS.Dir [])])]) [] [])).
    + discriminate.
    + apply contains_false. vm_compute. reflexivity.
    + apply contains_false. vm_compute. reflexivity.
    + vm_compute. reflexivity.
    + vm_compute. reflexivity.
    + vm_compute. reflexivity.
Defined.

(** C7. On a tree that can be listed within the limit, the scanner
    returns the keys of the entries that are not directories, whose stem
    holds no dot and whose extension is [.pdf] or [.bib] up to case, at
    any depth, in strictly increasing order (so without duplicates, and
    in the one order such a list can have); the stem and the extension
    make up the name, the extension from the last dot on; and the
    directory of [CMT12.pdf], [CMT12.bib] and [CMT12.slides.pdf] yields
    the one key [CMT12]. *)
Theorem C7_scanner_spec :
  (∀ os limit dir,
     walkable os limit dir →
     ∃ l, list_cks os limit dir = inr l ∧ StronglySorted str_lt l ∧
          ∀ ck, ck ∈ l ↔ scans os dir ck) ∧
  (∀ l1 l2 : list pystr,
     StronglySorted str_lt l1 → StronglySorted str_lt l2 →
     (∀ ck, ck ∈ l1 ↔ ck ∈ l2) → l1 = l2) ∧
  (∀ f stem ext,
     Path.splitext f = (stem, ext) →
     f = stem ++ ext ∧ (ext = [] ∨ ∃ e, ext = "."%char :: e ∧ "."%char ∉ e)) ∧
  list_cks (os_of cmt12_fs) 1 (str "bib") = inr [str "CMT12"].
Proof.
  split; [|split; [|split]].
  - intros os limit dir [l Hl]%list_cks_returns. exists l. split; [done|].
    by apply list_cks_correct in Hl.
  - apply strict_sorted_unique.
  - apply splitext_shape.
  - vm_compute. reflexivity.
Qed.

Lemma C7_scanner_spec_witness :
  ∃ l, list_cks (os_of cmt12_fs) 1 (str "bib") = inr l ∧
       StronglySorted str_lt l ∧
       ∀ ck, ck ∈ l ↔ scans (os_of cmt12_fs) (str "bib") ck.
Proof.
  apply (proj1 C7_scanner_spec).
  apply (walkable_dir _ 0 (str "bib")
           [str "CMT12.pdf"; str "CMT12.bib"; str "CMT12.slides.pdf"]).
  - vm_compute. reflexivity.
  - intros f Hf Hd. exfalso. revert Hd.
    repeat (apply elem_of_cons in Hf as [->|Hf]; [vm_compute; discriminate|]).
    by apply elem_of_nil in Hf.
Defined.

(** C8. When the scanner and the tag index return, so does
    [find_untagged_pdfs], and a pair is in its result exactly when it is
    the PDF path of a key and the key, the key is one the scanner
    returns, [os.path.exists] holds of the path and the key is not a key
    of the index; so a key whose PDF does not exist is never reported;
    and on [{A.pdf, B.pdf, B.bib}] with [A] linked under [x] the result is
    the one pair of [B]. *)
Theorem C8_untagged_spec :
  (∀ os limit bib tags v cks t,
     list_cks os limit bib = inr cks →
     find_tagged_pdfs os limit tags v = inr t →
     ∃ u out,
       find_untagged_pdfs os limit bib tags v = inr (u, out) ∧
       (∀ p ck, (p, ck) ∈ u ↔
          p = ck_to_pdf bib ck ∧ ck ∈ cks ∧ path_exists os p = true ∧
          pdfs t !! ck = None) ∧
       (∀ p ck, path_exists os (ck_to_pdf bib ck) = false → (p, ck) ∉ u)) ∧
  (r ← find_untagged_pdfs (os_of untagged_fs) 2 (str "/bib") (str "/tags") 0;
   inr r.1) = inr {[ (str "/bib/B.pdf", str "B") ]}.
Proof.
  split; [|vm_compute; reflexivity].
  intros os limit bib tags v cks t Hc Ht.
  destruct (find_untagged_pdfs_returns os limit bib tags v cks t Hc Ht)
    as (u & out & Hu).
  exists u, out. split; [done|].
  destruct (find_untagged_pdfs_correct os limit bib tags v u out Hu)
    as (cks' & t' & Hc' & Ht' & Hiff).
  rewrite Hc in Hc'. rewrite Ht in Ht'. injection Hc' as <-. injection Ht' as <-.
  split; [exact Hiff|].
  intros p ck He Hin. apply Hiff in Hin as (-> & _ & He' & _).
  unfold ck_to_pdf in He. congruence.
Qed.

Lemma C8_untagged_spec_witness :
  ∃ u out,
    find_untagged_pdfs (os_of untagged_fs) 2 (str "/bib") (str "/tags") 0
      = inr (u, out) ∧
    (∀ p ck, (p, ck) ∈ u ↔
       p = ck_to_pdf (str "/bib") ck ∧ ck ∈ [str "A"; str "B"] ∧
       path_exists (os_of untagged_fs) p = true ∧
       pdfs (Tagged {[ str "A" := [str "x"] ]} []) !! ck = None) ∧
    (∀ p ck, path_exists (os_of untagged_fs) (ck_to_pdf (str "/bib") ck) = false →
             (p, ck) ∉ u).
Proof.
  apply (proj1 C8_untagged_spec (os_of untagged_fs) 2%nat (str "/bib") (str "/tags") 0
           [str "A"; str "B"] (Tagged {[ str "A" := [str "x"] ]} [])).
  - vm_compute. reflexivity.
  - vm_compute. reflexivity.
Defined.

(** C9, as stated, fails: the tags of a key come in the order in which
    [os.listdir] reports the entries, which the traversal does not sort.
    With the links [ml/A.pdf] and [ml/nlp/A.pdf], where the listing of
    [ml] reports [nlp] before [A.pdf], the index is [A: ml/nlp, ml] and
    not [A: ml, ml/nlp]. *)
Lemma C9_nlp_listed_first :
  listdir (os_of ml_fs_nlp_first) (str "/tags/ml")
    = inr [str "nlp"; str "A.pdf"] ∧
  islink (os_of ml_fs_nlp_first) (str "/tags/ml/A.pdf") = true ∧
  islink (os_of ml_fs_nlp_first) (str "/tags/ml/nlp/A.pdf") = true ∧
  (t ← find_tagged_pdfs (os_of ml_fs_nlp_first) 3 (str "/tags") 0; inr (pdfs t))
    = inr {[ str "A" := [str "ml/nlp"; str "ml"] ]} ∧
  (t ← find_tagged_pdfs (os_of ml_fs_nlp_first) 3 (str "/tags") 0; inr (pdfs t))
    ≠ inr {[ str "A" := [str "ml"; str "ml/nlp"] ]}.
Proof.
  repeat split; try (vm_compute; reflexivity).
  intros H. apply (f_equal (λ r, m ← r; inr (m !! str "A"))) in H.
  vm_compute in H. discriminate.
Qed.

(** C9, amended. Where [os.listdir] reports names, the working directory
    is absolute and the tag root is not the empty path: when the
    traversal of the tag root ends, the index is built, and it maps each
    key to the tags of its links in the order of the traversal, a link
    being an entry that is not a directory and is a symbolic link, with
    an extension that is [.pdf] up to case, and its tag the names of the
    directories from the root to it joined by slashes.  The order of the
    traversal is the order of the listing: on every tree of [ml/A.pdf]
    and [ml/nlp/A.pdf] the index is [A: ml, ml/nlp] where [os.listdir]
    reports [A.pdf] before [nlp], and [A: ml/nlp, ml] where it reports
    [nlp] first. *)
Theorem C9_tag_index_follows_listing :
  (∀ os limit root v links,
     lists_names os → Path.startswith_sep (getcwd os) = true → root ≠ [] →
     tag_links os limit root [] = inr links →
     ∃ t, find_tagged_pdfs os limit root v = inr t ∧
          ∀ ck, pdfs t !! ck =
                  match tags_of ck links with [] => None | ts => Some ts end) ∧
  (∀ os limit v names,
     listdir os (str "/tags") = inr [str "ml"] →
     listdir os (str "/tags/ml") = inr names →
     listdir os (str "/tags/ml/nlp") = inr [str "A.pdf"] →
     isdir os (str "/tags/ml") = true →
     isdir os (str "/tags/ml/nlp") = true →
     isdir os (str "/tags/ml/A.pdf") = false →
     isdir os (str "/tags/ml/nlp/A.pdf") = false →
     islink os (str "/tags/ml/A.pdf") = true →
     islink os (str "/tags/ml/nlp/A.pdf") = true →
     (names = [str "A.pdf"; str "nlp"] →
      (t ← find_tagged_pdfs os (S (S (S limit))) (str "/tags") v; inr (pdfs t))
        = inr {[ str "A" := [str "ml"; str "ml/nlp"] ]}) ∧
     (names = [str "nlp"; str "A.pdf"] →
      (t ← find_tagged_pdfs os (S (S (S limit))) (str "/tags") v; inr (pdfs t))
        = inr {[ str "A" := [str "ml/nlp"; str "ml"] ]})).
Proof.
  split; [|apply index_by_listing].
  intros os limit root v links Hn Hc Hr Hl.
  destruct (find_tagged_pdfs_returns os Hn Hc limit root v links Hr Hl) as [t Ht].
  exists t. split; [done|].
  destruct (find_tagged_pdfs_correct os Hn Hc limit root v t Hr Ht)
    as (links' & Hl' & H).
  rewrite Hl in Hl'. by injection Hl' as <-.
Qed.

Lemma C9_tag_index_follows_listing_witness :
  (∃ t, find_tagged_pdfs (os_of ml_fs) 3 (str "/tags") 0 = inr t ∧
        ∀ ck, pdfs t !! ck =
                match tags_of ck [([str "ml"], str "A.pdf");
                                  ([str "ml"; str "nlp"], str "A.pdf")] with
                | [] => None
                | ts => Some ts
                end) ∧
  (t ← find_tagged_pdfs (os_of ml_fs) 3 (str "/tags") 0; inr (pdfs t))
    = inr {[ str "A" := [str "ml"; str "ml/nlp"] ]} ∧
  (t ← find_tagged_pdfs (os_of ml_fs_nlp_first) 4 (str "/tags") 2; inr (pdfs t))
    = inr {[ str "A" := [str "ml/nlp"; str "ml"] ]}.
Proof.
  destruct C9_tag_index_follows_listing as [H1 H2]. split; [|split].
  - apply (H1 (os_of ml_fs) 3%nat (str "/tags") 0).
    + apply wf_lists_names. vm_compute. reflexivity.
    + vm_compute. reflexivity.
    + discriminate.
    + vm_compute. reflexivity.
  - apply (H2 (os_of ml_fs) 0%nat 0 [str "A.pdf"; str "nlp"]);
      vm_compute; reflexivity.
  - apply (H2 (os_of ml_fs_nlp_first) 1%nat 2 [str "nlp"; str "A.pdf"]);
      vm_compute; reflexivity.
Defined.

(** C10. On a record of one entry with the three fields, whose title is
    empty once trimmed, the canonicalizer raises [IndexError]. *)
Theorem C10_blank_title_raises ck v bib out id a t :
  bib !! str "ID" = Some id → bib !! str "author" = Some a →
  bib !! str "title" = Some t → strip t = [] →
  (Bib.canonicalize_bibtex ck v (Bib.State [bib] out)).2 = inl IndexError.
Proof.
  intros Hid Ha Ht He.
  destruct (canonicalize_blank ck v bib out id a t Hid Ha Ht He) as [out' ->].
  done.
Qed.

Lemma C10_blank_title_raises_witness :
  (Bib.canonicalize_bibtex (str "X") 0
     (Bib.State [record (str "X") (str "A") (str "  ")] [])).2 = inl IndexError.
Proof.
  apply (C10_blank_title_raises (str "X") 0 _ [] (str "X") (str "A") (str "  "));
    vm_compute; reflexivity.
Defined.

(** * Further facts *)

Section BlankFacts.
Implicit Types (s t w : pystr) (c : ascii).

Lemma drop_while_nil_iff (f : ascii → bool) s :
  drop_while f s = [] ↔ Forall (λ c, f c = true) s.
Proof.
  induction s as [|c s IH]; simpl; [by split; [constructor|]|].
  destruct (f c) eqn:E.
  - rewrite IH. split; [by constructor|by intros [_ ?]%Forall_cons].
  - split; [done|]. intros [? _]%Forall_cons. congruence.
Qed.

Lemma drop_while_all (f : ascii → bool) s :
  Forall (λ c, f c = true) s → drop_while f s = [].
Proof. apply drop_while_nil_iff. Qed.

Lemma drop_while_app_all (f : ascii → bool) s t :
  Forall (λ c, f c = true) s → drop_while f (s ++ t) = drop_while f t.
Proof.
  induction 1 as [|c s Hc _ IH]; simpl; [done|]. by rewrite Hc.
Qed.

Lemma drop_while_app_stop (f : ascii → bool) s t :
  drop_while f s ≠ [] → drop_while f (s ++ t) = drop_while f s ++ t.
Proof.
  induction s as [|c s IH]; simpl; [done|]. by destruct (f c).
Qed.

Lemma strip_nil_iff s : strip s = [] ↔ blank s.
Proof.
  unfold strip, rstrip, lstrip, rdrop_while, blank. split.
  - intros H. apply (f_equal reverse) in H. rewrite reverse_involutive in H.
    simpl in H. apply drop_while_nil_iff in H.
    apply Forall_reverse in H. rewrite reverse_involutive in H.
    destruct (drop_while_head is_space s) as [E|(c & u & E & Hc)].
    + by apply drop_while_nil_iff.
    + rewrite E in H. apply Forall_cons in H as [? _]. congruence.
  - intros H. by rewrite (drop_while_all _ _ H).
Qed.

Lemma lstrip_space c s : is_space c = true → lstrip (c :: s) = lstrip s.
Proof. intros H. unfold lstrip. simpl. by rewrite H. Qed.

Lemma strip_space_l c s : is_space c = true → strip (c :: s) = strip s.
Proof. intros H. unfold strip. by rewrite lstrip_space. Qed.

Lemma rstrip_space_r c s : is_space c = true → rstrip (s ++ [c]) = rstrip s.
Proof.
  intros H. unfold rstrip, rdrop_while. rewrite reverse_snoc. simpl.
  by rewrite H.
Qed.

Lemma strip_space_r c s : is_space c = true → strip (s ++ [c]) = strip s.
Proof.
  intros H. unfold strip.
  destruct (decide (lstrip s = [])) as [E|E].
  - assert (blank s) as Hb by by apply drop_while_nil_iff.
    unfold lstrip. rewrite drop_while_app_all by done. simpl. rewrite H.
    fold (lstrip s). by rewrite E.
  - unfold lstrip in *. rewrite drop_while_app_stop by done.
    by apply rstrip_space_r.
Qed.

Lemma strip_blank_l p s : blank p → strip (p ++ s) = strip s.
Proof.
  induction 1 as [|c p Hc _ IH]; [done|]. simpl. by rewrite strip_space_l.
Qed.

Lemma strip_blank_r p s : blank p → strip (s ++ p) = strip s.
Proof.
  intros H. induction p as [|c p IH] using rev_ind; [by rewrite app_nil_r|].
  apply Forall_app in H as [Hp [Hc _]%Forall_cons].
  by rewrite app_assoc, strip_space_r, IH.
Qed.

(** A string is its stripped part between two runs of white space. *)
Lemma strip_split s : ∃ p q, s = p ++ strip s ++ q ∧ blank p ∧ blank q.
Proof.
  destruct (drop_while_split is_space s) as (p & Hp & Hbp).
  destruct (drop_while_split is_space (reverse (lstrip s))) as (q & Hq & Hbq).
  exists p, (reverse q). split; [|split; [done|by apply Forall_reverse]].
  unfold strip, rstrip, rdrop_while.
  apply (f_equal reverse) in Hq. rewrite reverse_involutive, reverse_app in Hq.
  rewrite <- Hq. exact Hp.
Qed.

Lemma comma_not_space : is_space ","%char = false.
Proof. done. Qed.

Lemma newline_space : is_space "010"%char = true.
Proof. done. Qed.

Lemma blank_no_comma p : blank p → ","%char ∉ p.
Proof.
  intros H Hin. unfold blank in H. rewrite Forall_forall in H.
  apply H in Hin. by rewrite comma_not_space in Hin.
Qed.
End BlankFacts.

Section ParseTags.
Import Path.
Implicit Types (s t w : pystr) (c : ascii).

Lemma parse_tags_in s t :
  t ∈ parse_tags s ↔ t ≠ [] ∧ ∃ w, w ∈ split_on "," s ∧ t = strip w.
Proof.
  unfold parse_tags. rewrite list_elem_of_filter, list_elem_of_fmap.
  split.
  - intros [Hl (w & -> & Hw)]. split; [|eauto].
    intros E. rewrite E in Hl. simpl in Hl. lia.
  - intros [Hne (w & Hw & ->)]. split; [|eauto].
    destruct (strip w); [done|simpl; lia].
Qed.

Lemma parse_tags_ok s t : t ∈ parse_tags s → tag_ok t.
Proof.
  intros [Hne (w & Hw & ->)]%parse_tags_in. split; [done|]. split.
  - apply strip_trimmed.
  - intros ?%strip_subseteq. by apply split_on_no_sep in Hw.
Qed.

Lemma parse_tags_app a b :
  parse_tags (a ++ ","%char :: b) = parse_tags a ++ parse_tags b.
Proof.
  unfold parse_tags. by rewrite split_on_app, map_app, filter_app.
Qed.

Lemma parse_tags_plain t : tag_ok t → parse_tags t = [t].
Proof.
  intros (Hne & Ht & Hc). unfold parse_tags.
  rewrite split_on_absent by done. simpl. rewrite trimmed_strip by done.
  rewrite filter_cons_True; [done|]. destruct t; [done|simpl; lia].
Qed.

Lemma parse_tags_nil : parse_tags [] = [].
Proof. done. Qed.

Lemma parse_tags_join tags :
  Forall tag_ok tags → parse_tags (join_on "," tags) = tags.
Proof.
  induction 1 as [|t tags Ht Hts IH]; [done|].
  destruct tags as [|t' tags].
  - simpl. by apply parse_tags_plain.
  - rewrite join_on_cons by done. rewrite parse_tags_app, IH.
    by rewrite parse_tags_plain.
Qed.

Lemma split_on_chars c s x :
  x ∈ s ↔ (x = c ∧ c ∈ s) ∨ ∃ w, w ∈ split_on c s ∧ x ∈ w.
Proof.
  induction s as [|y s IH]; simpl.
  - split; [by intros ?%elem_of_nil|].
    intros [[_ ?%elem_of_nil]|(w & ->%list_elem_of_singleton & ?%elem_of_nil)]; done.
  - pose proof (split_on_nonempty c s) as Hne.
    destruct (decide (y = c)) as [->|Hy].
    + rewrite elem_of_cons, IH. split.
      * intros [->|[[-> ?]|(w & Hw & Hx)]].
        -- left. split; [done|by left].
        -- left. split; [done|by right].
        -- right. exists w. split; [by right|done].
      * intros [[-> _]|(w & Hw & Hx)]; [by left|].
        apply elem_of_cons in Hw as [->|Hw]; [by apply elem_of_nil in Hx|].
        right. right. eauto.
    + destruct (split_on c s) as [|w0 ws] eqn:E; [done|].
      rewrite elem_of_cons, IH. split.
      * intros [->|[[-> ?]|(w & Hw & Hx)]].
        -- right. exists (y :: w0). split; by left.
        -- left. split; [done|by right].
        -- apply elem_of_cons in Hw as [->|Hw].
           ++ right. exists (y :: w0). split; [by left|by right].
           ++ right. exists w. split; [by right|done].
      * intros [[-> Hc]|(w & Hw & Hx)].
        -- apply elem_of_cons in Hc as [->|Hc]; [done|]. right. left. done.
        -- apply elem_of_cons in Hw as [->|Hw].
           ++ apply elem_of_cons in Hx as [->|Hx]; [by left|].
              right. right. exists w0. split; [by left|done].
           ++ right. right. exists w. split; [by right|done].
Qed.

Lemma parse_tags_empty s :
  parse_tags s = [] ↔ Forall (λ c, c = ","%char ∨ is_space c = true) s.
Proof.
  rewrite Forall_forall. split.
  - intros H x Hx. apply (split_on_chars ","%char) in Hx as [[-> _]|(w & Hw & Hx)];
      [by left|]. right.
    destruct (decide (strip w = [])) as [E|E].
    + apply strip_nil_iff in E. unfold blank in E. rewrite Forall_forall in E. auto.
    + assert (strip w ∈ parse_tags s) as Hin by (apply parse_tags_in; eauto).
      rewrite H in Hin. by apply elem_of_nil in Hin.
  - intros H. destruct (parse_tags s) as [|t ts] eqn:E; [done|]. exfalso.
    assert (t ∈ parse_tags s) as [Hne (w & Hw & ->)]%parse_tags_in
      by (rewrite E; by left).
    apply Hne, strip_nil_iff. apply Forall_forall. intros x Hx.
    destruct (H x) as [->|]; [|by apply split_on_no_sep in Hw|done].
    apply (split_on_chars ","%char). right. eauto.
Qed.

(** White space at either end of the text does not change the tags. *)
Lemma split_on_cons_other c x s :
  x ≠ c → ∃ w ws, split_on c s = w :: ws ∧ split_on c (x :: s) = (x :: w) :: ws.
Proof.
  intros Hx. simpl. rewrite decide_False by done.
  pose proof (split_on_nonempty c s). destruct (split_on c s) as [|w ws]; [done|].
  eauto.
Qed.

Lemma parse_tags_space_l x s : is_space x = true → parse_tags (x :: s) = parse_tags s.
Proof.
  intros Hx. unfold parse_tags.
  destruct (split_on_cons_other ","%char x s) as (w & ws & -> & ->).
  { intros ->. by rewrite comma_not_space in Hx. }
  simpl. by rewrite strip_space_l.
Qed.

Lemma split_on_snoc_other c x s :
  x ≠ c →
  ∃ ws w, split_on c s = ws ++ [w] ∧ split_on c (s ++ [x]) = ws ++ [w ++ [x]].
Proof.
  intros Hx. induction s as [|y s (ws & w & E1 & E2)]; simpl.
  - rewrite decide_False by done. by exists [], [].
  - destruct (decide (y = c)).
    + exists ([] :: ws), w. by rewrite E1, E2.
    + rewrite E1, E2. destruct ws as [|w0 ws]; simpl.
      * by exists [], (y :: w).
      * by exists ((y :: w0) :: ws), w.
Qed.

Lemma parse_tags_space_r x s : is_space x = true → parse_tags (s ++ [x]) = parse_tags s.
Proof.
  intros Hx. unfold parse_tags.
  destruct (split_on_snoc_other ","%char x s) as (ws & w & -> & ->).
  { intros ->. by rewrite comma_not_space in Hx. }
  by rewrite !map_app, !filter_app; simpl; rewrite strip_space_r.
Qed.

Lemma parse_tags_blank_l p s : blank p → parse_tags (p ++ s) = parse_tags s.
Proof.
  induction 1 as [|c p Hc _ IH]; [done|]. simpl. by rewrite parse_tags_space_l.
Qed.

Lemma parse_tags_blank_r p s : blank p → parse_tags (s ++ p) = parse_tags s.
Proof.
  intros H. induction p as [|c p IH] using rev_ind; [by rewrite app_nil_r|].
  apply Forall_app in H as [Hp [Hc _]%Forall_cons].
  by rewrite app_assoc, parse_tags_space_r, IH.
Qed.

Lemma parse_tags_strip s : parse_tags (strip s) = parse_tags s.
Proof.
  destruct (strip_split s) as (p & q & E & Hp & Hq).
  rewrite E at 2. by rewrite parse_tags_blank_l, parse_tags_blank_r.
Qed.
End ParseTags.

Section CanonicalizeErrors.
Import Bib.
Context (ck : pystr) (v : Z).
Implicit Types (bib : entry) (out : list (list pyval)) (s : state).

Lemma canonicalize_wrong_count s :
  length (entries s) ≠ 1%nat →
  canonicalize_bibtex ck v s = (s, inl AssertionError).
Proof. intros H. unfold canonicalize_bibtex. by rewrite decide_False. Qed.

Lemma get_field_missing k bib out :
  bib !! k = None → get_field 0 k (State [bib] out) = (State [bib] out, inl (KeyError k)).
Proof. intros H. unfold get_field. simpl. by rewrite H. Qed.

Lemma canonicalize_no_id bib out :
  bib !! str "ID" = None →
  canonicalize_bibtex ck v (State [bib] out)
    = (State [bib] out, inl (KeyError (str "ID"))).
Proof.
  intros H. unfold canonicalize_bibtex. cbn [entries length].
  rewrite decide_True by done. cbn [for_range]. unfold canonicalize_entry, fix_id.
  erewrite bind_err; [done|]. erewrite bind_err; [done|].
  erewrite bind_err; [done|]. erewrite bind_err; [done|].
  by apply get_field_missing.
Qed.

Lemma canonicalize_no_author bib out id :
  bib !! str "ID" = Some id → bib !! str "author" = None →
  ∃ out',
    canonicalize_bibtex ck v (State [bib] out)
      = (State [<[str "ID" := ck]> bib] out', inl (KeyError (str "author"))).
Proof.
  intros Hid Ha.
  destruct (fix_id_run ck v bib out id false Hid) as (o1 & E1 & _).
  exists o1. unfold canonicalize_bibtex. cbn [entries length].
  rewrite decide_True by done. cbn [for_range]. unfold canonicalize_entry.
  erewrite bind_err; [done|]. erewrite bind_err; [done|].
  erewrite bind_ok by exact E1. erewrite bind_err; [done|].
  unfold fix_author. erewrite bind_err; [done|].
  apply get_field_missing. by rewrite lookup_insert_ne.
Qed.

Lemma canonicalize_no_title bib out id a :
  bib !! str "ID" = Some id → bib !! str "author" = Some a →
  bib !! str "title" = None →
  ∃ out',
    canonicalize_bibtex ck v (State [bib] out)
      = (State [<[str "author" := norm_author a]> (<[str "ID" := ck]> bib)] out',
         inl (KeyError (str "title"))).
Proof.
  intros Hid Ha Ht.
  destruct (fix_id_run ck v bib out id false Hid) as (o1 & E1 & _).
  destruct (fix_author_run ck v (<[str "ID" := ck]> bib) o1 a
              (bool_decide (id ≠ ck) || false)) as (o2 & E2 & _).
  { by rewrite lookup_insert_ne. }
  exists o2. unfold canonicalize_bibtex. cbn [entries length].
  rewrite decide_True by done. cbn [for_range]. unfold canonicalize_entry.
  erewrite bind_err; [done|]. erewrite bind_err; [done|].
  erewrite bind_ok by exact E1. erewrite bind_ok by exact E2.
  unfold fix_title. erewrite bind_err; [done|].
  apply get_field_missing. by rewrite !lookup_insert_ne.
Qed.
End CanonicalizeErrors.

Section CanonicalizeQuiet.
Import Bib.
Context (ck : pystr) (v : Z).
Hypothesis Hv : v ≤ 1.

Lemma quiet_bind {A B} (m : M A) (k : A → M B) :
  quiet m → (∀ a, quiet (k a)) → quiet (bind m k).
Proof.
  intros Hm Hk s s' r. unfold bind.
  destruct (m s) as [s1 [e|a]] eqn:E.
  - intros [= <- <-]. by eapply Hm.
  - intros H. apply Hk in H. apply Hm in E. congruence.
Qed.

Lemma quiet_ret {A} (a : A) : quiet (ret a).
Proof. by intros s s' r [= <- <-]. Qed.

Lemma quiet_lift {A} (x : exn + A) : quiet (lift x).
Proof. by intros s s' r [= <- <-]. Qed.

Lemma quiet_get_field i k : quiet (get_field i k).
Proof.
  intros s s' r. unfold get_field.
  destruct (entries s !! i) as [bib|]; [destruct (bib !! k)|]; by intros [= <- <-].
Qed.

Lemma quiet_set_field i k x : quiet (set_field i k x).
Proof.
  intros s s' r. unfold set_field.
  destruct (entries s !! i) as [bib|]; by intros [= <- <-].
Qed.

Lemma quiet_when line : quiet (when (1 <? v) (print line)).
Proof.
  destruct (Z.ltb_spec 1 v); [lia|]. apply quiet_ret.
Qed.

Lemma quiet_fix_id i upd : quiet (fix_id ck v i upd).
Proof.
  unfold fix_id. apply quiet_bind; [apply quiet_get_field|]. intros bck.
  destruct (decide _); [|apply quiet_ret].
  repeat (apply quiet_bind; intros); auto using quiet_when, quiet_set_field, quiet_ret.
Qed.

Lemma quiet_fix_author i upd : quiet (fix_author ck v i upd).
Proof.
  unfold fix_author. apply quiet_bind; [apply quiet_get_field|]. intros a.
  apply quiet_bind; [apply quiet_get_field|]. intros a'.
  destruct (decide _); [|apply quiet_ret].
  repeat (apply quiet_bind; intros); auto using quiet_when, quiet_set_field, quiet_ret.
Qed.

Lemma quiet_fix_title i upd : quiet (fix_title ck v i upd).
Proof.
  unfold fix_title. apply quiet_bind; [apply quiet_get_field|]. intros t.
  apply quiet_bind; [apply quiet_lift|]. intros c.
  apply quiet_bind.
  { destruct (decide _); [|apply quiet_ret].
    apply quiet_bind; [apply quiet_lift|]. intros. apply quiet_ret. }
  intros w. apply quiet_bind; [apply quiet_get_field|]. intros t'.
  destruct (decide _); [|apply quiet_ret].
  repeat (apply quiet_bind; intros); auto using quiet_when, quiet_set_field, quiet_ret.
Qed.

Lemma quiet_for_range body i n upd :
  (∀ i upd, quiet (body i upd)) → quiet (for_range body i n upd).
Proof.
  intros Hb. revert i upd. induction n as [|n IH]; intros i upd; simpl.
  - apply quiet_ret.
  - apply quiet_bind; [apply Hb|]. intros. apply IH.
Qed.

Lemma quiet_canonicalize : quiet (canonicalize_bibtex ck v).
Proof.
  intros s s' r. unfold canonicalize_bibtex.
  destruct (decide _); [|by intros [= <- <-]].
  apply quiet_bind.
  - apply quiet_for_range. intros i upd. unfold canonicalize_entry.
    apply quiet_bind; [apply quiet_fix_id|]. intros.
    apply quiet_bind; [apply quiet_fix_author|]. intros.
    apply quiet_fix_title.
  - intros. apply quiet_bind; [apply quiet_get_field|]. intros. apply quiet_ret.
Qed.
End CanonicalizeQuiet.

Section CanonicalForm.
Import Bib.
Context (ck : pystr) (v : Z).
Implicit Types (bib : entry) (s : state).

(** What a call that returns has done. *)
Lemma canonicalize_result s s' b :
  canonicalize_bibtex ck v s = (s', inr b) →
  ∃ bib id a t,
    entries s = [bib] ∧ bib !! str "ID" = Some id ∧
    bib !! str "author" = Some a ∧ bib !! str "title" = Some t ∧
    strip t ≠ [] ∧
    entries s' = [<[str "title" := norm_title t]>
                    (<[str "author" := norm_author a]> (<[str "ID" := ck]> bib))] ∧
    b = bool_decide (id ≠ ck) || bool_decide (a ≠ norm_author a)
        || bool_decide (t ≠ norm_title t).
Proof.
  intros H.
  destruct (canonicalize_returns ck v s s' b H)
    as (bib & id & a & t & Hs & Hid & Ha & Ht & Hne).
  exists bib, id, a, t. repeat (split; [done|]).
  destruct s as [es out]. simpl in Hs. subst es.
  destruct (canonicalize_run ck v bib out id a t Hid Ha Ht Hne) as (out' & Hrun & _).
  rewrite Hrun in H. by injection H as <- <-.
Qed.

Lemma canonicalize_frame s s' b :
  canonicalize_bibtex ck v s = (s', inr b) →
  ∃ bib bib',
    entries s = [bib] ∧ entries s' = [bib'] ∧
    bib' !! str "ID" = Some ck ∧
    (∀ k, k ≠ str "ID" → k ≠ str "author" → k ≠ str "title" →
          bib' !! k = bib !! k) ∧
    dom bib' = dom bib.
Proof.
  intros (bib & id & a & t & Hs & Hid & Ha & Ht & _ & Hs' & _)%canonicalize_result.
  eexists bib, _. split; [done|]. split; [exact Hs'|]. split; [|split].
  - rewrite !lookup_insert_ne by done. apply lookup_insert_eq.
  - intros k ? ? ?. by rewrite !lookup_insert_ne.
  - rewrite !dom_insert_L.
    apply (elem_of_dom_2 (D := gset pystr)) in Hid, Ha, Ht. set_solver.
Qed.

Lemma norm_author_shape a :
  "013"%char ∉ norm_author a ∧ "010"%char ∉ norm_author a ∧ trimmed (norm_author a).
Proof.
  unfold norm_author.
  set (x := replace "010" (str " ") (replace "013" [] a)).
  assert ("013"%char ∉ x ∧ "010"%char ∉ x) as [??].
  { split.
    - apply replace_keeps_absent; [apply replace_removes, not_elem_of_nil|].
      by intros ?%list_elem_of_singleton.
    - apply replace_removes. by intros ?%list_elem_of_singleton. }
  split; [|split]; [by intros ?%strip_subseteq..|apply strip_trimmed].
Qed.

Lemma norm_title_shape t :
  strip t ≠ [] →
  norm_title t ≠ [] ∧ trimmed (norm_title t) ∧
  (head (norm_title t) = Some "{"%char ∨ last (norm_title t) = Some "}"%char).
Proof.
  intros Hne. unfold norm_title. destruct (wraps (strip t)) eqn:Hw.
  - split; [done|]. split; [apply trimmed_braced|]. by left.
  - split; [done|]. split; [apply strip_trimmed|].
    unfold wraps in Hw. apply andb_false_iff in Hw as [Hw|Hw].
    + left. apply bool_decide_eq_false in Hw. by apply dec_stable in Hw.
    + right. apply bool_decide_eq_false in Hw. by apply dec_stable in Hw.
Qed.

Lemma canonicalize_shape s s' b :
  canonicalize_bibtex ck v s = (s', inr b) →
  ∃ bib' a t,
    entries s' = [bib'] ∧ bib' !! str "ID" = Some ck ∧
    bib' !! str "author" = Some a ∧ bib' !! str "title" = Some t ∧
    "013"%char ∉ a ∧ "010"%char ∉ a ∧ trimmed a ∧
    t ≠ [] ∧ trimmed t ∧ (head t = Some "{"%char ∨ last t = Some "}"%char).
Proof.
  intros (bib & id & a & t & Hs & Hid & Ha & Ht & Hne & Hs' & _)%canonicalize_result.
  eexists _, (norm_author a), (norm_title t). split; [exact Hs'|].
  split; [rewrite !lookup_insert_ne by done; apply lookup_insert_eq|].
  split; [rewrite lookup_insert_ne by done; apply lookup_insert_eq|].
  split; [apply lookup_insert_eq|].
  destruct (norm_author_shape a) as (? & ? & ?).
  destruct (norm_title_shape t Hne) as (? & ? & ?). done.
Qed.

(** The flag is exact: it is set when, and only when, the record is not
    what it was. *)
Lemma canonicalize_flag s s' b :
  canonicalize_bibtex ck v s = (s', inr b) →
  b = bool_decide (entries s' ≠ entries s).
Proof.
  intros (bib & id & a & t & Hs & Hid & Ha & Ht & Hne & Hs' & ->)%canonicalize_result.
  rewrite Hs, Hs'.
  destruct (decide (id = ck)) as [->|Hi];
    [destruct (decide (a = norm_author a)) as [Ea|Ea];
     [destruct (decide (t = norm_title t)) as [Et|Et]|]|].
  - rewrite <- Ea, <- Et. rewrite !insert_id by
      (rewrite ?lookup_insert_ne by done; done).
    by rewrite !bool_decide_eq_false_2 by auto.
  - rewrite (bool_decide_eq_true_2 (t ≠ _)) by done.
    rewrite orb_true_r. symmetry. apply bool_decide_eq_true_2.
    intros [= E]. apply (f_equal (lookup (str "title"))) in E.
    rewrite lookup_insert_eq in E. congruence.
  - rewrite (bool_decide_eq_true_2 (a ≠ _)) by done.
    rewrite orb_true_r. simpl. symmetry. apply bool_decide_eq_true_2.
    intros [= E]. apply (f_equal (lookup (str "author"))) in E.
    rewrite lookup_insert_ne, lookup_insert_eq in E by done. congruence.
  - rewrite (bool_decide_eq_true_2 (id ≠ _)) by done. simpl.
    symmetry. apply bool_decide_eq_true_2.
    intros [= E]. apply (f_equal (lookup (str "ID"))) in E.
    rewrite !lookup_insert_ne, lookup_insert_eq in E by done. congruence.
Qed.
End CanonicalForm.

Section TagListingFacts.
Context (os : os_view).

Lemma get_tags_unfold limit tagdir prefix l :
  get_tags os (S limit) tagdir prefix = inr l →
  ∃ names tags,
    listdir os tagdir = inr names ∧
    for_each
      (λ (tags : list pystr) tagname,
         if negb (isdir os (Path.join tagdir tagname)) then inr tags
         else sub ← get_tags os limit (Path.join tagdir tagname)
                      (fulltag prefix tagname);
              inr ((tags ++ [fulltag prefix tagname]) ++ sub))
      names [] = inr tags ∧
    l = sorted tags.
Proof.
  simpl. destruct (listdir os tagdir) as [e|names]; [done|]. simpl.
  match goal with |- context [for_each ?b _ _] => set (body := b) end.
  destruct (for_each body names []) as [e|tags] eqn:E; [done|]. simpl.
  intros [= <-]. by exists names, tags.
Qed.

(** The tags are those of the directories below, and no others. *)
Lemma get_tags_correct limit tagdir prefix l :
  get_tags os limit tagdir prefix = inr l →
  ∀ t, t ∈ l ↔ tag_below os tagdir prefix t.
Proof.
  revert tagdir prefix l.
  induction limit as [|limit IH]; intros tagdir prefix l; [done|].
  intros (names & tags & Hl & Hf & ->)%get_tags_unfold t.
  rewrite sorted_elem_of.
  pose (I := λ (seen tags : list pystr),
          ∀ t, t ∈ tags ↔
            ∃ f, f ∈ seen ∧ isdir os (Path.join tagdir f) = true ∧
                 (t = fulltag prefix f ∨
                  tag_below os (Path.join tagdir f) (fulltag prefix f) t)).
  assert (I names tags) as HI.
  { eapply (for_each_inv _ I); [| |exact Hf].
    - intros t'. split; [by intros ?%elem_of_nil|].
      by intros (f & ?%elem_of_nil & _).
    - intros seen x acc acc' Hacc Hx. cbv beta.
      destruct (isdir os (Path.join tagdir x)) eqn:Hd; simpl.
      + destruct (get_tags os limit _ _) as [e|sub] eqn:Hsub; [done|]. simpl.
        intros [= <-] t'. rewrite !elem_of_app, list_elem_of_singleton, (Hacc t').
        rewrite (IH _ _ _ Hsub t'). split.
        * intros [[(f & Hf' & ?)| ->]|Hb].
          -- exists f. split; [apply elem_of_app; by left|done].
          -- exists x. split; [apply elem_of_app; right; by left|by auto].
          -- exists x. split; [apply elem_of_app; right; by left|by auto].
        * intros (f & [Hf'| ->%list_elem_of_singleton]%elem_of_app & Hd' & Ht).
          -- left. left. eauto.
          -- destruct Ht as [->|Ht]; [left; by right|by right].
      + intros [= <-] t'. rewrite (Hacc t'). split.
        * intros (f & Hf' & ?). exists f. split; [apply elem_of_app; by left|done].
        * intros (f & [Hf'| ->%list_elem_of_singleton]%elem_of_app & Hd' & Ht);
            [eauto|congruence]. }
  rewrite (HI t). split.
  - intros (f & Hf' & Hd & [->|Ht]).
    + by eapply tag_here.
    + by eapply tag_deeper.
  - intros Ht. inversion Ht as [d p ns f Hl' Hf' Hd|d p ns f t' Hl' Hf' Hd Hsub];
      subst; rewrite Hl in Hl'; injection Hl' as <-; exists f; auto.
Qed.

Lemma get_tags_returns limit tagdir prefix :
  walkable os limit tagdir → ∃ l, get_tags os limit tagdir prefix = inr l.
Proof.
  intros H. revert prefix. induction H as [n dir names Hl _ IH]. intros prefix.
  simpl. rewrite Hl. simpl.
  match goal with |- context [for_each ?b _ _] => set (body := b) end.
  destruct (for_each_returns body (λ _, True) names [] I) as (tags & -> & _);
    [|simpl; eauto].
  intros f s _ Hf. subst body. cbv beta.
  destruct (isdir os (Path.join dir f)) eqn:Hd; simpl; [|eauto].
  destruct (IH f Hf Hd (fulltag prefix f)) as [sub ->]. simpl. eauto.
Qed.

Lemma get_tags_sorted limit tagdir prefix l :
  get_tags os limit tagdir prefix = inr l → StronglySorted str_le l.
Proof.
  destruct limit as [|limit]; [done|].
  intros (names & tags & _ & _ & ->)%get_tags_unfold.
  apply (StronglySorted_merge_sort str_le).
Qed.
End TagListingFacts.

Section IndexTags.
Import Path.
Context (os : os_view).
Hypothesis Hnames : lists_names os.
Hypothesis Hcwd : startswith_sep (getcwd os) = true.

(** The prefix [get_tags] is called with in the directory reached
    through [cs]. *)
Lemma fulltag_tag_name cs f :
  Forall valid_name cs →
  fulltag (match cs with [] => [] | _ => tag_name cs end) f = tag_name (cs ++ [f]).
Proof.
  intros Hcs. unfold fulltag, tag_name. destruct cs as [|w cs]; [done|].
  destruct (join_on_valid (w :: cs)) as [Hne _]; [done..|].
  rewrite bool_decide_eq_true_2 by (destruct (join_on "/" (w :: cs)); [done|simpl; lia]).
  rewrite (join_on_snoc _ (w :: cs)) by done. done.
Qed.

Lemma tag_links_unfold limit root cs links :
  tag_links os (S limit) root cs = inr links →
  ∃ names,
    listdir os (subdir root cs) = inr names ∧
    for_each
      (λ acc f,
         if isdir os (join (subdir root cs) f) then
           sub ← tag_links os limit root (cs ++ [f]); inr (acc ++ sub)
         else if islink os (join (subdir root cs) f) then inr (acc ++ [(cs, f)])
         else inr acc)
      names [] = inr links.
Proof.
  simpl. destruct (listdir os (subdir root cs)) as [e|names]; [done|]. simpl.
  intros H. by exists names.
Qed.

(** A traversal that ends has listed every directory it went into. *)
Lemma tag_links_walkable limit root cs links :
  tag_links os limit root cs = inr links → walkable os limit (subdir root cs).
Proof.
  revert cs links. induction limit as [|limit IH]; intros cs links; [done|].
  intros (names & Hl & Hf)%tag_links_unfold.
  apply (walkable_dir _ _ _ names Hl).
  pose (I := λ (seen : list pystr) (_ : list (list pystr * pystr)),
          ∀ f, f ∈ seen → isdir os (join (subdir root cs) f) = true →
               walkable os limit (join (subdir root cs) f)).
  apply (for_each_inv _ I _ _ _ ltac:(by intros ? ?%elem_of_nil)) in Hf; [done|].
  intros seen x acc acc' Hacc Hx. cbv beta.
  destruct (isdir os (join (subdir root cs) x)) eqn:Hd.
  - destruct (tag_links os limit root (cs ++ [x])) as [e|sub] eqn:Hsub; [done|].
    intros _ f [?| ->%list_elem_of_singleton]%elem_of_app ?; [by apply Hacc|].
    apply IH in Hsub. by rewrite subdir_snoc in Hsub.
  - intros _ f [?| ->%list_elem_of_singleton]%elem_of_app ?;
      [by apply Hacc|congruence].
Qed.

(** Every link of the traversal lies in the directory the traversal
    started in or in a directory that has a tag. *)
Lemma tag_links_below limit root cs links :
  Forall valid_name cs →
  tag_links os limit root cs = inr links →
  ∀ c f, (c, f) ∈ links →
    c = cs ∨ tag_below os (subdir root cs)
               (match cs with [] => [] | _ => tag_name cs end) (tag_name c).
Proof.
  revert cs links. induction limit as [|limit IH]; intros cs links Hcs; [done|].
  intros (names & Hl & Hf)%tag_links_unfold.
  pose proof (Hnames _ _ Hl) as Hv. rewrite Forall_forall in Hv.
  pose (I := λ (seen : list pystr) (acc : list (list pystr * pystr)),
          ∀ c f, (c, f) ∈ acc →
            c = cs ∨ tag_below os (subdir root cs)
                       (match cs with [] => [] | _ => tag_name cs end) (tag_name c)).
  apply (for_each_inv _ I _ _ _ ltac:(by intros ? ? ?%elem_of_nil)) in Hf; [done|].
  intros seen x acc acc' Hacc Hx. cbv beta.
  destruct (isdir os (join (subdir root cs) x)) eqn:Hd.
  - destruct (tag_links os limit root (cs ++ [x])) as [e|sub] eqn:Hsub; [done|].
    simpl. intros [= <-] c f [?|Hin]%elem_of_app; [by eapply Hacc|]. right.
    assert (Forall valid_name (cs ++ [x])) as Hcx.
    { apply Forall_app. split; [done|]. constructor; [by apply Hv|done]. }
    destruct (IH _ _ Hcx Hsub c f Hin) as [->|Hb].
    + rewrite <- fulltag_tag_name by done. by eapply tag_here.
    + eapply tag_deeper; [done..|].
      rewrite subdir_snoc in Hb. rewrite fulltag_tag_name by done.
      by destruct cs.
  - destruct (islink os _); intros [= <-] c f.
    + intros [?|[= -> ->]%list_elem_of_singleton]%elem_of_app; [by eapply Hacc|by left].
    + apply Hacc.
Qed.

Lemma tags_of_in ck links tag :
  tag ∈ tags_of ck links → ∃ c f, (c, f) ∈ links ∧ tag = tag_name c.
Proof.
  unfold tags_of. rewrite list_elem_of_omap. intros ([c f] & Hin & H).
  exists c, f. split; [done|]. cbn [fst snd] in H.
  destruct (splitext f). destruct (_ && _); [|done]. by injection H as <-.
Qed.

(** Every tag of the index but the tag of the root itself is a tag that
    [get_tags] lists. *)
Lemma index_tags_listed limit root v t :
  root ≠ [] →
  find_tagged_pdfs os limit root v = inr t →
  ∃ tags,
    get_tags os limit root [] = inr tags ∧
    ∀ ck ts tag, pdfs t !! ck = Some ts → tag ∈ ts →
                 tag = str "." ∨ tag ∈ tags.
Proof.
  intros Hr Ht.
  destruct (find_tagged_pdfs_correct os Hnames Hcwd limit root v t Hr Ht)
    as (links & Hl & Hidx).
  destruct (get_tags_returns os limit root []) as [tags Htags].
  { by apply (tag_links_walkable _ _ [] links). }
  exists tags. split; [done|]. intros ck ts tag Hck Hin.
  rewrite Hidx in Hck.
  assert (tag ∈ tags_of ck links) as (c & f & Hcf & ->)%tags_of_in.
  { destruct (tags_of ck links); [done|]. by injection Hck as <-. }
  destruct (tag_links_below limit root [] links (Forall_nil_2 _) Hl c f Hcf)
    as [->|Hb]; [by left|].
  right. by apply (get_tags_correct os limit root [] tags Htags).
Qed.
End IndexTags.

Section Keys.
Import Path.
Context (os : os_view).

Lemma splitext_ext_stem p stem ext :
  splitext p = (stem, ext) → ext ≠ [] → stem ≠ [].
Proof.
  unfold splitext. destruct (_ && _) eqn:Hc; [|by intros [= <- <-]].
  intros [= <- <-] _.
  apply andb_true_iff in Hc as [_ (x & Hx & _)%existsb_exists].
  apply list_elem_of_In in Hx.
  intros E. rewrite E in Hx. rewrite drop_nil in Hx. by apply elem_of_nil in Hx.
Qed.

Lemma key_of_shape f ck : key_of f ck → ck ≠ [] ∧ "."%char ∉ ck.
Proof.
  intros (ext & Hs & Hdot & Hext). split; [|done].
  apply (splitext_ext_stem f ck ext Hs).
  intros ->. by destruct Hext.
Qed.

(** No key of the scanner is empty or holds a dot. *)
Lemma list_cks_keys limit dir l ck :
  list_cks os limit dir = inr l → ck ∈ l → ck ≠ [] ∧ "."%char ∉ ck.
Proof.
  intros [_ Hl]%list_cks_correct Hin. apply Hl in Hin. clear Hl.
  induction Hin as [d ns f k _ _ _ Hk|]; [by eapply key_of_shape|done].
Qed.

Lemma splitext_plain ck e :
  ck ≠ [] → "."%char ∉ ck → "/"%char ∉ ck → "."%char ∉ e → "/"%char ∉ e →
  splitext (ck ++ "."%char :: e) = (ck, "."%char :: e).
Proof.
  intros Hne Hd Hs Hde Hse. unfold splitext.
  rewrite (rfind1_absent "/")
    by (intros [?|[?|?]%elem_of_cons]%elem_of_app; done).
  change (ck ++ "."%char :: e) with (ck ++ ["."%char] ++ e).
  rewrite app_assoc, rfind1_app_absent, rfind1_snoc by done.
  cbn [Nat.sub]. rewrite Nat.sub_0_r.
  rewrite <- app_assoc, take_app_length, drop_app_length, drop_0.
  rewrite bool_decide_eq_true_2 by lia.
  destruct ck as [|c ck]; [done|]. cbn [existsb andb].
  apply not_elem_of_cons in Hd as [Hc _].
  by rewrite bool_decide_eq_true_2 by done.
Qed.

Lemma key_of_pdf ck :
  ck ≠ [] → "."%char ∉ ck → "/"%char ∉ ck → key_of (ck ++ str ".pdf") ck.
Proof.
  intros. exists (str ".pdf"). split; [|by auto].
  apply (splitext_plain ck (str "pdf")); try done.
  all: intros Hin; by repeat (apply elem_of_cons in Hin as [?|Hin]; [done|]);
    apply elem_of_nil in Hin.
Qed.

Lemma key_of_bib ck :
  ck ≠ [] → "."%char ∉ ck → "/"%char ∉ ck → key_of (ck ++ str ".bib") ck.
Proof.
  intros. exists (str ".bib"). split; [|by auto].
  apply (splitext_plain ck (str "bib")); try done.
  all: intros Hin; by repeat (apply elem_of_cons in Hin as [?|Hin]; [done|]);
    apply elem_of_nil in Hin.
Qed.

(** The file that [ck_to_pdf] or [ck_to_bib] names leads the scanner
    back to the key. *)
Lemma list_cks_finds limit dir names l ck :
  ck ≠ [] → "."%char ∉ ck → "/"%char ∉ ck →
  listdir os dir = inr names →
  list_cks os limit dir = inr l →
  (ck ++ str ".pdf" ∈ names ∧ isdir os (ck_to_pdf dir ck) = false) ∨
  (ck ++ str ".bib" ∈ names ∧ isdir os (ck_to_bib dir ck) = false) →
  ck ∈ l.
Proof.
  intros Hne Hd Hs Hl [_ Hc]%list_cks_correct H. apply Hc.
  destruct H as [[Hin Hdir]|[Hin Hdir]].
  - eapply scans_file; [done..|by apply key_of_pdf].
  - eapply scans_file; [done..|by apply key_of_bib].
Qed.
End Keys.

Section Verbosity.
Context (os : os_view).

Lemma visit_link_same root v v' full rel st st' :
  pdfs st = pdfs st' →
  same_index (visit_link os root v full rel st) (visit_link os root v' full rel st').
Proof.
  intros E. unfold visit_link. destruct (Path.splitext rel) as [k ext].
  destruct (Path.relpath _ _ _) as [e|tag]; [done|]. simpl.
  rewrite E. by destruct (bool_decide _).
Qed.

Lemma helper_same limit root sub v v' st st' :
  pdfs st = pdfs st' →
  same_index (find_tagged_pdfs_helper os limit root sub v st)
             (find_tagged_pdfs_helper os limit root sub v' st').
Proof.
  revert sub st st'. induction limit as [|limit IH]; intros sub st st' E; [done|].
  simpl. destruct (listdir os sub) as [e|names]; [done|]. simpl.
  revert st st' E. induction names as [|f names IHn]; intros st st' E; [done|].
  simpl. destruct (isdir os (Path.join sub f)).
  - specialize (IH (Path.join sub f) st st' E). unfold same_index in IH.
    destruct (find_tagged_pdfs_helper os limit root _ v st) as [e1|t1],
      (find_tagged_pdfs_helper os limit root _ v' st') as [e2|t2]; try done.
    simpl. by apply IHn.
  - destruct (islink os (Path.join sub f)); [|simpl; by apply IHn].
    pose proof (visit_link_same root v v' (Path.join sub f) f st st' E) as H.
    unfold same_index in H.
    destruct (visit_link os root v _ f st) as [e1|t1],
      (visit_link os root v' _ f st') as [e2|t2]; try done.
    simpl. by apply IHn.
Qed.

Lemma visit_link_silent root v full rel st t :
  v ≤ 1 → visit_link os root v full rel st = inr t → printed t = printed st.
Proof.
  intros Hv. unfold visit_link. destruct (Path.splitext rel) as [k ext].
  destruct (Path.relpath _ _ _) as [e|tag]; [done|]. simpl.
  destruct (Z.ltb_spec 1 v); [lia|]. by destruct (bool_decide _); intros [= <-].
Qed.

Lemma helper_silent limit root sub v st t :
  v ≤ 1 →
  find_tagged_pdfs_helper os limit root sub v st = inr t → printed t = printed st.
Proof.
  intros Hv. revert sub st t. induction limit as [|limit IH]; intros sub st t; [done|].
  simpl. destruct (listdir os sub) as [e|names]; [done|]. simpl.
  intros H. apply (for_each_inv _ (λ _ t, printed t = printed st)) in H; [done..|].
  intros seen x s s' Hs _. cbv beta.
  destruct (isdir os _); [intros ?%IH; congruence|].
  destruct (islink os _); [|by intros [= <-]].
  intros ?%visit_link_silent; [congruence|done].
Qed.

(** No key of the index is left with an empty list of tags. *)
Lemma visit_link_nonempty root v full rel st t :
  (∀ ck ts, pdfs st !! ck = Some ts → ts ≠ []) →
  visit_link os root v full rel st = inr t →
  ∀ ck ts, pdfs t !! ck = Some ts → ts ≠ [].
Proof.
  intros Hst. unfold visit_link. destruct (Path.splitext rel) as [k ext].
  destruct (Path.relpath _ _ _) as [e|tag]; [done|]. simpl.
  destruct (bool_decide _); intros [= <-]; [|done]. simpl.
  intros ck ts. destruct (decide (k = ck)) as [->|Hk].
  - rewrite lookup_insert_eq. intros [= <-]. by destruct (default [] _).
  - rewrite lookup_insert_ne by done. apply Hst.
Qed.

Lemma helper_nonempty limit root sub v st t :
  (∀ ck ts, pdfs st !! ck = Some ts → ts ≠ []) →
  find_tagged_pdfs_helper os limit root sub v st = inr t →
  ∀ ck ts, pdfs t !! ck = Some ts → ts ≠ [].
Proof.
  revert sub st t. induction limit as [|limit IH]; intros sub st t Hst; [done|].
  simpl. destruct (listdir os sub) as [e|names]; [done|]. simpl.
  apply (for_each_inv _ (λ _ t, ∀ ck ts, pdfs t !! ck = Some ts → ts ≠ []));
    [done|].
  intros seen x s s' Hs _. cbv beta.
  destruct (isdir os _); [by apply IH|].
  destruct (islink os _); [|by intros [= <-]].
  by apply visit_link_nonempty.
Qed.
End Verbosity.

Section Words.
Implicit Types (s w p : pystr) (c : ascii).

Lemma split_ws_space c s : is_space c = true → split_ws (c :: s) = split_ws s.
Proof. intros H. simpl. by rewrite H. Qed.

Lemma split_ws_blank p s : blank p → split_ws (p ++ s) = split_ws s.
Proof.
  induction 1 as [|c p Hc _ IH]; [done|].
  rewrite <- app_comm_cons, split_ws_space by done. exact IH.
Qed.

Lemma split_ws_all_blank s : blank s → split_ws s = [].
Proof. intros H. rewrite <- (app_nil_r s). by rewrite split_ws_blank. Qed.

(** A word is split off when the text after it is empty or starts with
    white space. *)
Lemma split_ws_word w s :
  word w → (s = [] ∨ ∃ c s', s = c :: s' ∧ is_space c = true) →
  split_ws (w ++ s) = w :: split_ws s.
Proof.
  intros [Hne Hw] Hs. induction Hw as [|c w Hc Hw IH]; [done|]. clear Hne.
  rewrite <- app_comm_cons. cbn [split_ws]. rewrite Hc.
  destruct w as [|d w].
  - cbn [app]. destruct Hs as [->|(x & s' & -> & Hx)]; [done|].
    rewrite Hx. done.
  - apply Forall_cons in Hw as Hd. destruct Hd as [Hd _].
    rewrite <- app_comm_cons, Hd. rewrite app_comm_cons, IH by done. done.
Qed.

Lemma split_ws_words s : Forall word (split_ws s).
Proof.
  induction s as [|c s IH]; [constructor|]. cbn [split_ws].
  destruct (is_space c) eqn:Hc; [done|].
  assert (word [c]) as Hw1 by (split; [done|by constructor]).
  destruct s as [|d s]; [by constructor|].
  destruct (is_space d) eqn:Hd; [by constructor|].
  destruct (split_ws (d :: s)) as [|w ws]; [by constructor|].
  apply Forall_cons in IH as [[_ Hw] Hws]. constructor; [|done].
  split; [done|by constructor].
Qed.

Lemma get_terminal_width_two p1 rows sep cols p2 :
  blank p1 → word rows → blank sep → sep ≠ [] → word cols → blank p2 →
  get_terminal_width (p1 ++ rows ++ sep ++ cols ++ p2) = inr cols.
Proof.
  intros H1 Hr Hs Hne Hc H2. unfold get_terminal_width.
  rewrite split_ws_blank by done.
  rewrite split_ws_word; [|done|].
  - rewrite split_ws_blank by done. rewrite split_ws_word; [|done|].
    + by rewrite split_ws_all_blank.
    + destruct H2 as [|c p2 Hc2 _]; [by left|right; eauto].
  - right. destruct Hs as [|c sep Hc1 _]; [done|]. eauto.
Qed.

Lemma get_terminal_width_blank s :
  blank s → get_terminal_width s = inl ValueError.
Proof. intros H. unfold get_terminal_width. by rewrite split_ws_all_blank. Qed.

Lemma get_terminal_width_one p1 w p2 :
  blank p1 → word w → blank p2 →
  get_terminal_width (p1 ++ w ++ p2) = inl ValueError.
Proof.
  intros H1 Hw H2. unfold get_terminal_width.
  rewrite split_ws_blank by done. rewrite split_ws_word; [|done|].
  - by rewrite split_ws_all_blank.
  - destruct H2 as [|c p2 Hc2 _]; [by left|right; eauto].
Qed.

Lemma get_terminal_width_word s w : get_terminal_width s = inr w → word w.
Proof.
  unfold get_terminal_width. pose proof (split_ws_words s) as H.
  destruct (split_ws s) as [|r [|c [|]]]; try done. intros [= <-].
  by apply Forall_cons in H as [_ [? _]%Forall_cons].
Qed.
End Words.

Section Prompts.
Import Tty.
Implicit Types (s line rest prompt : pystr) (out : list event).

Lemma first_line_newline line rest :
  "010"%char ∉ line →
  first_line (line ++ "010"%char :: rest) = (line ++ ["010"%char], rest).
Proof.
  induction line as [|c line IH]; [done|].
  intros [Hc Hl]%not_elem_of_cons. simpl.
  rewrite decide_False by done. by rewrite IH.
Qed.

Lemma first_line_end s : "010"%char ∉ s → first_line s = (s, []).
Proof.
  induction s as [|c s IH]; [done|].
  intros [Hc Hl]%not_elem_of_cons. simpl.
  rewrite decide_False by done. by rewrite IH.
Qed.

(** One line is read, and the text after it is left. *)
Lemma prompt_user_line prompt line rest out :
  "010"%char ∉ line →
  prompt_user prompt (State (line ++ "010"%char :: rest) out)
    = (State rest (out ++ [Write prompt; Flush]), strip line).
Proof.
  intros H. unfold prompt_user, bind, write, flush, readline, ret. cbn [stdin stdout].
  rewrite first_line_newline by done.
  by rewrite strip_space_r, <- app_assoc.
Qed.

(** At the end of the input what is left is the answer. *)
Lemma prompt_user_end prompt s out :
  "010"%char ∉ s →
  prompt_user prompt (State s out)
    = (State [] (out ++ [Write prompt; Flush]), strip s).
Proof.
  intros H. unfold prompt_user, bind, write, flush, readline, ret. cbn [stdin stdout].
  rewrite first_line_end by done. by rewrite <- app_assoc.
Qed.

Lemma first_line_shape s :
  (∃ line, "010"%char ∉ line ∧ (first_line s).1 = line ++ ["010"%char]) ∨
  "010"%char ∉ (first_line s).1.
Proof.
  induction s as [|c s IH]; [right; apply not_elem_of_nil|]. simpl.
  destruct (decide (c = "010"%char)) as [->|Hc].
  - left. exists []. split; [apply not_elem_of_nil|done].
  - destruct (first_line s) as [l r]. cbn [fst] in *.
    destruct IH as [(line & Hl & ->)|Hl].
    + left. exists (c :: line). split; [|done]. by apply not_elem_of_cons.
    + right. by apply not_elem_of_cons.
Qed.

(** The answer is trimmed and holds no newline. *)
Lemma prompt_user_answer prompt st :
  trimmed (prompt_user prompt st).2 ∧ "010"%char ∉ (prompt_user prompt st).2.
Proof.
  unfold prompt_user, bind, write, flush, readline, ret. cbn [stdin stdout].
  pose proof (first_line_shape (stdin st)) as H.
  destruct (first_line (stdin st)) as [l r]. cbn [fst snd] in *.
  split; [apply strip_trimmed|].
  destruct H as [(line & Hl & ->)|Hl].
  - rewrite strip_space_r by done. by intros ?%strip_subseteq.
  - by intros ?%strip_subseteq.
Qed.

Lemma lower_char_y c : lower_char c = "y"%char ↔ c = "y"%char ∨ c = "Y"%char.
Proof.
  split; [|by intros [->| ->]].
  destruct c as [[] [] [] [] [] [] [] []]; vm_compute; (discriminate || auto).
Qed.

Lemma lower_char_e c : lower_char c = "e"%char ↔ c = "e"%char ∨ c = "E"%char.
Proof.
  split; [|by intros [->| ->]].
  destruct c as [[] [] [] [] [] [] [] []]; vm_compute; (discriminate || auto).
Qed.

Lemma lower_char_s c : lower_char c = "s"%char ↔ c = "s"%char ∨ c = "S"%char.
Proof.
  split; [|by intros [->| ->]].
  destruct c as [[] [] [] [] [] [] [] []]; vm_compute; (discriminate || auto).
Qed.

Lemma lower_yes a :
  lower a = str "y" ∨ lower a = str "yes" ↔ a ∈ yes_answers.
Proof.
  unfold yes_answers. split.
  - intros [H|H].
    + destruct a as [|c [|]]; try done. injection H as H%lower_char_y.
      destruct H as [->| ->]; set_solver.
    + destruct a as [|c1 [|c2 [|c3 [|]]]]; try done.
      injection H as H1%lower_char_y H2%lower_char_e H3%lower_char_s.
      destruct H1 as [->| ->], H2 as [->| ->], H3 as [->| ->]; set_solver.
  - intros H. repeat (apply elem_of_cons in H as [->|H]; [by auto|]).
    by apply elem_of_nil in H.
Qed.

Lemma confirm_answer a :
  bool_decide (lower (strip a) = str "y") || bool_decide (lower (strip a) = str "yes")
  = bool_decide (strip a ∈ yes_answers).
Proof.
  apply eq_true_iff_eq. rewrite orb_true_iff, !bool_decide_eq_true.
  apply lower_yes.
Qed.

Lemma confirm_user_line prompt line rest out :
  "010"%char ∉ line →
  confirm_user prompt (State (line ++ "010"%char :: rest) out)
    = (State rest (out ++ [Write (prompt ++ str " [y/N]: "); Flush]),
       bool_decide (strip line ∈ yes_answers)).
Proof.
  intros H. unfold confirm_user, bind. rewrite prompt_user_line by done.
  unfold ret. by rewrite strip_idem, confirm_answer.
Qed.

Lemma confirm_user_end prompt s out :
  "010"%char ∉ s →
  confirm_user prompt (State s out)
    = (State [] (out ++ [Write (prompt ++ str " [y/N]: "); Flush]),
       bool_decide (strip s ∈ yes_answers)).
Proof.
  intros H. unfold confirm_user, bind. rewrite prompt_user_end by done.
  unfold ret. by rewrite strip_idem, confirm_answer.
Qed.

Lemma prompt_for_tags_line prompt line rest out :
  "010"%char ∉ line →
  prompt_for_tags prompt (State (line ++ "010"%char :: rest) out)
    = (State rest (out ++ [Write prompt; Flush]), parse_tags line).
Proof.
  intros H. unfold prompt_for_tags, bind. rewrite prompt_user_line by done.
  unfold ret. by rewrite parse_tags_strip.
Qed.

Lemma prompt_for_tags_end prompt s out :
  "010"%char ∉ s →
  prompt_for_tags prompt (State s out)
    = (State [] (out ++ [Write prompt; Flush]), parse_tags s).
Proof.
  intros H. unfold prompt_for_tags, bind. rewrite prompt_user_end by done.
  unfold ret. by rewrite parse_tags_strip.
Qed.
End Prompts.

Section Grows.
Import FS.
Implicit Types (r n m : node).

Lemma same_kind_trans n m k : same_kind n m → same_kind m k → same_kind n k.
Proof. destruct n, m, k; simpl; try done. congruence. Qed.

Lemma grows_refl r : grows r r.
Proof. intros p n H. eauto using same_kind_refl. Qed.

Lemma grows_trans r1 r2 r3 : grows r1 r2 → grows r2 r3 → grows r1 r3.
Proof.
  intros H1 H2 p n Hp. destruct (H1 p n Hp) as (n1 & Hp1 & K1).
  destruct (H2 p n1 Hp1) as (n2 & Hp2 & K2). eauto using same_kind_trans.
Qed.

Lemma grows_add_entry name x r dir : grows r (add_entry name x r dir).
Proof. intros p n. apply get_add_entry. Qed.

Lemma grows_at_dir r r' cur : grows r r' → at_dir r cur → at_dir r' cur.
Proof.
  intros H [es Hes]. destruct (H _ _ Hes) as (n' & Hn' & K).
  destruct n' as [| |es']; try done. by exists es'.
Qed.
End Grows.

Section Frames.
Import FS Sys.
Implicit Types (s : state).

Lemma keeps_ret {A} (a : A) : keeps (ret a).
Proof. intros s s' r [= <- <-]. apply grows_refl. Qed.

Lemma keeps_raise {A} e : keeps (raise (A := A) e).
Proof. intros s s' r [= <- <-]. apply grows_refl. Qed.

Lemma keeps_query {A} (f : node → A) : keeps (query f).
Proof. intros s s' r [= <- <-]. apply grows_refl. Qed.

Lemma keeps_print line : keeps (print line).
Proof. intros s s' r [= <- <-]. apply grows_refl. Qed.

Lemma keeps_print_exc e : keeps (print_exc e).
Proof. intros s s' r [= <- <-]. apply grows_refl. Qed.

Lemma keeps_bind {A B} (m : M A) (k : A → M B) :
  keeps m → (∀ a, keeps (k a)) → keeps (bind m k).
Proof.
  intros Hm Hk s s' r. unfold bind.
  destruct (m s) as [s1 [e|a]] eqn:E.
  - intros [= <- <-]. by eapply Hm.
  - intros H. apply Hk in H. apply Hm in E. by eapply grows_trans.
Qed.

Lemma keeps_try {A} (m : M A) (h : exn → M A) :
  keeps m → (∀ e, keeps (h e)) → keeps (try_except m h).
Proof.
  intros Hm Hh s s' r. unfold try_except.
  destruct (m s) as [s1 [e|a]] eqn:E.
  - intros H. apply Hh in H. apply Hm in E. by eapply grows_trans.
  - intros [= <- <-]. by eapply Hm.
Qed.

Lemma keeps_syscall (g : node → exn + node) :
  (∀ r r', g r = inr r' → grows r r') → keeps (syscall g).
Proof.
  intros Hg s s' r. unfold syscall.
  destruct (g (root s)) as [e|r'] eqn:E; intros [= <- <-].
  - apply grows_refl.
  - by apply Hg.
Qed.

Lemma silent_ret {A} (a : A) : silent (ret a).
Proof. by intros s s' r [= <- <-]. Qed.

Lemma silent_raise {A} e : silent (raise (A := A) e).
Proof. by intros s s' r [= <- <-]. Qed.

Lemma silent_query {A} (f : node → A) : silent (query f).
Proof. by intros s s' r [= <- <-]. Qed.

Lemma silent_syscall (g : node → exn + node) : silent (syscall g).
Proof.
  intros s s' r. unfold syscall.
  by destruct (g (root s)) as [e|r'] eqn:E; intros [= <- <-].
Qed.

Lemma silent_bind {A B} (m : M A) (k : A → M B) :
  silent m → (∀ a, silent (k a)) → silent (bind m k).
Proof.
  intros Hm Hk s s' r. unfold bind.
  destruct (m s) as [s1 [e|a]] eqn:E.
  - intros [= <- <-]. by eapply Hm.
  - intros H. apply Hk in H. apply Hm in E. destruct H, E. split; congruence.
Qed.

Lemma silent_try {A} (m : M A) (h : exn → M A) :
  silent m → (∀ e, silent (h e)) → silent (try_except m h).
Proof.
  intros Hm Hh s s' r. unfold try_except.
  destruct (m s) as [s1 [e|a]] eqn:E.
  - intros H. apply Hh in H. apply Hm in E. destruct H, E. split; congruence.
  - intros [= <- <-]. by eapply Hm.
Qed.

Lemma os_mkdir_grows p r r' : os_mkdir p r = inr r' → grows r r'.
Proof.
  unfold os_mkdir. destruct (resolve r false _) as [e|[real n|dir name tr]];
    simpl; try done.
  intros [= <-]. apply (grows_add_entry name (Dir [])).
Qed.

Lemma os_symlink_grows t p r r' : os_symlink t p r = inr r' → grows r r'.
Proof.
  unfold os_symlink. destruct (contains "000" t); [done|].
  destruct (resolve r false p) as [e|[real n|dir name [|]]]; simpl; try done;
    destruct (bool_decide (t = [])); try done.
  intros [= <-]. apply (grows_add_entry name (Symlink t)).
Qed.

Lemma makedirs_keeps fuel name : keeps (makedirs fuel name).
Proof.
  revert name. induction fuel as [|fuel IH]; intros name; [apply keeps_raise|].
  cbn [makedirs]. destruct (Path.split name) as [head tail].
  destruct (if bool_decide (tail = []) then Path.split head else (head, tail))
    as [head' tail'].
  apply keeps_bind; [apply keeps_query|]. intros ex.
  apply keeps_bind.
  - destruct (_ && _); [|apply keeps_ret].
    apply keeps_bind; [|intros; apply keeps_ret].
    apply keeps_try; [apply IH|].
    intros e. destruct (decide _); [apply keeps_ret|apply keeps_raise].
  - intros [|]; [apply keeps_ret|].
    apply keeps_try; [apply keeps_syscall, os_mkdir_grows|].
    intros e. destruct (is_OSError e); [|apply keeps_raise].
    apply keeps_bind; [apply keeps_query|].
    intros [|]; [apply keeps_ret|apply keeps_raise].
Qed.

Lemma makedirs_silent fuel name : silent (makedirs fuel name).
Proof.
  revert name. induction fuel as [|fuel IH]; intros name; [apply silent_raise|].
  cbn [makedirs]. destruct (Path.split name) as [head tail].
  destruct (if bool_decide (tail = []) then Path.split head else (head, tail))
    as [head' tail'].
  apply silent_bind; [apply silent_query|]. intros ex.
  apply silent_bind.
  - destruct (_ && _); [|apply silent_ret].
    apply silent_bind; [|intros; apply silent_ret].
    apply silent_try; [apply IH|].
    intros e. destruct (decide _); [apply silent_ret|apply silent_raise].
  - intros [|]; [apply silent_ret|].
    apply silent_try; [apply silent_syscall|].
    intros e. destruct (is_OSError e); [|apply silent_raise].
    apply silent_bind; [apply silent_query|].
    intros [|]; [apply silent_ret|apply silent_raise].
Qed.

(** Whatever its outcome, [tag_paper] removes nothing: what was in the
    tree is still there, and of the same kind. *)
Lemma tag_paper_keeps tag_dir bib ck tag : keeps (tag_paper tag_dir bib ck tag).
Proof.
  unfold tag_paper. apply keeps_bind; [apply makedirs_keeps|]. intros _.
  apply keeps_try.
  - apply keeps_bind; [|intros; apply keeps_ret].
    apply keeps_syscall, os_symlink_grows.
  - intros e. destruct (decide _); [apply keeps_ret|].
    apply keeps_bind; [apply keeps_print|]. intros _.
    apply keeps_bind; [apply keeps_print_exc|]. intros _. apply keeps_raise.
Qed.
End Frames.

Section NoFileExists.
Import Path FS.
Context (r : node).

(** Path resolution never fails with [FileExistsError]. *)
Lemma walk_not_exists follow fuel cur rest :
  walk r follow fuel cur rest ≠ inl FileExistsError.
Proof.
  revert cur rest.
  induction fuel as [|fuel IHf]; intros cur rest; revert cur;
    (induction rest as [|c rest IHr]; intros cur;
      [rewrite walk_nil; by destruct (get r cur)|rewrite walk_cons]).
  all: destruct (_ || _); [by apply IHr|].
  all: destruct (bool_decide (c = str "..")); [by apply IHr|].
  all: destruct (get r (cur ++ [c])) as [[|t|es]|] eqn:E.
  all: try (by destruct (bool_decide (rest = []))).
  all: try (by apply IHr).
  all: try (by destruct (forallb _ rest)).
  - by destruct (_ && _).
  - destruct (_ && _); [done|]. destruct (bool_decide (t = [])); [done|]. apply IHf.
Qed.

Lemma resolve_not_exists follow p : resolve r follow p ≠ inl FileExistsError.
Proof.
  unfold resolve. destruct (contains _ p); [done|].
  destruct (bool_decide _); [done|]. apply walk_not_exists.
Qed.

(** A name is reported free only in a directory that does not hold it. *)
Lemma walk_missing follow fuel cur rest dir name tr :
  at_dir r cur →
  walk r follow fuel cur rest = inr (Missing dir name tr) →
  ∃ es, get r dir = Some (Dir es) ∧ find_entry name es = None.
Proof.
  revert cur rest.
  induction fuel as [|fuel IHf]; intros cur rest; revert cur;
    (induction rest as [|c rest IHr]; intros cur Hcur;
      [rewrite walk_nil; by destruct (get r cur)|rewrite walk_cons]).
  all: destruct (_ || _); [by apply IHr|].
  all: destruct (bool_decide (c = str ".."));
    [intros; by eapply IHr; [apply at_dir_removelast|]|].
  all: destruct (get r (cur ++ [c])) as [[|t|es]|] eqn:E.
  all: try (by destruct (bool_decide (rest = []))).
  all: try (intros; eapply IHr; [by eexists|done]).
  all: try (by destruct (_ && _)).
  all: try (destruct (forallb _ rest); [|done]; intros [= <- <- <-];
            destruct Hcur as [es Hes]; exists es; split; [done|];
            by rewrite get_snoc, Hes in E).
  destruct (_ && _); [done|]. destruct (bool_decide (t = [])); [done|].
  intros; eapply IHf; [by apply at_dir_target|done].
Qed.
End NoFileExists.

Section TagPaperResult.
Import Path FS Sys.
Implicit Types (s : state).

Lemma os_symlink_made t p r r' :
  at_dir r [] →
  os_symlink t p r = inr r' → lstat r' p = inr (Symlink t).
Proof.
  intros Hroot. unfold os_symlink. destruct (contains "000" t); [done|].
  destruct (resolve r false p) as [e|[real n|dir name [|]]] eqn:Hres; simpl;
    try done; destruct (bool_decide (t = [])); try done.
  intros [= <-].
  apply resolve_walk in Hres as (Hc & Hne & Hw).
  apply (walk_new_link _ _ t) in Hw; [|done]. unfold add_entry in Hw.
  unfold lstat, resolve. apply contains_false in Hc.
  by rewrite Hc, bool_decide_eq_false_2, Hw.
Qed.

Lemma os_symlink_exists t p r :
  os_symlink t p r = inl FileExistsError → ∃ n, lstat r p = inr n.
Proof.
  unfold os_symlink, lstat. destruct (contains "000" t); [done|].
  pose proof (resolve_not_exists r false p) as Hn.
  destruct (resolve r false p) as [e|[real n|dir name [|]]] eqn:Hres; simpl.
  - intros [= ->]. done.
  - eauto.
  - by destruct (bool_decide (t = [])).
  - by destruct (bool_decide (t = [])).
Qed.

(** What [tag_paper] has done when it returns. *)
Lemma tag_paper_returns tag_dir bib ck tag s s' b :
  tag_paper tag_dir bib ck tag s = (s', inr b) →
  ∃ s1,
    os_makedirs (join tag_dir tag) s = (s1, inr tt) ∧
    if b then
      ∃ r2, os_symlink (ck_to_pdf bib ck) (link_path tag_dir tag ck) (root s1)
              = inr r2 ∧
            s' = State r2 (stdout s1) (stderr s1)
    else
      os_symlink (ck_to_pdf bib ck) (link_path tag_dir tag ck) (root s1)
        = inl FileExistsError ∧ s' = s1.
Proof.
  unfold tag_paper, bind at 1.
  destruct (os_makedirs (join tag_dir tag) s) as [s1 [e|[]]] eqn:Hmk; [done|].
  intros H. exists s1. split; [done|]. revert H.
  unfold try_except, bind, syscall, ck_to_pdf, link_path.
  destruct (os_symlink _ _ (root s1)) as [e|r2] eqn:Hs.
  - destruct (decide (e = FileExistsError)) as [->|]; [|done].
    by intros [= <- <-].
  - intros [= <- <-]. eauto.
Qed.

Lemma tag_paper_link tag_dir bib ck tag s s' b :
  is_dir (root s) →
  tag_paper tag_dir bib ck tag s = (s', inr b) →
  stdout s' = stdout s ∧ stderr s' = stderr s ∧
  ∃ n, lstat (root s') (link_path tag_dir tag ck) = inr n ∧
       (b = true → n = Symlink (ck_to_pdf bib ck)).
Proof.
  intros Hd (s1 & Hmk & H)%tag_paper_returns.
  destruct (makedirs_silent _ _ _ _ _ Hmk) as [Ho He].
  pose proof (makedirs_keeps _ _ _ _ _ Hmk) as Hg.
  assert (at_dir (root s1) []) as Hroot.
  { apply (grows_at_dir (root s)); [done|].
    destruct (root s) as [| |es]; try done. by exists es. }
  destruct b.
  - destruct H as (r2 & Hs & ->). cbn [stdout stderr root].
    split; [done|]. split; [done|].
    exists (Symlink (ck_to_pdf bib ck)). split; [|done].
    by eapply os_symlink_made.
  - destruct H as [Hs ->]. split; [done|]. split; [done|].
    destruct (os_symlink_exists _ _ _ Hs) as [n Hn]. by exists n.
Qed.
End TagPaperResult.

Section Removal.
Import Path FS Sys.
Implicit Types (n m : node) (p dir real : list pystr) (es : list (pystr * node)).

Lemma find_entry_None name es :
  find_entry name es = None ↔ Forall (λ e, e.1 ≠ name) es.
Proof.
  induction es as [|[k n] es IH]; simpl; [by split; [constructor|]|].
  destruct (decide (k = name)) as [->|Hk].
  - split; [done|]. by intros [? _]%Forall_cons.
  - rewrite IH. split; [by constructor|by intros [_ ?]%Forall_cons].
Qed.

Lemma find_entry_filter c name es :
  c ≠ name → find_entry c (filter (λ e, e.1 ≠ name) es) = find_entry c es.
Proof.
  intros Hc. induction es as [|[k n] es IH]; [done|].
  destruct (decide (k = name)) as [->|Hk].
  - rewrite filter_cons_False by (simpl; auto). simpl.
    by rewrite decide_False by done.
  - rewrite filter_cons_True by done. simpl. by rewrite IH.
Qed.

Lemma find_entry_filter_self name es :
  find_entry name (filter (λ e, e.1 ≠ name) es) = None.
Proof.
  apply find_entry_None, Forall_forall. by intros e [? _]%list_elem_of_filter.
Qed.

Lemma update_kind (k : list (pystr * node) → list (pystr * node)) n dir :
  same_kind n (update k n dir).
Proof. destruct n; try done. by destruct dir. Qed.

Lemma get_app n p q : get n (p ++ q) = get n p ≫= λ m, get m q.
Proof.
  revert n. induction p as [|c p IH]; intros n; [done|]. simpl.
  destruct n as [| |es]; try done. destruct (find_entry c es); [apply IH|done].
Qed.

(** What is not at the removed place or below it stays. *)
Lemma get_rm_other name n dir p m :
  ¬ (dir ++ [name]) `prefix_of` p →
  get n p = Some m →
  ∃ m', get (update (filter (λ e, e.1 ≠ name)) n dir) p = Some m' ∧ same_kind m m'.
Proof.
  revert n dir. induction p as [|c p IH]; intros n dir Hp.
  { intros [= <-]. eexists. split; [done|]. apply update_kind. }
  destruct n as [| |es]; try done. rewrite get_cons.
  destruct (find_entry c es) as [m1|] eqn:E; [|done]. intros Hg.
  destruct dir as [|c0 dir].
  - cbn [update]. rewrite get_cons, find_entry_filter, E; [eauto using same_kind_refl|].
    intros ->. apply Hp. by exists p.
  - cbn [update]. rewrite get_cons.
    rewrite (find_entry_map c c0 (λ m, update (filter (λ e, e.1 ≠ name)) m dir)), E.
    cbn [fmap option_fmap option_map].
    destruct (decide (c = c0)) as [->|]; [|eauto using same_kind_refl].
    apply IH; [|done]. intros [k Hk]. apply Hp. exists k. simpl. by rewrite Hk.
Qed.

Lemma get_rm_self name n dir :
  get (update (filter (λ e, e.1 ≠ name)) n dir) (dir ++ [name]) = None.
Proof.
  revert n. induction dir as [|c dir IH]; intros n.
  - destruct n as [| |es]; try done. cbn [update app]. rewrite get_cons.
    by rewrite find_entry_filter_self.
  - destruct n as [| |es]; try done. cbn [update app]. rewrite get_cons.
    rewrite (find_entry_map c c (λ m, update (filter (λ e, e.1 ≠ name)) m dir)).
    destruct (find_entry c es); [|done]. cbn [fmap option_fmap option_map].
    rewrite decide_True by done. apply IH.
Qed.

Lemma real_split real n r :
  at_dir r [] → get r real = Some n → ¬ is_dir n →
  real = parent real ++ [basename real].
Proof.
  intros [es Hes] Hg Hn. unfold parent, basename.
  destruct real as [|c real] using rev_ind.
  - simpl in *. rewrite Hes in Hg. injection Hg as <-. by destruct Hn.
  - by rewrite removelast_last, last_snoc.
Qed.

Lemma rm_entry_self real n r :
  at_dir r [] → get r real = Some n → ¬ is_dir n →
  get (rm_entry real r) real = None.
Proof.
  intros Hr Hg Hn. rewrite (real_split real n r Hr Hg Hn) at 2.
  apply get_rm_self.
Qed.

Lemma rm_entry_other real n r p m :
  at_dir r [] → get r real = Some n → ¬ is_dir n →
  p ≠ real → get r p = Some m →
  ∃ m', get (rm_entry real r) p = Some m' ∧ same_kind m m'.
Proof.
  intros Hr Hg Hn Hp Hm. apply get_rm_other; [|done].
  rewrite <- (real_split real n r Hr Hg Hn). intros [k ->].
  rewrite get_app, Hg in Hm. simpl in Hm.
  destruct k as [|c k]; [by rewrite app_nil_r in Hp|].
  by destruct n.
Qed.

(** Once the entry is removed, its path leads nowhere. *)
Lemma walk_rm r fuel cur rest real n :
  at_dir r [] → at_dir r cur → ¬ is_dir n →
  walk r false fuel cur rest = inr (Found real n) →
  walk (rm_entry real r) false fuel cur rest = inl FileNotFoundError ∨
  ∃ d nm tr, walk (rm_entry real r) false fuel cur rest = inr (Missing d nm tr).
Proof.
  intros Hroot Hcur Hn Hw. pose proof (walk_found _ _ _ _ _ _ _ Hw) as Hg.
  revert cur rest Hcur Hw.
  induction fuel as [|fuel IHf]; intros cur rest; revert cur;
    (induction rest as [|c rest IHr]; intros cur Hcur;
      [rewrite walk_nil; destruct Hcur as [es Hes]; rewrite Hes;
       intros [= <- <-]; by destruct Hn|rewrite !walk_cons]).
  all: destruct (_ || _); [by apply IHr|].
  all: destruct (bool_decide (c = str ".."));
    [intros; by apply IHr; [apply at_dir_removelast|]|].
  all: destruct (decide (cur ++ [c] = real)) as [<-|Hne];
    [intros _; rewrite (rm_entry_self _ n) by done;
     destruct (forallb _ rest); eauto|].
  all: destruct (get r (cur ++ [c])) as [m|] eqn:E;
    [|by destruct (forallb _ rest)].
  all: destruct (rm_entry_other real n r _ _ Hroot Hg Hn Hne E) as (m' & -> & Hk).
  all: destruct m as [|t|es], m' as [|t'|es']; try done; simpl in Hk; subst.
  all: try (destruct (bool_decide (rest = [])); [intros [= ? ?]; congruence|done]).
  all: try (intros; apply IHr; [by eexists|done]).
  all: (destruct (_ && _); [intros [= ? ?]; congruence|]); try done.
  destruct (bool_decide (t' = [])); [done|].
  intros; apply IHf; [by apply at_dir_target|done].
Qed.

Lemma lstat_rm r (path : pystr) real n :
  at_dir r [] → ¬ is_dir n →
  resolve r false path = inr (Found real n) →
  lstat (rm_entry real r) path = inl FileNotFoundError.
Proof.
  intros Hroot Hn (Hc & Hne & Hw)%resolve_walk.
  unfold lstat, resolve. apply contains_false in Hc.
  rewrite Hc, bool_decide_eq_false_2 by done.
  by destruct (walk_rm r _ _ _ _ _ Hroot Hroot Hn Hw) as [->|(d & nm & tr & ->)].
Qed.

Lemma exists_lstat r (path : pystr) :
  exists_ r path = true → ∃ real n, resolve r false path = inr (Found real n).
Proof.
  unfold exists_, stat. destruct (resolve r true path) as [e|[real n|]] eqn:E; try done.
  intros _. apply resolve_walk in E as (Hc & Hne & Hw).
  apply walk_nofollow in Hw as (real' & n' & Hw').
  exists real', n'. unfold resolve. apply contains_false in Hc.
  by rewrite Hc, bool_decide_eq_false_2.
Qed.

Lemma os_remove_found r (path : pystr) real n :
  resolve r false path = inr (Found real n) →
  os_remove path r = if n is Dir _ then inl IsADirectoryError else inr (rm_entry real r).
Proof. intros H. unfold os_remove. rewrite H. by destruct n. Qed.
End Removal.

Section Untag.
Import Path FS Sys.
Implicit Types (s : state).

Lemma untag_paper_run tag_dir ck tag s real n :
  exists_ (root s) (link_path tag_dir tag ck) = true →
  resolve (root s) false (link_path tag_dir tag ck) = inr (Found real n) →
  untag_paper tag_dir ck tag s =
    if n is Dir _ then (s, inl IsADirectoryError)
    else (State (rm_entry real (root s)) (stdout s) (stderr s), inr true).
Proof.
  intros He Hr. unfold untag_paper, bind, query. fold (link_path tag_dir tag ck).
  rewrite He. unfold syscall. rewrite (os_remove_found _ _ _ _ Hr).
  by destruct n.
Qed.

(** The path holds a directory: nothing is removed, [os.remove] fails. *)
Lemma untag_paper_directory tag_dir ck tag s es :
  exists_ (root s) (link_path tag_dir tag ck) = true →
  lstat (root s) (link_path tag_dir tag ck) = inr (Dir es) →
  untag_paper tag_dir ck tag s = (s, inl IsADirectoryError).
Proof.
  intros He [real Hr]%lstat_resolve.
  by rewrite (untag_paper_run _ _ _ _ _ _ He Hr).
Qed.

(** The path holds a file or a link whose target exists: the entry is
    removed, whatever it is, and nothing else. *)
Lemma untag_paper_removes tag_dir ck tag s n :
  is_dir (root s) →
  exists_ (root s) (link_path tag_dir tag ck) = true →
  lstat (root s) (link_path tag_dir tag ck) = inr n → ¬ is_dir n →
  ∃ real r',
    untag_paper tag_dir ck tag s = (State r' (stdout s) (stderr s), inr true) ∧
    get (root s) real = Some n ∧
    lstat r' (link_path tag_dir tag ck) = inl FileNotFoundError ∧
    get r' real = None ∧
    ∀ p m, p ≠ real → get (root s) p = Some m →
           ∃ m', get r' p = Some m' ∧ same_kind m m'.
Proof.
  intros Hd He [real Hr]%lstat_resolve Hn.
  assert (at_dir (root s) []) as Hroot.
  { destruct (root s) as [| |es]; try done. by exists es. }
  pose proof Hr as (_ & _ & Hg%walk_found)%resolve_walk.
  exists real, (rm_entry real (root s)). split; [|split; [done|split; [|split]]].
  - rewrite (untag_paper_run _ _ _ _ _ _ He Hr). by destruct n.
  - by eapply lstat_rm.
  - by eapply rm_entry_self.
  - intros p m. by eapply rm_entry_other.
Qed.
End Untag.

Section Unique.
Import Path FS Sys.
Implicit Types (n m : node) (p dir : list pystr) (es : list (pystr * node)).

Lemma unique_names_dir es :
  unique_names (Dir es) ↔ NoDup (map fst es) ∧ Forall (λ e, unique_names e.2) es.
Proof.
  cbn [unique_names]. apply and_iff_compat_l.
  induction es as [|e es IH]; [by split; [constructor|]|].
  rewrite Forall_cons, IH. done.
Qed.

Lemma find_entry_unique c es m e :
  NoDup (map fst es) → find_entry c es = Some m → e ∈ es → e.1 = c → e = (c, m).
Proof.
  induction es as [|[k n] es IH]; [by intros _ _ ?%elem_of_nil|].
  cbn [map fst]. intros [Hk Hnd]%NoDup_cons. simpl.
  destruct (decide (k = c)) as [->|Hkc].
  - intros [= ->] [->|Hin]%elem_of_cons He; [done|].
    exfalso. apply Hk. apply list_elem_of_fmap. exists e. by split.
  - intros Hf [->|Hin]%elem_of_cons He; [done|]. by apply IH.
Qed.

Lemma update_update (g h : list (pystr * node) → list (pystr * node)) n p :
  update g (update h n p) p = update (g ∘ h) n p.
Proof.
  revert n. induction p as [|c p IH]; intros n; destruct n as [| |es]; try done.
  cbn [update]. f_equal. rewrite map_map. apply map_ext. intros [k m]. cbn [fst snd].
  destruct (decide (k = c)) as [->|]; cbn [fst snd].
  - rewrite decide_True by done. by rewrite IH.
  - by rewrite decide_False by done.
Qed.

(** A change that leaves the entries of the one directory at [dir] as
    they are leaves the tree as it is. *)
Lemma update_unique_id (k : list (pystr * node) → list (pystr * node)) n dir es :
  unique_names n → get n dir = Some (Dir es) → k es = es → update k n dir = n.
Proof.
  revert n. induction dir as [|c dir IH]; intros n Hu.
  - intros [= ->] Hk. cbn [update]. by rewrite Hk.
  - destruct n as [| |es0]; try done. rewrite get_cons.
    destruct (find_entry c es0) as [m1|] eqn:E; [|done]. intros Hg Hk.
    apply unique_names_dir in Hu as [Hnd Hall]. cbn [update]. f_equal.
    rewrite <- (map_id es0) at 2. apply map_ext_in. intros e He%list_elem_of_In.
    destruct (decide (e.1 = c)) as [Hc|]; [|done].
    rewrite (find_entry_unique c es0 m1 e Hnd E He Hc). cbn [fst snd]. f_equal.
    apply IH; [|done..]. rewrite Forall_forall in Hall.
    apply (Hall (c, m1)). by apply find_entry_elem_of.
Qed.

Lemma rm_added name x r dir es :
  unique_names r → get r dir = Some (Dir es) → find_entry name es = None →
  rm_entry (dir ++ [name]) (add_entry name x r dir) = r.
Proof.
  intros Hu Hg Hf. unfold rm_entry, add_entry, parent, basename.
  rewrite removelast_last, last_snoc. cbn [default].
  rewrite update_update. apply (update_unique_id _ _ _ es); [done..|].
  cbn [compose]. rewrite filter_app, filter_cons_False, filter_nil, app_nil_r
    by (cbn [fst]; auto).
  apply find_entry_None in Hf. clear Hg.
  induction Hf as [|e es He _ IH]; [done|].
  by rewrite filter_cons_True, IH by done.
Qed.
End Unique.

Section RoundTrip.
Import Path FS Sys.
Implicit Types (s : state).

(** Tagging and then untagging, where the link leads to something:
    the tree is again what it was once the tag directory was made. *)
Lemma tag_untag tag_dir bib ck tag s s1 s2 :
  is_dir (root s) →
  os_makedirs (join tag_dir tag) s = (s1, inr tt) →
  unique_names (root s1) →
  tag_paper tag_dir bib ck tag s = (s2, inr true) →
  exists_ (root s2) (link_path tag_dir tag ck) = true →
  untag_paper tag_dir ck tag s2 = (s1, inr true).
Proof.
  intros Hd Hmk Hu (s1' & Hmk' & r2 & Hs & ->)%tag_paper_returns He.
  rewrite Hmk in Hmk'. injection Hmk' as <-. cbn [root] in He.
  assert (at_dir (root s1) []) as Hroot.
  { apply (grows_at_dir (root s)); [by eapply makedirs_keeps|].
    destruct (root s) as [| |es]; try done. by exists es. }
  revert Hs. unfold os_symlink. destruct (contains "000" _); [done|].
  destruct (resolve (root s1) false _) as [e|[real n|dir name [|]]] eqn:Hres;
    simpl; try done; destruct (bool_decide (_ = [])); try done.
  intros [= <-].
  apply resolve_walk in Hres as (Hc & Hne & Hw).
  destruct (walk_missing _ _ _ _ _ _ _ _ Hroot Hw) as (es & Hg & Hf).
  apply (walk_new_link _ _ (ck_to_pdf bib ck)) in Hw; [|done].
  assert (resolve (add_entry name (Symlink (ck_to_pdf bib ck)) (root s1) dir)
            false (link_path tag_dir tag ck)
          = inr (Found (dir ++ [name]) (Symlink (ck_to_pdf bib ck)))) as Hr.
  { unfold resolve. apply contains_false in Hc.
    by rewrite Hc, bool_decide_eq_false_2. }
  unfold add_entry in Hr.
  rewrite (untag_paper_run tag_dir ck tag
             (State (update (λ es, es ++ [(name, Symlink (ck_to_pdf bib ck))])
                       (root s1) dir) (stdout s1) (stderr s1)) _ _ He Hr).
  cbn [root stdout stderr].
  fold (add_entry name (Symlink (ck_to_pdf bib ck)) (root s1) dir).
  rewrite (rm_added _ _ _ _ es) by done. by destruct s1.
Qed.
End RoundTrip.

Section ListingOrder.

Lemma scans_listing os os' dir ck :
  same_listing os os' → scans os dir ck → scans os' dir ck.
Proof.
  intros [Hd Hl]. induction 1 as [d ns f k Hns Hf Hdir Hk|d ns f k Hns Hf Hdir _ IH].
  - destruct (Hl _ _ Hns) as (ns' & Hns' & Hp).
    eapply scans_file; [exact Hns'|by rewrite Hp|by rewrite <- Hd|done].
  - destruct (Hl _ _ Hns) as (ns' & Hns' & Hp).
    eapply scans_sub; [exact Hns'|by rewrite Hp|by rewrite <- Hd|done].
Qed.

(** The keys do not depend on the order in which the directories are
    listed. *)
Lemma list_cks_order os os' limit limit' dir l l' :
  same_listing os os' → same_listing os' os →
  list_cks os limit dir = inr l → list_cks os' limit' dir = inr l' → l = l'.
Proof.
  intros H1 H2 [Hs Hl]%list_cks_correct [Hs' Hl']%list_cks_correct.
  apply strict_sorted_unique; [done..|].
  intros ck. rewrite Hl, Hl'. split; by apply scans_listing.
Qed.
End ListingOrder.

Section UntaggedVerbosity.
Context (os : os_view).

Lemma find_tagged_pdfs_same limit root v v' :
  same_index (find_tagged_pdfs os limit root v) (find_tagged_pdfs os limit root v').
Proof. by apply helper_same. Qed.

Lemma find_tagged_pdfs_silent limit root v t :
  v ≤ 1 → find_tagged_pdfs os limit root v = inr t → printed t = [].
Proof. intros Hv H. by apply helper_silent in H. Qed.

Lemma find_tagged_pdfs_nonempty limit root v t ck ts :
  find_tagged_pdfs os limit root v = inr t → pdfs t !! ck = Some ts → ts ≠ [].
Proof. intros H. by eapply helper_nonempty; [|exact H]. Qed.

(** The untagged set does not depend on the verbosity, and nothing is
    printed below verbosity 2. *)
Lemma find_untagged_pdfs_same limit bib tags v v' u out :
  find_untagged_pdfs os limit bib tags v = inr (u, out) →
  ∃ out', find_untagged_pdfs os limit bib tags v' = inr (u, out').
Proof.
  unfold find_untagged_pdfs.
  pose proof (find_tagged_pdfs_same limit tags v v') as H. unfold same_index in H.
  destruct (find_tagged_pdfs os limit tags v) as [e|t]; [done|].
  destruct (find_tagged_pdfs os limit tags v') as [e'|t']; [done|]. simpl.
  destruct (list_cks os limit bib) as [e|cks]; [done|]. simpl.
  rewrite H. intros [= <- <-]. eauto.
Qed.

Lemma find_untagged_pdfs_silent limit bib tags v u out :
  v ≤ 1 → find_untagged_pdfs os limit bib tags v = inr (u, out) → out = [].
Proof.
  intros Hv. unfold find_untagged_pdfs.
  destruct (find_tagged_pdfs os limit tags v) as [e|t] eqn:Ht; [done|]. simpl.
  destruct (list_cks os limit bib) as [e|cks]; [done|]. simpl.
  destruct (Z.ltb_spec 2 v); [lia|]. intros [= _ <-].
  by eapply find_tagged_pdfs_silent.
Qed.
End UntaggedVerbosity.

Section PrintTags.
Context (os : os_view).

(** For a key: the tags of the key, or the empty list; the look-up of a
    key that has no tag is no error. *)
Lemma print_tags_key limit dir ck :
  print_tags os limit dir (Some ck) =
    match find_tagged_pdfs os limit dir 0 with
    | inl e => inl e
    | inr t => inr [Write (str "Tags: "); Print [VList (default [] (pdfs t !! ck))]]
    end.
Proof.
  unfold print_tags. destruct (find_tagged_pdfs os limit dir 0) as [e|t] eqn:E; [done|].
  simpl. rewrite (find_tagged_pdfs_silent os limit dir 0 t) by done.
  by destruct (pdfs t !! ck).
Qed.

Lemma print_tags_all limit dir :
  print_tags os limit dir None =
    match get_tags os limit dir [] with
    | inl e => inl e
    | inr tags => inr [Write (str "Tags: "); Print [VList tags]]
    end.
Proof. unfold print_tags. by destruct (get_tags os limit dir []). Qed.
End PrintTags.

Section UntagTwice.
Import Path FS Sys.
Implicit Types (s : state).

Lemma lstat_exists r (path : pystr) e :
  lstat r path = inl e → exists_ r path = false.
Proof.
  intros H. destruct (exists_ r path) eqn:He; [|done]. exfalso.
  apply exists_lstat in He as (real & n & Hr). unfold lstat in H.
  by rewrite Hr in H.
Qed.

(** Once the entry is removed, a second call finds nothing to remove. *)
Lemma untag_paper_twice tag_dir ck tag s s' :
  is_dir (root s) →
  untag_paper tag_dir ck tag s = (s', inr true) →
  untag_paper tag_dir ck tag s' = (s', inr false).
Proof.
  intros Hd H.
  destruct (exists_ (root s) (link_path tag_dir tag ck)) eqn:He; cycle 1.
  { by rewrite (untag_paper_absent _ _ _ _ He) in H. }
  destruct (exists_lstat _ _ He) as (real & n & Hr).
  rewrite (untag_paper_run _ _ _ _ _ _ He Hr) in H.
  assert (at_dir (root s) []) as Hroot.
  { destruct (root s) as [| |es0]; try done. by exists es0. }
  destruct n as [|t|es]; try done; injection H as <-;
    apply untag_paper_absent; cbn [root];
    apply (lstat_exists _ _ FileNotFoundError);
    (eapply lstat_rm; [done| |exact Hr]); by intros [].
Qed.
End UntagTwice.

Section IndexMembership.
Import Path.
Context (os : os_view).
Hypothesis Hnames : lists_names os.
Hypothesis Hcwd : startswith_sep (getcwd os) = true.

(** The traversal meets the links below the root, and nothing else. *)
Lemma tag_links_correct limit root cs links :
  tag_links os limit root cs = inr links →
  ∀ c f, (c, f) ∈ links ↔ link_in os root cs c f.
Proof.
  revert cs links. induction limit as [|limit IH]; intros cs links; [done|].
  intros (names & Hl & Hf)%tag_links_unfold c f.
  pose (I := λ (seen : list pystr) (acc : list (list pystr * pystr)),
          ∀ c f, (c, f) ∈ acc ↔
            ∃ x, x ∈ seen ∧
              (isdir os (join (subdir root cs) x) = false ∧
               islink os (join (subdir root cs) x) = true ∧ c = cs ∧ f = x ∨
               isdir os (join (subdir root cs) x) = true ∧
               link_in os root (cs ++ [x]) c f)).
  assert (I names links) as HI.
  { eapply (for_each_inv _ I); [| |exact Hf].
    - intros c' f'. split; [by intros ?%elem_of_nil|].
      by intros (x & ?%elem_of_nil & _).
    - intros seen x acc acc' Hacc Hx. cbv beta.
      destruct (isdir os (join (subdir root cs) x)) eqn:Hd.
      + destruct (tag_links os limit root (cs ++ [x])) as [e|sub] eqn:Hsub; [done|].
        simpl. intros [= <-] c' f'. rewrite elem_of_app, (Hacc c' f').
        rewrite (IH _ _ Hsub c' f'). split.
        * intros [(y & Hy & ?)|Hb].
          -- exists y. split; [apply elem_of_app; by left|done].
          -- exists x. split; [apply elem_of_app; right; by left|by right].
        * intros (y & [Hy| ->%list_elem_of_singleton]%elem_of_app & H).
          -- left. eauto.
          -- destruct H as [(? & _)|[_ ?]]; [congruence|by right].
      + destruct (islink os (join (subdir root cs) x)) eqn:Hk.
        * intros [= <-] c' f'.
          rewrite elem_of_app, list_elem_of_singleton, (Hacc c' f'). split.
          -- intros [(y & Hy & ?)|[= -> ->]].
             ++ exists y. split; [apply elem_of_app; by left|done].
             ++ exists x. split; [apply elem_of_app; right; by left|]. by left.
          -- intros (y & [Hy| ->%list_elem_of_singleton]%elem_of_app & H).
             ++ left. eauto.
             ++ destruct H as [(_ & _ & -> & ->)|[? _]]; [by right|congruence].
        * intros [= <-] c' f'. rewrite (Hacc c' f'). split.
          -- intros (y & Hy & ?). exists y. split; [apply elem_of_app; by left|done].
          -- intros (y & [Hy| ->%list_elem_of_singleton]%elem_of_app & H); [eauto|].
             destruct H as [(_ & ? & _)|[? _]]; congruence. }
  rewrite (HI c f). split.
  - intros (x & Hx & [(Hd & Hk & -> & ->)|[Hd Hin]]).
    + by eapply link_here.
    + by eapply link_deeper.
  - intros H. inversion H as [cs' ns x Hl' Hx Hd Hk|cs' ns d c' f' Hl' Hx Hd Hin];
      subst; rewrite Hl in Hl'; injection Hl' as <-.
    + exists f. split; [done|]. by left.
    + exists d. split; [done|]. by right.
Qed.

Lemma tags_of_elem ck links tag :
  tag ∈ tags_of ck links ↔
  ∃ c f, (c, f) ∈ links ∧ lower (splitext f).2 = str ".pdf" ∧
         (splitext f).1 = ck ∧ tag = tag_name c.
Proof.
  unfold tags_of. rewrite list_elem_of_omap. split.
  - intros ([c f] & Hin & H). exists c, f. split; [done|]. cbn [fst snd] in H.
    destruct (splitext f) as [k ext]. cbn [fst snd].
    destruct (bool_decide (lower ext = str ".pdf")) eqn:E1; [|done].
    destruct (bool_decide (k = ck)) eqn:E2; [|done].
    apply bool_decide_eq_true in E1, E2. by injection H as <-.
  - intros (c & f & Hin & He & Hk & ->). exists (c, f). split; [done|].
    cbn [fst snd]. destruct (splitext f) as [k ext]. cbn [fst snd] in *.
    by rewrite !bool_decide_eq_true_2 by done.
Qed.

(** A key has a tag in the index exactly for a link of its name below
    the root. *)
Lemma index_membership limit root v t ck tag :
  root ≠ [] →
  find_tagged_pdfs os limit root v = inr t →
  (∃ ts, pdfs t !! ck = Some ts ∧ tag ∈ ts) ↔
  ∃ c f, link_in os root [] c f ∧ lower (splitext f).2 = str ".pdf" ∧
         (splitext f).1 = ck ∧ tag = tag_name c.
Proof.
  intros Hr Ht.
  destruct (find_tagged_pdfs_correct os Hnames Hcwd limit root v t Hr Ht)
    as (links & Hl & Hidx).
  rewrite Hidx. transitivity (tag ∈ tags_of ck links).
  - destruct (tags_of ck links) as [|x xs].
    + split; [by intros (ts & ? & _)|by intros ?%elem_of_nil].
    + split; [by intros (ts & [= <-] & ?)|eauto].
  - rewrite tags_of_elem. split.
    + intros (c & f & Hin & H). exists c, f. split; [|done].
      by apply (tag_links_correct limit root [] links Hl).
    + intros (c & f & Hin & H). exists c, f. split; [|done].
      by apply (tag_links_correct limit root [] links Hl).
Qed.
End IndexMembership.

Section PrintTagsSpec.
Import Path.
Context (os : os_view).
Hypothesis Hnames : lists_names os.
Hypothesis Hcwd : startswith_sep (getcwd os) = true.

(** For a key, what is printed is the list of the tags of its links, in
    the order of the traversal. *)
Lemma print_tags_key_links limit root ck links :
  root ≠ [] → tag_links os limit root [] = inr links →
  print_tags os limit root (Some ck)
    = inr [Write (str "Tags: "); Print [VList (tags_of ck links)]].
Proof.
  intros Hr Hl.
  destruct (find_tagged_pdfs_returns os Hnames Hcwd limit root 0 links Hr Hl)
    as [t Ht].
  destruct (find_tagged_pdfs_correct os Hnames Hcwd limit root 0 t Hr Ht)
    as (links' & Hl' & Hidx).
  rewrite Hl in Hl'. injection Hl' as <-.
  rewrite print_tags_key, Ht, Hidx. by destruct (tags_of ck links).
Qed.

Lemma tags_of_links limit root ck links tag :
  tag_links os limit root [] = inr links →
  tag ∈ tags_of ck links ↔
  ∃ c f, link_in os root [] c f ∧ lower (splitext f).2 = str ".pdf" ∧
         (splitext f).1 = ck ∧ tag = tag_name c.
Proof.
  intros Hl. rewrite tags_of_elem. split.
  - intros (c & f & Hin & H). exists c, f. split; [|done].
    by apply (tag_links_correct os limit root [] links Hl).
  - intros (c & f & Hin & H). exists c, f. split; [|done].
    by apply (tag_links_correct os limit root [] links Hl).
Qed.

(** For no key, what is printed is the sorted list of the tags of the
    directories below the root. *)
Lemma print_tags_all_dirs limit root :
  walkable os limit root →
  ∃ ts,
    print_tags os limit root None
      = inr [Write (str "Tags: "); Print [VList ts]] ∧
    StronglySorted str_le ts ∧
    ∀ t, t ∈ ts ↔ tag_below os root [] t.
Proof.
  intros [ts Hts]%(get_tags_returns os limit root []). exists ts.
  rewrite print_tags_all, Hts. split; [done|].
  split; [by apply (get_tags_sorted os limit root [])|].
  by apply (get_tags_correct os limit).
Qed.
End PrintTagsSpec.

Section NewFile.
Import Path FS.
Context (r : node) (name : pystr) (dir : list pystr).
Implicit Types (cur rest : list pystr).

(** A name that was free leads to the file once it is made, through the
    links that led to the name. *)
Lemma walk_new_file fuel cur rest :
  at_dir r cur →
  walk r true fuel cur rest = inr (Missing dir name false) →
  walk (add_entry name File r dir) true fuel cur rest
    = inr (Found (dir ++ [name]) File).
Proof.
  revert cur rest.
  induction fuel as [|fuel IHf]; intros cur rest; revert cur;
    (induction rest as [|c rest IHr]; intros cur Hcur;
      [rewrite walk_nil; by destruct (get r cur)|]).
  all: rewrite !walk_cons.
  all: destruct (_ || _); [by apply IHr|].
  all: destruct (bool_decide (c = str ".."));
    [intros; by apply IHr; [apply at_dir_removelast|]|].
  all: destruct (get r (cur ++ [c])) as [m|] eqn:E.
  all: try (destruct (get_add_entry name File r dir _ _ E)
              as (m' & -> & Hk); destruct m as [|t|es], m' as [|t'|es'];
            try done; simpl in Hk; subst).
  all: try (destruct (bool_decide (rest = [])); done).
  all: try (intros; apply IHr; [by eexists|done]).
  all: rewrite ?andb_false_r; try done.
  all: try (destruct (bool_decide (t' = [])); [done|];
            intros; apply IHf; [by apply at_dir_target|done]).
  all: destruct (forallb _ rest); [|done].
  all: case_bool_decide as Hr; [|done]; intros [= -> ->]; subst rest.
  all: destruct Hcur as [es Hes].
  all: rewrite get_snoc, Hes in E.
  all: rewrite (get_add_entry_new _ _ _ _ _ Hes E).
  all: done.
Qed.

End NewFile.

Section ReadWrite.
Import Path FS Files.
Implicit Types (st : state) (s path : pystr).

Lemma universal_newlines_plain s :
  "013"%char ∉ s → universal_newlines false s = s.
Proof.
  induction s as [|c s IH]; [done|]. intros [Hc Hs]%not_elem_of_cons. simpl.
  destruct (decide (c = "013"%char)) as [->|_]; [done|].
  rewrite IH by done. by destruct (decide _) as [->|].
Qed.

Lemma universal_newlines_no_cr b s : "013"%char ∉ universal_newlines b s.
Proof.
  revert b. induction s as [|c s IH]; intros b; simpl; [apply not_elem_of_nil|].
  destruct (decide (c = "013"%char)); [apply not_elem_of_cons; by split|].
  destruct (decide (c = "010"%char)).
  - destruct b; [done|]. apply not_elem_of_cons; by split.
  - apply not_elem_of_cons; by split.
Qed.

Lemma walk_w_nil r fuel cur :
  walk_w r fuel cur [] =
    match get r cur with
    | Some n => inr (Found cur n)
    | None => inl FileNotFoundError
    end.
Proof. by destruct fuel. Qed.

Lemma walk_w_cons r fuel cur c rest :
  walk_w r fuel cur (c :: rest) =
    if bool_decide (c = []) || bool_decide (c = str ".")
    then walk_w r fuel cur rest
    else if bool_decide (c = str "..")
    then walk_w r fuel (removelast cur) rest
    else if negb (bool_decide (rest = []))
            && forallb (λ x, bool_decide (x = [])) rest
    then inl IsADirectoryError
    else
      match get r (cur ++ [c]) with
      | None =>
          if bool_decide (rest = []) then inr (Missing cur c false)
          else inl FileNotFoundError
      | Some (Dir _) => walk_w r fuel (cur ++ [c]) rest
      | Some File =>
          if bool_decide (rest = []) then inr (Found (cur ++ [c]) File)
          else inl NotADirectoryError
      | Some (Symlink t) =>
          match fuel with
          | O => inl OSError_ELOOP
          | S fuel' =>
              if bool_decide (t = []) then inl FileNotFoundError
              else walk_w r fuel'
                     (if startswith_sep t then [] else cur)
                     (split_on "/" t ++ rest)
          end
      end.
Proof. by destruct fuel. Qed.

(** Where the path of a write leads, the path leads for [os.stat]. *)
Lemma walk_w_walk r fuel cur rest loc :
  walk_w r fuel cur rest = inr loc → walk r true fuel cur rest = inr loc.
Proof.
  revert cur rest.
  induction fuel as [|fuel IHf]; intros cur rest; revert cur;
    (induction rest as [|c rest IHr]; intros cur;
      [by rewrite walk_w_nil, walk_nil|rewrite walk_w_cons, walk_cons]).
  all: destruct (_ || _); [by apply IHr|].
  all: destruct (bool_decide (c = str "..")); [by apply IHr|].
  all: destruct (bool_decide (rest = [])) eqn:Hr; cbn [negb andb].
  all: try (destruct (forallb _ rest) eqn:Hall; [done|]).
  all: destruct (get r (cur ++ [c])) as [[|t|es]|]; try done.
  all: try (by apply IHr).
  all: try (apply bool_decide_eq_true in Hr; subst rest; done).
  all: destruct (bool_decide (t = [])); [done|]; apply IHf.
Qed.

Lemma resolve_w_resolve r path loc :
  resolve_w r path = inr loc → resolve r true path = inr loc.
Proof.
  unfold resolve_w, resolve. destruct (contains "000" path); [done|].
  destruct (bool_decide (path = [])); [done|]. apply walk_w_walk.
Qed.

(** A path that ends in a directory is refused. *)
Lemma walk_w_dir r fuel cur rest real es :
  walk r true fuel cur rest = inr (Found real (Dir es)) →
  walk_w r fuel cur rest = inr (Found real (Dir es)) ∨
  walk_w r fuel cur rest = inl IsADirectoryError.
Proof.
  revert cur rest.
  induction fuel as [|fuel IHf]; intros cur rest; revert cur;
    (induction rest as [|c rest IHr]; intros cur;
      [rewrite walk_w_nil, walk_nil; by left|rewrite walk_w_cons, walk_cons]).
  all: destruct (_ || _); [by apply IHr|].
  all: destruct (bool_decide (c = str "..")); [by apply IHr|].
  all: destruct (bool_decide (rest = [])) eqn:Hr; cbn [negb andb].
  all: try (destruct (forallb _ rest) eqn:Hall; [by right|]).
  all: destruct (get r (cur ++ [c])) as [[|t|es']|]; try done.
  all: try (by apply IHr).
  all: try (apply bool_decide_eq_true in Hr; subst rest; done).
  all: destruct (bool_decide (t = [])); [done|]; apply IHf.
Qed.

(** What a write that succeeds has done: the text is at the real path of
    the file, which the path now leads to. *)
Lemma string_to_file_ok s path st st' :
  is_dir (tree st) →
  string_to_file s path st = (st', inr tt) →
  ∃ real,
    resolve (tree st') true path = inr (Found real File) ∧
    data st' = <[real := s]> (data st) ∧
    grows (tree st) (tree st').
Proof.
  intros Hd. unfold string_to_file.
  assert (at_dir (tree st) []) as Hroot.
  { destruct (tree st) as [| |es]; try done. by exists es. }
  destruct (resolve_w (tree st) path) as [e|[real [|t|es]|dir name [|]]] eqn:Hres;
    try done; intros [= <-]; cbn [tree data]; apply resolve_w_resolve in Hres.
  - exists real. split; [done|]. split; [done|]. apply grows_refl.
  - exists (dir ++ [name]). split; [|split; [done|]].
    + apply resolve_walk in Hres as (Hc & Hne & Hw).
      apply walk_new_file in Hw; [|done]. unfold add_entry in Hw.
      unfold resolve. apply contains_false in Hc.
      by rewrite Hc, bool_decide_eq_false_2, Hw.
    + apply (grows_add_entry name File).
Qed.

(** What was written is read back, with the newlines of reading. *)
Lemma write_then_read s path st st' :
  is_dir (tree st) →
  string_to_file s path st = (st', inr tt) →
  file_to_string path st' = inr (universal_newlines false s).
Proof.
  intros Hd (real & Hr & Hdata & _)%string_to_file_ok; [|done].
  unfold file_to_string, open_r. rewrite Hr. simpl.
  by rewrite Hdata, lookup_insert_eq.
Qed.

Lemma write_keeps_others s path st st' :
  is_dir (tree st) →
  string_to_file s path st = (st', inr tt) →
  ∃ real, ∀ p, p ≠ real → data st' !! p = data st !! p.
Proof.
  intros Hd (real & _ & Hdata & _)%string_to_file_ok; [|done].
  exists real. intros p Hp. by rewrite Hdata, lookup_insert_ne.
Qed.

(** Reading what is not there, and reading or writing a directory. *)
Lemma file_to_string_missing path st :
  exists_ (tree st) path = false → ∃ e, file_to_string path st = inl e.
Proof.
  unfold exists_, stat, file_to_string, open_r.
  destruct (resolve (tree st) true path) as [e|[real n|]]; simpl; try done; eauto.
Qed.

Lemma file_to_string_dir path st :
  isdir (tree st) path = true → file_to_string path st = inl IsADirectoryError.
Proof.
  unfold isdir, stat, file_to_string, open_r.
  by destruct (resolve (tree st) true path) as [e|[real [| |]|]].
Qed.

Lemma string_to_file_dir s path st :
  isdir (tree st) path = true →
  string_to_file s path st = (st, inl IsADirectoryError).
Proof.
  intros (Hc%contains_false & Hne & real & es & Hw)%isdir_walk.
  unfold string_to_file, resolve_w. rewrite Hc, bool_decide_eq_false_2 by done.
  by destruct (walk_w_dir _ _ _ _ _ _ Hw) as [-> | ->].
Qed.
End ReadWrite.

Section TagPath.
Import Path.
Implicit Types (root w c f : pystr) (cs : list pystr).

Lemma fold_join_nonempty w cs : w ≠ [] → fold_left join cs w ≠ [].
Proof.
  revert w. induction cs as [|c cs IH]; intros w Hw; [done|].
  simpl. by apply IH, join_nonempty.
Qed.

Lemma fold_join_rel (u : pystr) cs :
  u ≠ [] → startswith_sep u = false → Forall valid_name cs →
  startswith_sep (fold_left join cs u) = false.
Proof.
  intros Hu Hs Hcs. revert u Hu Hs.
  induction Hcs as [|c cs Hc _ IH]; intros u Hu Hs; [done|].
  simpl. apply IH; [by apply join_nonempty|].
  rewrite join_startswith; [done..|]. by apply valid_name_no_lead.
Qed.

Lemma fold_join_no_lead w cs :
  Forall valid_name (w :: cs) → startswith_sep (fold_left join cs w) = false.
Proof.
  intros [Hw Hcs]%Forall_cons.
  apply fold_join_rel; [by destruct Hw|by apply valid_name_no_lead|done].
Qed.

(** The path of the tag directory is the path the traversal takes. *)
Lemma join_fold root w cs :
  Forall valid_name (w :: cs) →
  join root (fold_left join cs w) = fold_left join cs (join root w).
Proof.
  induction cs as [|c cs IH] using rev_ind; [done|].
  rewrite app_comm_cons. intros [Hcs [Hc _]%Forall_cons]%Forall_app.
  rewrite !fold_left_app. cbn [fold_left]. rewrite <- IH by done.
  apply join_assoc.
  - apply fold_join_nonempty. apply Forall_cons in Hcs as [(? & _) _]. done.
  - by apply fold_join_no_lead.
  - by apply valid_name_no_lead.
Qed.

Lemma join_tag_name root cs :
  cs ≠ [] → Forall valid_name cs → join root (tag_name cs) = subdir root cs.
Proof.
  intros Hne Hcs. rewrite <- tag_name_fold by done.
  destruct cs as [|w cs]; [done|]. unfold subdir. cbn [fold_left].
  by apply join_fold.
Qed.

Lemma existsb_app_l {A} (g : A → bool) l k :
  existsb g l = true → existsb g (l ++ k) = true.
Proof. intros H. rewrite existsb_app, H. done. Qed.

(** The name of the link gives the key back. *)
Lemma splitext_pdf (ck : pystr) :
  "/"%char ∉ ck → (∃ x : ascii, x ∈ ck ∧ x ≠ "."%char) →
  splitext (ck ++ str ".pdf") = (ck, str ".pdf").
Proof.
  intros Hs (x & Hc & Hd). unfold splitext.
  assert ("/"%char ∉ ck ++ str ".pdf") as Hs'.
  { intros [?|H]%elem_of_app; [done|].
    by repeat (apply elem_of_cons in H as [?|H]; [done|]); apply elem_of_nil in H. }
  rewrite (rfind1_absent "/") by done.
  change (ck ++ str ".pdf") with (ck ++ ["."%char] ++ str "pdf").
  rewrite app_assoc, rfind1_app_absent, rfind1_snoc; cycle 1.
  { intros H.
    by repeat (apply elem_of_cons in H as [?|H]; [done|]); apply elem_of_nil in H. }
  cbn [Nat.sub]. rewrite Nat.sub_0_r.
  rewrite <- app_assoc, take_app_length, drop_app_length, drop_0.
  rewrite bool_decide_eq_true_2 by lia. cbn [andb].
  assert (existsb (λ x, bool_decide (x ≠ "."%char)) ck = true) as ->; [|done].
  apply existsb_exists. exists x. split; [by apply list_elem_of_In|].
  by apply bool_decide_eq_true_2.
Qed.
End TagPath.

Section LinkIndexed.
Import Path FS.
Context (r : node).
Hypothesis Hwf : wf_node r = true.
Implicit Types (root d f : pystr) (cs : list pystr).

(** An entry that [lstat] finds is listed in its directory. *)
Lemma lstat_listed d f n :
  d ≠ [] → valid_name f → lstat r (join d f) = inr n →
  isdir r d = true ∧ ∃ names, listdir r d = inr names ∧ f ∈ names.
Proof.
  intros Hd Hf Hl. pose proof (link_parent_isdir r d f n Hd Hf Hl) as Hdir.
  split; [done|].
  pose proof Hdir as (Hc & _ & cur' & es & Hw)%isdir_walk.
  pose proof (valid_name_no_lead f Hf) as Hlead.
  pose proof Hf as (_ & Hf2 & _).
  destruct (lstat_resolve r _ _ Hl) as [real (Hcj & _ & Hwl)%resolve_walk].
  exists (map fst es). split.
  { unfold listdir, stat, resolve. apply contains_false in Hc.
    by rewrite Hc, bool_decide_eq_false_2, Hw. }
  assert (walk r false max_symlinks [] (split_on "/" (join d f)) =
            inr (match find_entry f es with
                 | Some m => Found (cur' ++ [f]) m
                 | None => Missing cur' f false
                 end)) as Hw'.
  { rewrite join_rel_ne by done. destruct (endswith_sep d) eqn:E.
    - apply endswith_sep_spec in E as [d0 ->]. rewrite <- app_assoc. cbn [app].
      rewrite split_on_app, (split_on_absent _ f) by done.
      apply walk_snoc; [done|]. rewrite split_on_snoc_sep in Hw.
      pose proof Hw as Hw0.
      apply walk_prefix in Hw0 as (cur2 & es2 & Hw2);
        [|done|eapply at_dir_root; apply walk_found in Hw; by eexists].
      pose proof (walk_trailing _ _ _ _ 1 _ _ Hw2) as Hw3. cbn [replicate] in Hw3.
      rewrite Hw in Hw3. by injection Hw3 as <- <-.
    - rewrite split_on_app, (split_on_absent _ f) by done. by apply walk_snoc. }
  rewrite Hwl in Hw'. destruct (find_entry f es) as [m|] eqn:Hfe; [|done].
  apply find_entry_elem_of in Hfe. apply list_elem_of_fmap. by exists (f, m).
Qed.

Lemma isdir_lstat d : isdir r d = true → ∃ n, lstat r d = inr n.
Proof.
  intros (Hc & Hd & real & es & Hw)%isdir_walk.
  apply walk_nofollow in Hw as (real' & n' & Hw').
  exists n'. unfold lstat, resolve. apply contains_false in Hc.
  by rewrite Hc, bool_decide_eq_false_2, Hw'.
Qed.

(** The directories on the way to a directory are directories. *)
Lemma subdir_isdir root pre suf :
  root ≠ [] → Forall valid_name (pre ++ suf) →
  isdir r (subdir root (pre ++ suf)) = true → isdir r (subdir root pre) = true.
Proof.
  intros Hr. induction suf as [|c suf IH] using rev_ind; intros Hv.
  { by rewrite app_nil_r. }
  rewrite app_assoc, subdir_snoc. rewrite app_assoc in Hv.
  apply Forall_app in Hv as [Hv [Hc _]%Forall_cons].
  intros [n Hn]%isdir_lstat. apply IH; [done|].
  by apply (lstat_listed _ c n); [apply subdir_nonempty|..].
Qed.

(** A link in a directory below the root is one the traversal is to
    meet. *)
Lemma link_reached root cs f t :
  root ≠ [] → Forall valid_name cs → valid_name f →
  lstat r (join (subdir root cs) f) = inr (Symlink t) →
  isdir r (join (subdir root cs) f) = false →
  link_in (os_of r) root [] cs f.
Proof.
  intros Hr Hcs Hf Hl Hnd.
  destruct (lstat_listed (subdir root cs) f _ (subdir_nonempty _ _ Hr) Hf Hl)
    as (Hdir & names & Hnames & Hin).
  assert (∀ suf pre, pre ++ suf = cs → link_in (os_of r) root pre cs f) as Hgen;
    [|by apply (Hgen cs [])].
  induction suf as [|d suf IH]; intros pre Hps.
  - rewrite app_nil_r in Hps. subst pre.
    apply (link_here _ _ _ names); try done.
    simpl. unfold islink. by rewrite Hl.
  - assert (isdir r (subdir root (pre ++ [d])) = true) as Hd.
    { apply (subdir_isdir root (pre ++ [d]) suf); [done|..];
        rewrite <- app_assoc; cbn [app]; by rewrite Hps. }
    destruct (isdir_lstat _ Hd) as [n Hn]. rewrite subdir_snoc in Hn, Hd.
    assert (valid_name d) as Hvd.
    { rewrite <- Hps in Hcs.
      by apply Forall_app in Hcs as [_ [? _]%Forall_cons]. }
    destruct (lstat_listed (subdir root pre) d n (subdir_nonempty _ _ Hr) Hvd Hn)
      as (_ & names' & Hnames' & Hin').
    apply (link_deeper _ _ _ names' d); try done.
    apply IH. rewrite <- app_assoc. by cbn [app].
Qed.
End LinkIndexed.

Section TagThenIndex.
Import Path FS Sys.
Implicit Types (s : state).

(** Tagging shows in the index. *)
Lemma tag_paper_indexed tag_dir bib ck cs s s2 limit v t :
  is_dir (root s) → tag_dir ≠ [] → cs ≠ [] → Forall valid_name cs →
  "/"%char ∉ ck → (∃ x : ascii, x ∈ ck ∧ x ≠ "."%char) →
  tag_paper tag_dir bib ck (tag_name cs) s = (s2, inr true) →
  wf_node (root s2) = true →
  isdir (root s2) (link_path tag_dir (tag_name cs) ck) = false →
  find_tagged_pdfs (os_of (root s2)) limit tag_dir v = inr t →
  ∃ ts, pdfs t !! ck = Some ts ∧ tag_name cs ∈ ts.
Proof.
  intros Hd Ht Hne Hcs Hck Hdot Htag Hwf Hnd Hidx.
  destruct (tag_paper_link _ _ _ _ _ _ _ Hd Htag) as (_ & _ & n & Hl & Hn).
  rewrite (Hn eq_refl) in Hl. clear Hn.
  unfold link_path in Hl, Hnd. rewrite join_tag_name in Hl, Hnd by done.
  pose proof (pdfname_valid ck Hck) as Hf.
  apply (index_membership (os_of (root s2)) (wf_lists_names _ Hwf) eq_refl
           limit tag_dir v t ck (tag_name cs) Ht Hidx).
  exists cs, (ck ++ str ".pdf"). rewrite splitext_pdf by done.
  split; [|done]. by eapply link_reached.
Qed.

(** And the key is then not reported as untagged. *)
Lemma tag_paper_not_untagged tag_dir bib ck cs s s2 limit v bib' u out p :
  is_dir (root s) → tag_dir ≠ [] → cs ≠ [] → Forall valid_name cs →
  "/"%char ∉ ck → (∃ x : ascii, x ∈ ck ∧ x ≠ "."%char) →
  tag_paper tag_dir bib ck (tag_name cs) s = (s2, inr true) →
  wf_node (root s2) = true →
  isdir (root s2) (link_path tag_dir (tag_name cs) ck) = false →
  find_untagged_pdfs (os_of (root s2)) limit bib' tag_dir v = inr (u, out) →
  (p, ck) ∉ u.
Proof.
  intros Hd Ht Hne Hcs Hck Hdot Htag Hwf Hnd Hu Hin.
  destruct (find_untagged_pdfs_correct _ _ _ _ _ _ _ Hu)
    as (cks & t & _ & Hidx & Hiff).
  destruct (proj1 (Hiff p ck) Hin) as (_ & _ & _ & Hnone).
  destruct (tag_paper_indexed _ _ _ _ _ _ _ _ _ Hd Ht Hne Hcs Hck Hdot Htag Hwf Hnd Hidx)
    as (ts & Hts & _).
  congruence.
Qed.
End TagThenIndex.

(** * Further properties of the module *)

(** X1. [get_terminal_width] returns the second word of what [stty size]
    writes when that is two words between any white space, and the word
    is returned as a string; an output of white space only, as when the
    command fails, or of one word raises [ValueError]. *)
Theorem X1_terminal_width_words :
  (∀ p1 rows sep cols p2,
     blank p1 → word rows → blank sep → sep ≠ [] → word cols → blank p2 →
     get_terminal_width (p1 ++ rows ++ sep ++ cols ++ p2) = inr cols) ∧
  (∀ s, blank s → get_terminal_width s = inl ValueError) ∧
  (∀ p1 w p2, blank p1 → word w → blank p2 →
     get_terminal_width (p1 ++ w ++ p2) = inl ValueError) ∧
  (∀ s w, get_terminal_width s = inr w → word w).
Proof.
  split; [|split; [|split]].
  - apply get_terminal_width_two.
  - apply get_terminal_width_blank.
  - apply get_terminal_width_one.
  - apply get_terminal_width_word.
Qed.

Lemma X1_terminal_width_words_witness :
  get_terminal_width (str "24 80" ++ ["010"%char]) = inr (str "80") ∧
  get_terminal_width [] = inl ValueError ∧
  get_terminal_width (str "80" ++ ["010"%char]) = inl ValueError ∧
  word (str "80").
Proof.
  destruct X1_terminal_width_words as (H1 & H2 & H3 & H4).
  split; [|split; [|split]].
  - apply (H1 [] (str "24") (str " ") (str "80") ["010"%char]).
    + constructor.
    + split; [done|]. by repeat constructor.
    + by repeat constructor.
    + done.
    + split; [done|]. by repeat constructor.
    + by repeat constructor.
  - apply (H2 []). constructor.
  - apply (H3 [] (str "80") ["010"%char]).
    + constructor.
    + split; [done|]. by repeat constructor.
    + by repeat constructor.
  - apply (H4 (str "24 80" ++ ["010"%char])). vm_compute. reflexivity.
Defined.

(** X2. [prompt_user] writes the prompt, flushes, and reads one line: the
    text after the first newline is left to be read, and the answer is
    the line trimmed; at the end of the input the answer is what was left,
    trimmed.  The answer is always trimmed and holds no newline. *)
Theorem X2_prompt_user_reads_one_line :
  (∀ prompt line rest out,
     "010"%char ∉ line →
     Tty.prompt_user prompt (Tty.State (line ++ "010"%char :: rest) out)
       = (Tty.State rest (out ++ [Tty.Write prompt; Tty.Flush]), strip line)) ∧
  (∀ prompt s out,
     "010"%char ∉ s →
     Tty.prompt_user prompt (Tty.State s out)
       = (Tty.State [] (out ++ [Tty.Write prompt; Tty.Flush]), strip s)) ∧
  (∀ prompt st,
     trimmed (Tty.prompt_user prompt st).2 ∧
     "010"%char ∉ (Tty.prompt_user prompt st).2).
Proof.
  split; [|split].
  - apply prompt_user_line.
  - apply prompt_user_end.
  - apply prompt_user_answer.
Qed.

Lemma X2_prompt_user_reads_one_line_witness :
  Tty.prompt_user (str "Tags? ")
      (Tty.State (str " ml " ++ "010"%char :: str "next") [])
    = (Tty.State (str "next") [Tty.Write (str "Tags? "); Tty.Flush], str "ml") ∧
  Tty.prompt_user (str "Tags? ") (Tty.State (str "ml") [])
    = (Tty.State [] [Tty.Write (str "Tags? "); Tty.Flush], str "ml").
Proof.
  destruct X2_prompt_user_reads_one_line as (H1 & H2 & _). split.
  - apply (H1 (str "Tags? ") (str " ml ") (str "next") []).
    apply contains_false. vm_compute. reflexivity.
  - apply (H2 (str "Tags? ") (str "ml") []).
    apply contains_false. vm_compute. reflexivity.
Defined.

(** X3. [confirm_user] writes the prompt followed by [ [y/N]: ], reads one
    line, and answers [True] exactly when the line, trimmed, is [y] or
    [yes] in any case of the letters; every other line, the empty line
    and the end of the input are a no. *)
Theorem X3_confirm_user_yes :
  (∀ prompt line rest out,
     "010"%char ∉ line →
     Tty.confirm_user prompt (Tty.State (line ++ "010"%char :: rest) out)
       = (Tty.State rest
            (out ++ [Tty.Write (prompt ++ str " [y/N]: "); Tty.Flush]),
          bool_decide (strip line ∈ Tty.yes_answers))) ∧
  (∀ prompt s out,
     "010"%char ∉ s →
     Tty.confirm_user prompt (Tty.State s out)
       = (Tty.State []
            (out ++ [Tty.Write (prompt ++ str " [y/N]: "); Tty.Flush]),
          bool_decide (strip s ∈ Tty.yes_answers))).
Proof. split; [apply confirm_user_line|apply confirm_user_end]. Qed.

Lemma X3_confirm_user_yes_witness :
  Tty.confirm_user (str "Sure?")
      (Tty.State (str " YeS " ++ "010"%char :: str "rest") [])
    = (Tty.State (str "rest") [Tty.Write (str "Sure? [y/N]: "); Tty.Flush], true) ∧
  Tty.confirm_user (str "Sure?") (Tty.State [] [])
    = (Tty.State [] [Tty.Write (str "Sure? [y/N]: "); Tty.Flush], false).
Proof.
  destruct X3_confirm_user_yes as (H1 & H2). split.
  - apply (H1 (str "Sure?") (str " YeS ") (str "rest") []).
    apply contains_false. vm_compute. reflexivity.
  - apply (H2 (str "Sure?") [] []). apply not_elem_of_nil.
Defined.

(** X4. Tagging shows in the index.  On a tree whose names are names a
    directory can hold, for a tag made of such names joined by slashes
    and a key without a slash that is not made of dots only: when
    [tag_paper] has returned [True] and the link does not lead to a
    directory, the dict that [find_tagged_pdfs] returns on the tag root
    has the tag in the list of the key, and the set that
    [find_untagged_pdfs] returns does not hold the key. *)
Theorem X4_tag_paper_shows_in_index tag_dir bib ck cs s s2 limit v :
  is_dir (Sys.root s) → tag_dir ≠ [] → cs ≠ [] → Forall valid_name cs →
  "/"%char ∉ ck → (∃ x : ascii, x ∈ ck ∧ x ≠ "."%char) →
  Sys.tag_paper tag_dir bib ck (tag_name cs) s = (s2, inr true) →
  wf_node (Sys.root s2) = true →
  FS.isdir (Sys.root s2) (link_path tag_dir (tag_name cs) ck) = false →
  (∀ t, find_tagged_pdfs (os_of (Sys.root s2)) limit tag_dir v = inr t →
        ∃ ts, pdfs t !! ck = Some ts ∧ tag_name cs ∈ ts) ∧
  (∀ bib' u out p,
     find_untagged_pdfs (os_of (Sys.root s2)) limit bib' tag_dir v = inr (u, out) →
     (p, ck) ∉ u).
Proof.
  intros Hd Ht Hne Hcs Hck Hdot Htag Hwf Hnd. split.
  - intros t. by apply (tag_paper_indexed tag_dir bib ck cs s s2).
  - intros bib' u out p. by apply (tag_paper_not_untagged tag_dir bib ck cs s s2).
Qed.

Lemma X4_tag_paper_shows_in_index_witness :
  (∃ ts, pdfs (Tagged {[ str "A" := [str "ml/nlp"] ]} []) !! str "A" = Some ts ∧
         tag_name [str "ml"; str "nlp"] ∈ ts) ∧
  (str "/bib/A.pdf", str "A") ∉ (∅ : gset (pystr * pystr)).
Proof.
  cut ((∀ t, find_tagged_pdfs
               (os_of (FS.Dir [(str "bib", FS.Dir [(str "A.pdf", FS.File)]);
                       (str "tags",
                        FS.Dir [(str "ml",
                                 FS.Dir [(str "nlp",
                                          FS.Dir [(str "A.pdf",
                                                   FS.Symlink (str "/bib/A.pdf"))])])])]))
               4 (str "/tags") 0 = inr t →
             ∃ ts, pdfs t !! str "A" = Some ts ∧ tag_name [str "ml"; str "nlp"] ∈ ts) ∧
       (∀ bib' u out p,
          find_untagged_pdfs
            (os_of (FS.Dir [(str "bib", FS.Dir [(str "A.pdf", FS.File)]);
                       (str "tags",
                        FS.Dir [(str "ml",
                                 FS.Dir [(str "nlp",
                                          FS.Dir [(str "A.pdf",
                                                   FS.Symlink (str "/bib/A.pdf"))])])])]))
            4 bib' (str "/tags") 0 = inr (u, out) → (p, str "A") ∉ u)).
  { intros [H1 H2]. split.
    - apply (H1 (Tagged {[ str "A" := [str "ml/nlp"] ]} [])). vm_compute. reflexivity.
    - apply (H2 (str "/bib") ∅ []). vm_compute. reflexivity. }
  apply (X4_tag_paper_shows_in_index (str "/tags") (str "/bib") (str "A")
           [str "ml"; str "nlp"] (Sys.State pdf_fs [] [])
           (Sys.State
              (FS.Dir [(str "bib", FS.Dir [(str "A.pdf", FS.File)]);
                       (str "tags",
                        FS.Dir [(str "ml",
                                 FS.Dir [(str "nlp",
                                          FS.Dir [(str "A.pdf",
                                                   FS.Symlink (str "/bib/A.pdf"))])])])])
              [] [])
           4%nat 0).
  - exact I.
  - discriminate.
  - discriminate.
  - repeat constructor; try done; apply contains_false; vm_compute; reflexivity.
  - apply contains_false. vm_compute. reflexivity.
  - exists "A"%char. split; [by left|done].
  - vm_compute. reflexivity.
  - vm_compute. reflexivity.
  - vm_compute. reflexivity.
Defined.

(** X5. No key that [list_cks] returns is empty or holds a dot. *)
Theorem X5_list_cks_keys os limit dir l ck :
  list_cks os limit dir = inr l → ck ∈ l → ck ≠ [] ∧ "."%char ∉ ck.
Proof. apply list_cks_keys. Qed.

Lemma X5_list_cks_keys_witness : str "CMT12" ≠ [] ∧ "."%char ∉ str "CMT12".
Proof.
  apply (X5_list_cks_keys (os_of cmt12_fs) 1%nat (str "bib") [str "CMT12"]).
  - vm_compute. reflexivity.
  - apply list_elem_of_singleton. reflexivity.
Defined.

(** X6. A key that is not empty and holds no dot and no slash is found by
    [list_cks] in a directory that lists the name of its [ck_to_pdf] or
    of its [ck_to_bib] file, unless that path is a directory. *)
Theorem X6_list_cks_finds_files os limit dir names l ck :
  ck ≠ [] → "."%char ∉ ck → "/"%char ∉ ck →
  listdir os dir = inr names →
  list_cks os limit dir = inr l →
  (ck ++ str ".pdf" ∈ names ∧ isdir os (ck_to_pdf dir ck) = false) ∨
  (ck ++ str ".bib" ∈ names ∧ isdir os (ck_to_bib dir ck) = false) →
  ck ∈ l.
Proof. apply list_cks_finds. Qed.

Lemma X6_list_cks_finds_files_witness : str "B" ∈ [str "A"; str "B"].
Proof.
  apply (X6_list_cks_finds_files (os_of untagged_fs) 1%nat (str "/bib")
           [str "A.pdf"; str "B.pdf"; str "B.bib"]).
  - done.
  - apply contains_false. vm_compute. reflexivity.
  - apply contains_false. vm_compute. reflexivity.
  - vm_compute. reflexivity.
  - vm_compute. reflexivity.
  - right. split; [|vm_compute; reflexivity].
    apply (bool_decide_unpack _). vm_compute. reflexivity.
Defined.

(** X7. The keys that [list_cks] returns do not depend on the order in
    which [os.listdir] reports the names of the directories. *)
Theorem X7_list_cks_listing_order os os' limit limit' dir l l' :
  same_listing os os' → same_listing os' os →
  list_cks os limit dir = inr l → list_cks os' limit' dir = inr l' → l = l'.
Proof. apply list_cks_order. Qed.

Lemma X7_list_cks_listing_order_witness :
  @eq (list pystr) [str "A"; str "B"] [str "A"; str "B"].
Proof.
  assert (∀ n1 n2, n2 ≡ₚ n1 → same_listing (two_files n1) (two_files n2)) as Hs.
  { intros n1 n2 Hp. split; [done|]. intros d names. simpl.
    destruct (decide (d = str "bib")); [|done]. intros [= <-]. eauto. }
  apply (X7_list_cks_listing_order
           (two_files [str "B.pdf"; str "A.pdf"])
           (two_files [str "A.pdf"; str "B.pdf"]) 1%nat 2%nat (str "bib")).
  - apply Hs. apply Permutation_swap.
  - apply Hs. apply Permutation_swap.
  - vm_compute. reflexivity.
  - vm_compute. reflexivity.
Defined.

(** X8. The verbosity changes what [find_tagged_pdfs] prints and nothing
    else: two verbosities end with the same exception or give the same
    dict; and at verbosity 1 or less nothing is printed. *)
Theorem X8_tag_index_verbosity os limit root :
  (∀ v v', same_index (find_tagged_pdfs os limit root v)
                      (find_tagged_pdfs os limit root v')) ∧
  (∀ v t, v ≤ 1 → find_tagged_pdfs os limit root v = inr t → printed t = []).
Proof.
  split; [apply find_tagged_pdfs_same|apply find_tagged_pdfs_silent].
Qed.

Lemma X8_tag_index_verbosity_witness :
  same_index (find_tagged_pdfs (os_of ml_fs) 3 (str "/tags") 0)
             (find_tagged_pdfs (os_of ml_fs) 3 (str "/tags") 2) ∧
  printed (Tagged {[ str "A" := [str "ml"; str "ml/nlp"] ]} []) = [].
Proof.
  destruct (X8_tag_index_verbosity (os_of ml_fs) 3%nat (str "/tags")) as [H1 H2].
  split; [apply H1|]. apply (H2 1); [lia|]. vm_compute. reflexivity.
Defined.

(** X9. No key of the dict that [find_tagged_pdfs] returns has an empty
    list of tags. *)
Theorem X9_tag_index_no_empty_list os limit root v t ck ts :
  find_tagged_pdfs os limit root v = inr t → pdfs t !! ck = Some ts → ts ≠ [].
Proof. apply find_tagged_pdfs_nonempty. Qed.

Lemma X9_tag_index_no_empty_list_witness : [str "ml"; str "ml/nlp"] ≠ [].
Proof.
  apply (X9_tag_index_no_empty_list (os_of ml_fs) 3%nat (str "/tags") 0
           (Tagged {[ str "A" := [str "ml"; str "ml/nlp"] ]} []) (str "A")).
  - vm_compute. reflexivity.
  - vm_compute. reflexivity.
Defined.

(** X10. The set that [find_untagged_pdfs] returns does not depend on the
    verbosity, and at verbosity 1 or less the call prints nothing. *)
Theorem X10_untagged_verbosity os limit bib tags :
  (∀ v v' u out,
     find_untagged_pdfs os limit bib tags v = inr (u, out) →
     ∃ out', find_untagged_pdfs os limit bib tags v' = inr (u, out')) ∧
  (∀ v u out,
     v ≤ 1 → find_untagged_pdfs os limit bib tags v = inr (u, out) → out = []).
Proof.
  split; [apply find_untagged_pdfs_same|apply find_untagged_pdfs_silent].
Qed.

Lemma X10_untagged_verbosity_witness :
  (∃ out', find_untagged_pdfs (os_of untagged_fs) 2 (str "/bib") (str "/tags") 3
           = inr ({[ (str "/bib/B.pdf", str "B") ]}, out')) ∧
  @nil (list pyval) = [].
Proof.
  destruct (X10_untagged_verbosity (os_of untagged_fs) 2%nat (str "/bib") (str "/tags"))
    as [H1 H2].
  split.
  - apply (H1 0 3 _ []). vm_compute. reflexivity.
  - apply (H2 0 {[ (str "/bib/B.pdf", str "B") ]} []); [lia|].
    vm_compute. reflexivity.
Defined.

(** X11. On a tree that can be listed within the limit, [get_tags]
    returns, in non-decreasing order, exactly the tags of the directories
    below the tag directory at any depth: the tag of a directory is its
    name after the tag of its parent and a slash, and its name alone
    where the prefix is empty; entries that are not directories have no
    tag. *)
Theorem X11_get_tags_spec os limit tagdir prefix :
  walkable os limit tagdir →
  ∃ l, get_tags os limit tagdir prefix = inr l ∧
       StronglySorted str_le l ∧
       ∀ t, t ∈ l ↔ tag_below os tagdir prefix t.
Proof.
  intros [l Hl]%(get_tags_returns os limit tagdir prefix). exists l.
  split; [done|].
  split; [by apply (get_tags_sorted os limit tagdir prefix)|].
  by apply (get_tags_correct os limit).
Qed.

Lemma X11_get_tags_spec_witness :
  ∃ l, get_tags (os_of ml_fs) 3 (str "/tags") [] = inr l ∧
       StronglySorted str_le l ∧
       ∀ t, t ∈ l ↔ tag_below (os_of ml_fs) (str "/tags") [] t.
Proof.
  apply (X11_get_tags_spec (os_of ml_fs) 3%nat (str "/tags") []).
  apply (walkable_dir _ 2 (str "/tags") [str "ml"]); [vm_compute; reflexivity|].
  intros f ->%list_elem_of_singleton _.
  apply (walkable_dir _ 1 _ [str "A.pdf"; str "nlp"]); [vm_compute; reflexivity|].
  intros f Hf Hd.
  apply elem_of_cons in Hf as [->|Hf]; [exfalso; revert Hd; vm_compute; discriminate|].
  apply list_elem_of_singleton in Hf as ->.
  apply (walkable_dir _ 0 _ [str "A.pdf"]); [vm_compute; reflexivity|].
  intros f ->%list_elem_of_singleton Hd'.
  exfalso. revert Hd'. vm_compute. discriminate.
Defined.

(** X12. Where [os.listdir] reports names, the working directory is
    absolute and the tag root is not the empty path: when
    [find_tagged_pdfs] returns, so does [get_tags] on the same root, and
    every tag in the dict is the tag [.] of the root itself or one of the
    tags that [get_tags] returns. *)
Theorem X12_index_tags_are_listed os limit root v t :
  lists_names os → Path.startswith_sep (getcwd os) = true → root ≠ [] →
  find_tagged_pdfs os limit root v = inr t →
  ∃ tags,
    get_tags os limit root [] = inr tags ∧
    ∀ ck ts tag, pdfs t !! ck = Some ts → tag ∈ ts →
                 tag = str "." ∨ tag ∈ tags.
Proof. intros Hn Hc. by apply index_tags_listed. Qed.

Lemma X12_index_tags_are_listed_witness :
  ∃ tags,
    get_tags (os_of ml_fs) 3 (str "/tags") [] = inr tags ∧
    ∀ ck ts tag,
      pdfs (Tagged {[ str "A" := [str "ml"; str "ml/nlp"] ]} []) !! ck = Some ts →
      tag ∈ ts → tag = str "." ∨ tag ∈ tags.
Proof.
  apply (X12_index_tags_are_listed (os_of ml_fs) 3%nat (str "/tags") 0).
  - apply wf_lists_names. vm_compute. reflexivity.
  - vm_compute. reflexivity.
  - discriminate.
  - vm_compute. reflexivity.
Defined.

(** X13. What [print_tags] shows, read off the tree.  Where
    [os.listdir] reports names, the working directory is absolute and the
    tag root is not the empty path.  For a key, when the traversal of the
    tag root ends, [print_tags] returns, having written [Tags: ] and
    printed one list and nothing else; the list holds the tags of the key
    in the order of the traversal, and a tag is in it exactly when, in
    the directory of that tag below the root, there is a symbolic link
    that is not a directory and is named by the key with an extension
    that is [.pdf] up to case; so for a key without such a link the
    empty list is printed and no [KeyError] is raised.  For no key, on a
    tree that can be listed within the limit, it writes [Tags: ] and
    prints one list, which is sorted and holds exactly the tags of the
    directories below the root. *)
Theorem X13_print_tags_shows_links os limit root :
  lists_names os → Path.startswith_sep (getcwd os) = true → root ≠ [] →
  (∀ ck links,
     tag_links os limit root [] = inr links →
     print_tags os limit root (Some ck)
       = inr [Write (str "Tags: "); Print [VList (tags_of ck links)]] ∧
     (∀ tag, tag ∈ tags_of ck links ↔
        ∃ c f, link_in os root [] c f ∧
               lower (Path.splitext f).2 = str ".pdf" ∧
               (Path.splitext f).1 = ck ∧ tag = tag_name c) ∧
     ((∀ c f, link_in os root [] c f → (Path.splitext f).1 ≠ ck) →
      print_tags os limit root (Some ck)
        = inr [Write (str "Tags: "); Print [VList []]])) ∧
  (walkable os limit root →
   ∃ ts,
     print_tags os limit root None
       = inr [Write (str "Tags: "); Print [VList ts]] ∧
     StronglySorted str_le ts ∧
     ∀ t, t ∈ ts ↔ tag_below os root [] t).
Proof.
  intros Hn Hc Hr. split; [|by apply print_tags_all_dirs].
  intros ck links Hl.
  pose proof (print_tags_key_links os Hn Hc limit root ck links Hr Hl) as Hp.
  pose proof (λ tag, tags_of_links os limit root ck links tag Hl) as Hiff.
  split; [done|]. split; [done|].
  intros Hno. rewrite Hp. destruct (tags_of ck links) as [|tag ts] eqn:E; [done|].
  destruct (proj1 (Hiff tag)) as (c & f & Hin & _ & Hk & _); [by left|].
  by destruct (Hno c f Hin).
Qed.

Lemma X13_print_tags_shows_links_witness :
  print_tags (os_of ml_fs) 3 (str "/tags") (Some (str "A"))
    = inr [Write (str "Tags: "); Print [VList [str "ml"; str "ml/nlp"]]] ∧
  print_tags (os_of ml_fs) 3 (str "/tags") (Some (str "B"))
    = inr [Write (str "Tags: "); Print [VList []]] ∧
  ∃ ts,
    print_tags (os_of ml_fs) 3 (str "/tags") None
      = inr [Write (str "Tags: "); Print [VList ts]] ∧
    StronglySorted str_le ts ∧
    ∀ t, t ∈ ts ↔ tag_below (os_of ml_fs) (str "/tags") [] t.
Proof.
  assert (lists_names (os_of ml_fs)) as Hn.
  { apply wf_lists_names. vm_compute. reflexivity. }
  assert (Path.startswith_sep (getcwd (os_of ml_fs)) = true) as Hc.
  { vm_compute. reflexivity. }
  assert (str "/tags" ≠ []) as Hr by discriminate.
  assert (tag_links (os_of ml_fs) 3 (str "/tags") []
            = inr [([str "ml"], str "A.pdf"); ([str "ml"; str "nlp"], str "A.pdf")])
    as Hl by (vm_compute; reflexivity).
  destruct (X13_print_tags_shows_links (os_of ml_fs) 3%nat (str "/tags") Hn Hc Hr)
    as [Hkey Hall].
  split; [|split].
  - exact (proj1 (Hkey (str "A") _ Hl)).
  - exact (proj1 (Hkey (str "B") _ Hl)).
  - apply Hall.
    apply (walkable_dir _ 2 (str "/tags") [str "ml"]); [vm_compute; reflexivity|].
    intros f ->%list_elem_of_singleton _.
    apply (walkable_dir _ 1 _ [str "A.pdf"; str "nlp"]); [vm_compute; reflexivity|].
    intros f Hf Hd.
    apply elem_of_cons in Hf as [->|Hf]; [exfalso; revert Hd; vm_compute; discriminate|].
    apply list_elem_of_singleton in Hf as ->.
    apply (walkable_dir _ 0 _ [str "A.pdf"]); [vm_compute; reflexivity|].
    intros f ->%list_elem_of_singleton Hd'.
    exfalso. revert Hd'. vm_compute. discriminate.
Defined.

(** X14. Every tag that [parse_tags] returns is not empty, has no white
    space at either end and holds no comma. *)
Theorem X14_parse_tags_well_formed s t : t ∈ parse_tags s → tag_ok t.
Proof. apply parse_tags_ok. Qed.

Lemma X14_parse_tags_well_formed_witness : tag_ok (str "deep learning").
Proof.
  apply (X14_parse_tags_well_formed (str " ml ,, deep learning ,")).
  apply (bool_decide_unpack _). vm_compute. reflexivity.
Defined.

(** X15. Tags that are not empty, have no white space at either end and
    hold no comma are read back by [parse_tags] from their join with
    commas, in the same order. *)
Theorem X15_parse_tags_of_join tags :
  Forall tag_ok tags → parse_tags (Path.join_on "," tags) = tags.
Proof. apply parse_tags_join. Qed.

Lemma X15_parse_tags_of_join_witness :
  parse_tags (Path.join_on "," [str "ml"; str "deep learning"])
  = [str "ml"; str "deep learning"].
Proof.
  apply (X15_parse_tags_of_join [str "ml"; str "deep learning"]).
  repeat constructor; try done; apply contains_false; vm_compute; reflexivity.
Defined.

(** X16. [parse_tags] reads the two sides of a comma one after the other,
    and white space around the whole text changes nothing. *)
Theorem X16_parse_tags_composes :
  (∀ a b, parse_tags (a ++ ","%char :: b) = parse_tags a ++ parse_tags b) ∧
  (∀ s, parse_tags (strip s) = parse_tags s) ∧
  (∀ p s q, blank p → blank q → parse_tags (p ++ s ++ q) = parse_tags s).
Proof.
  split; [apply parse_tags_app|]. split; [apply parse_tags_strip|].
  intros p s q Hp Hq. by rewrite parse_tags_blank_l, parse_tags_blank_r.
Qed.

Lemma X16_parse_tags_composes_witness :
  parse_tags (str " " ++ str "a,b" ++ str "  ") = parse_tags (str "a,b").
Proof.
  destruct X16_parse_tags_composes as (_ & _ & H).
  apply (H (str " ") (str "a,b") (str "  ")); by repeat constructor.
Defined.

(** X17. [parse_tags] returns no tag exactly for a text of commas and
    white space. *)
Theorem X17_parse_tags_empty s :
  parse_tags s = [] ↔ Forall (λ c, c = ","%char ∨ is_space c = true) s.
Proof. apply parse_tags_empty. Qed.

Lemma X17_parse_tags_empty_witness : parse_tags (str " , ,") = [].
Proof.
  apply (proj2 (X17_parse_tags_empty (str " , ,"))).
  change (str " , ,") with [" "%char; ","%char; " "%char; ","%char].
  repeat (apply Forall_cons_2; [first [by left|by right]|]). apply Forall_nil_2.
Defined.

(** X18. [prompt_for_tags] writes the prompt, reads one line and returns
    the tags of that line: trimming the answer first changes nothing. *)
Theorem X18_prompt_for_tags_line :
  (∀ prompt line rest out,
     "010"%char ∉ line →
     Tty.prompt_for_tags prompt (Tty.State (line ++ "010"%char :: rest) out)
       = (Tty.State rest (out ++ [Tty.Write prompt; Tty.Flush]),
          parse_tags line)) ∧
  (∀ prompt s out,
     "010"%char ∉ s →
     Tty.prompt_for_tags prompt (Tty.State s out)
       = (Tty.State [] (out ++ [Tty.Write prompt; Tty.Flush]), parse_tags s)).
Proof. split; [apply prompt_for_tags_line|apply prompt_for_tags_end]. Qed.

Lemma X18_prompt_for_tags_line_witness :
  Tty.prompt_for_tags (str "Tags: ")
      (Tty.State (str " ml, nlp " ++ "010"%char :: str "y") [])
    = (Tty.State (str "y") [Tty.Write (str "Tags: "); Tty.Flush],
       parse_tags (str " ml, nlp ")).
Proof.
  apply (proj1 X18_prompt_for_tags_line).
  apply contains_false. vm_compute. reflexivity.
Defined.

(** X19. Where [os.path.exists] holds of the path [tag_dir/tag/ck.pdf]:
    if the entry there is a directory, [untag_paper] raises
    [IsADirectoryError] and changes nothing; if it is a file or a link,
    the entry is removed, whichever of the two it is, [True] is returned,
    nothing is printed, the path then leads nowhere, and every other
    entry of the tree is where it was and of the same kind. *)
Theorem X19_untag_paper_outcomes tag_dir ck tag s :
  FS.exists_ (Sys.root s) (link_path tag_dir tag ck) = true →
  (∀ es,
     FS.lstat (Sys.root s) (link_path tag_dir tag ck) = inr (FS.Dir es) →
     Sys.untag_paper tag_dir ck tag s = (s, inl IsADirectoryError)) ∧
  (∀ n,
     is_dir (Sys.root s) →
     FS.lstat (Sys.root s) (link_path tag_dir tag ck) = inr n → ¬ is_dir n →
     ∃ real r',
       Sys.untag_paper tag_dir ck tag s
         = (Sys.State r' (Sys.stdout s) (Sys.stderr s), inr true) ∧
       FS.get (Sys.root s) real = Some n ∧
       FS.lstat r' (link_path tag_dir tag ck) = inl FileNotFoundError ∧
       FS.get r' real = None ∧
       ∀ p m, p ≠ real → FS.get (Sys.root s) p = Some m →
              ∃ m', FS.get r' p = Some m' ∧ same_kind m m').
Proof.
  intros He. split.
  - intros es. by apply untag_paper_directory.
  - intros n Hd Hl Hn. by apply untag_paper_removes.
Qed.

Lemma X19_untag_paper_outcomes_witness :
  Sys.untag_paper (str "/tags") (str "A") (str "ml") (Sys.State dir_at_link_fs [] [])
    = (Sys.State dir_at_link_fs [] [], inl IsADirectoryError) ∧
  ∃ real r',
    Sys.untag_paper (str "/tags") (str "A") (str "ml") (Sys.State ml_fs [] [])
      = (Sys.State r' [] [], inr true) ∧
    FS.get ml_fs real = Some (FS.Symlink (str "/bib/A.pdf")) ∧
    FS.lstat r' (str "/tags/ml/A.pdf") = inl FileNotFoundError ∧
    FS.get r' real = None ∧
    ∀ p m, p ≠ real → FS.get ml_fs p = Some m →
           ∃ m', FS.get r' p = Some m' ∧ same_kind m m'.
Proof.
  split.
  - apply (proj1 (X19_untag_paper_outcomes (str "/tags") (str "A") (str "ml")
                    (Sys.State dir_at_link_fs [] []) eq_refl) []).
    vm_compute. reflexivity.
  - apply (proj2 (X19_untag_paper_outcomes (str "/tags") (str "A") (str "ml")
                    (Sys.State ml_fs [] []) eq_refl)
             (FS.Symlink (str "/bib/A.pdf"))).
    + exact I.
    + vm_compute. reflexivity.
    + intros [].
Defined.

(** X20. After [untag_paper] has returned [True], a second call returns
    [False] and changes nothing. *)
Theorem X20_untag_paper_twice tag_dir ck tag s s' :
  is_dir (Sys.root s) →
  Sys.untag_paper tag_dir ck tag s = (s', inr true) →
  Sys.untag_paper tag_dir ck tag s' = (s', inr false).
Proof. apply untag_paper_twice. Qed.

Lemma X20_untag_paper_twice_witness :
  Sys.untag_paper (str "/tags") (str "A") (str "x")
      (Sys.State (FS.Dir [(str "bib",
                           FS.Dir [(str "A.pdf", FS.File); (str "B.pdf", FS.File);
                                   (str "B.bib", FS.File)]);
                          (str "tags", FS.Dir [(str "x", FS.Dir [])])]) [] [])
    = (Sys.State (FS.Dir [(str "bib",
                           FS.Dir [(str "A.pdf", FS.File); (str "B.pdf", FS.File);
                                   (str "B.bib", FS.File)]);
                          (str "tags", FS.Dir [(str "x", FS.Dir [])])]) [] [],
       inr false).
Proof.
  apply (X20_untag_paper_twice (str "/tags") (str "A") (str "x")
           (Sys.State untagged_fs [] [])).
  - exact I.
  - vm_compute. reflexivity.
Defined.

(** X21. Whatever its outcome, [tag_paper] removes nothing and replaces
    nothing: every entry of the tree is afterwards where it was, and of
    the same kind. *)
Theorem X21_tag_paper_removes_nothing tag_dir bib ck tag s s' r :
  Sys.tag_paper tag_dir bib ck tag s = (s', r) →
  grows (Sys.root s) (Sys.root s').
Proof. apply tag_paper_keeps. Qed.

Lemma X21_tag_paper_removes_nothing_witness : grows empty_tags_fs dangling_fs.
Proof.
  apply (X21_tag_paper_removes_nothing (str "/tags") (str "/bib") (str "A") (str "ml")
           (Sys.State empty_tags_fs [] []) (Sys.State dangling_fs [] []) (inr true)).
  vm_compute. reflexivity.
Defined.

(** X22. When [tag_paper] returns, nothing was printed and the path
    [tag_dir/tag/ck.pdf] holds an entry; when it returns [True], the
    entry is a symbolic link to [ck_to_pdf bib ck]. *)
Theorem X22_tag_paper_leaves_link tag_dir bib ck tag s s' b :
  is_dir (Sys.root s) →
  Sys.tag_paper tag_dir bib ck tag s = (s', inr b) →
  Sys.stdout s' = Sys.stdout s ∧ Sys.stderr s' = Sys.stderr s ∧
  ∃ n, FS.lstat (Sys.root s') (link_path tag_dir tag ck) = inr n ∧
       (b = true → n = FS.Symlink (ck_to_pdf bib ck)).
Proof. apply tag_paper_link. Qed.

Lemma X22_tag_paper_leaves_link_witness :
  ∃ n, FS.lstat dangling_fs (str "/tags/ml/A.pdf") = inr n ∧
       (true = true → n = FS.Symlink (str "/bib/A.pdf")).
Proof.
  apply (X22_tag_paper_leaves_link (str "/tags") (str "/bib") (str "A") (str "ml")
           (Sys.State empty_tags_fs [] []) (Sys.State dangling_fs [] []) true).
  - exact I.
  - vm_compute. reflexivity.
Defined.

(** X23. On a tree in which no directory holds a name twice: when
    [tag_paper] has returned [True] and [os.path.exists] holds of the
    link, [untag_paper] returns [True] and leaves the tree, the output and
    the standard error as they were once [os.makedirs] had made the tag
    directory. *)
Theorem X23_tag_then_untag tag_dir bib ck tag s s1 s2 :
  is_dir (Sys.root s) →
  Sys.os_makedirs (Path.join tag_dir tag) s = (s1, inr tt) →
  unique_names (Sys.root s1) →
  Sys.tag_paper tag_dir bib ck tag s = (s2, inr true) →
  FS.exists_ (Sys.root s2) (link_path tag_dir tag ck) = true →
  Sys.untag_paper tag_dir ck tag s2 = (s1, inr true).
Proof. apply tag_untag. Qed.

Lemma X23_tag_then_untag_witness :
  Sys.untag_paper (str "/tags") (str "A") (str "ml")
      (Sys.State
         (FS.Dir [(str "bib", FS.Dir [(str "A.pdf", FS.File)]);
                  (str "tags",
                   FS.Dir [(str "ml",
                            FS.Dir [(str "A.pdf",
                                     FS.Symlink (str "/bib/A.pdf"))])])])
         [] [])
    = (Sys.State
         (FS.Dir [(str "bib", FS.Dir [(str "A.pdf", FS.File)]);
                  (str "tags", FS.Dir [(str "ml", FS.Dir [])])])
         [] [],
       inr true).
Proof.
  apply (X23_tag_then_untag (str "/tags") (str "/bib") (str "A") (str "ml")
           (Sys.State pdf_fs [] [])).
  - exact I.
  - vm_compute. reflexivity.
  - cbn [Sys.root unique_names map fst snd].
    repeat split; repeat constructor;
      try (apply not_elem_of_nil);
      try (intros ?%list_elem_of_singleton; discriminate).
  - vm_compute. reflexivity.
  - vm_compute. reflexivity.
Defined.

(** X24. [canonicalize_bibtex] raises [AssertionError], with the record
    as it was, unless the record has one entry; an entry without [ID]
    raises [KeyError] with nothing changed; an entry without [author]
    raises it after the [ID] has been set to the key; and an entry
    without [title] raises it after the [ID] and the author have been
    rewritten. *)
Theorem X24_canonicalize_failures ck v :
  (∀ s, length (Bib.entries s) ≠ 1%nat →
        Bib.canonicalize_bibtex ck v s = (s, inl AssertionError)) ∧
  (∀ bib out,
     bib !! str "ID" = None →
     Bib.canonicalize_bibtex ck v (Bib.State [bib] out)
       = (Bib.State [bib] out, inl (KeyError (str "ID")))) ∧
  (∀ bib out id,
     bib !! str "ID" = Some id → bib !! str "author" = None →
     ∃ out',
       Bib.canonicalize_bibtex ck v (Bib.State [bib] out)
         = (Bib.State [<[str "ID" := ck]> bib] out',
            inl (KeyError (str "author")))) ∧
  (∀ bib out id a,
     bib !! str "ID" = Some id → bib !! str "author" = Some a →
     bib !! str "title" = None →
     ∃ out',
       Bib.canonicalize_bibtex ck v (Bib.State [bib] out)
         = (Bib.State [<[str "author" := norm_author a]> (<[str "ID" := ck]> bib)]
              out',
            inl (KeyError (str "title")))).
Proof.
  split; [apply canonicalize_wrong_count|].
  split; [apply canonicalize_no_id|].
  split; [apply canonicalize_no_author|apply canonicalize_no_title].
Qed.

Lemma X24_canonicalize_failures_witness :
  Bib.canonicalize_bibtex (str "X") 0 (Bib.State [] [])
    = (Bib.State [] [], inl AssertionError) ∧
  Bib.canonicalize_bibtex (str "X") 0 (Bib.State [∅] [])
    = (Bib.State [∅] [], inl (KeyError (str "ID"))) ∧
  (∃ out',
     Bib.canonicalize_bibtex (str "X") 0
         (Bib.State [{[ str "ID" := str "Y" ]}] [])
       = (Bib.State [<[str "ID" := str "X"]> {[ str "ID" := str "Y" ]}] out',
          inl (KeyError (str "author")))) ∧
  (∃ out',
     Bib.canonicalize_bibtex (str "X") 0
         (Bib.State [<[str "ID" := str "Y"]> {[ str "author" := str " A " ]}] [])
       = (Bib.State
            [<[str "author" := norm_author (str " A ")]>
               (<[str "ID" := str "X"]>
                  (<[str "ID" := str "Y"]> {[ str "author" := str " A " ]}))]
            out',
          inl (KeyError (str "title")))).
Proof.
  destruct (X24_canonicalize_failures (str "X") 0) as (H1 & H2 & H3 & H4).
  split; [|split; [|split]].
  - apply (H1 (Bib.State [] [])). simpl. lia.
  - apply (H2 ∅ []). reflexivity.
  - apply (H3 {[ str "ID" := str "Y" ]} [] (str "Y")); vm_compute; reflexivity.
  - apply (H4 (<[str "ID" := str "Y"]> {[ str "author" := str " A " ]}) []
             (str "Y") (str " A ")); vm_compute; reflexivity.
Defined.

(** X25. When [canonicalize_bibtex] returns, the [ID] of the entry is the
    key, the entry has the fields it had, and every field but [ID],
    [author] and [title] has the value it had. *)
Theorem X25_canonicalize_other_fields ck v s s' b :
  Bib.canonicalize_bibtex ck v s = (s', inr b) →
  ∃ bib bib',
    Bib.entries s = [bib] ∧ Bib.entries s' = [bib'] ∧
    bib' !! str "ID" = Some ck ∧
    (∀ k, k ≠ str "ID" → k ≠ str "author" → k ≠ str "title" →
          bib' !! k = bib !! k) ∧
    dom bib' = dom bib.
Proof. apply canonicalize_frame. Qed.

Lemma X25_canonicalize_other_fields_witness :
  ∃ bib bib',
    [record_Y] = [bib] ∧ [record_X] = [bib'] ∧
    bib' !! str "ID" = Some (str "X") ∧
    (∀ k, k ≠ str "ID" → k ≠ str "author" → k ≠ str "title" →
          bib' !! k = bib !! k) ∧
    dom bib' = dom bib.
Proof.
  apply (X25_canonicalize_other_fields (str "X") 0
           (Bib.State [record_Y] []) (Bib.State [record_X] []) true).
  vm_compute. reflexivity.
Defined.

(** X26. The flag that [canonicalize_bibtex] returns is exact: it is
    [True] when the entry is not what it was, and [False] when it is. *)
Theorem X26_canonicalize_flag_exact ck v s s' b :
  Bib.canonicalize_bibtex ck v s = (s', inr b) →
  (b = true ↔ Bib.entries s' ≠ Bib.entries s).
Proof.
  intros ->%canonicalize_flag. by rewrite bool_decide_eq_true.
Qed.

Lemma X26_canonicalize_flag_exact_witness :
  true = true ↔ [record_X] ≠ [record_Y].
Proof.
  apply (X26_canonicalize_flag_exact (str "X") 0
           (Bib.State [record_Y] []) (Bib.State [record_X] []) true).
  vm_compute. reflexivity.
Defined.

(** X27. At verbosity 1 or less [canonicalize_bibtex] prints nothing,
    whether it returns or raises. *)
Theorem X27_canonicalize_quiet ck v s s' r :
  v ≤ 1 → Bib.canonicalize_bibtex ck v s = (s', r) →
  Bib.stdout s' = Bib.stdout s.
Proof. intros Hv. by apply quiet_canonicalize. Qed.

Lemma X27_canonicalize_quiet_witness : @nil (list pyval) = [].
Proof.
  apply (X27_canonicalize_quiet (str "X") 1
           (Bib.State [record_Y] []) (Bib.State [record_X] []) (inr true)).
  - lia.
  - vm_compute. reflexivity.
Defined.

(** X28. When [canonicalize_bibtex] returns, the author holds no carriage
    return and no newline and has no white space at either end, and the
    title is not empty, has no white space at either end, and starts with
    an opening brace or ends with a closing one. *)
Theorem X28_canonical_form ck v s s' b :
  Bib.canonicalize_bibtex ck v s = (s', inr b) →
  ∃ bib' a t,
    Bib.entries s' = [bib'] ∧ bib' !! str "ID" = Some ck ∧
    bib' !! str "author" = Some a ∧ bib' !! str "title" = Some t ∧
    "013"%char ∉ a ∧ "010"%char ∉ a ∧ trimmed a ∧
    t ≠ [] ∧ trimmed t ∧ (head t = Some "{"%char ∨ last t = Some "}"%char).
Proof. apply canonicalize_shape. Qed.

Lemma X28_canonical_form_witness :
  ∃ bib' a t,
    [record (str "X") (str "A") (str "{T")] = [bib'] ∧
    bib' !! str "ID" = Some (str "X") ∧
    bib' !! str "author" = Some a ∧ bib' !! str "title" = Some t ∧
    "013"%char ∉ a ∧ "010"%char ∉ a ∧ trimmed a ∧
    t ≠ [] ∧ trimmed t ∧ (head t = Some "{"%char ∨ last t = Some "}"%char).
Proof.
  apply (X28_canonical_form (str "X") 0
           (Bib.State [record (str "X") (str "A") (str "{T")] [])
           (Bib.State [record (str "X") (str "A") (str "{T")] []) false).
  vm_compute. reflexivity.
Defined.

(** X29. Where [os.listdir] reports names, the working directory is
    absolute and the tag root is not the empty path: in the dict that
    [find_tagged_pdfs] returns a key has a tag exactly when, below the
    root and through directories only, there is an entry that is a
    symbolic link and not a directory, whose name is the key with an
    extension that is [.pdf] up to case, and the tag is the path of its
    directory from the root. *)
Theorem X29_index_membership os limit root v t ck tag :
  lists_names os → Path.startswith_sep (getcwd os) = true → root ≠ [] →
  find_tagged_pdfs os limit root v = inr t →
  ((∃ ts, pdfs t !! ck = Some ts ∧ tag ∈ ts) ↔
   ∃ c f, link_in os root [] c f ∧
          lower (Path.splitext f).2 = str ".pdf" ∧
          (Path.splitext f).1 = ck ∧ tag = tag_name c).
Proof. intros Hn Hc. by apply index_membership. Qed.

Lemma X29_index_membership_witness :
  (∃ ts, pdfs (Tagged {[ str "A" := [str "ml"; str "ml/nlp"] ]} []) !! str "A"
           = Some ts ∧ str "ml/nlp" ∈ ts) ↔
  ∃ c f, link_in (os_of ml_fs) (str "/tags") [] c f ∧
         lower (Path.splitext f).2 = str ".pdf" ∧
         (Path.splitext f).1 = str "A" ∧ str "ml/nlp" = tag_name c.
Proof.
  apply (X29_index_membership (os_of ml_fs) 3%nat (str "/tags") 0).
  - apply wf_lists_names. vm_compute. reflexivity.
  - vm_compute. reflexivity.
  - discriminate.
  - vm_compute. reflexivity.
Defined.

(** X30. When [string_to_file] returns, [file_to_string] of the same path
    returns the string with every [\r\n] and every other [\r] read as
    [\n], and so the string itself when it holds no carriage return; the
    write removes no entry of the tree and changes the text of no other
    file. *)
Theorem X30_write_then_read s path st st' :
  is_dir (Files.tree st) →
  Files.string_to_file s path st = (st', inr tt) →
  Files.file_to_string path st' = inr (Files.universal_newlines false s) ∧
  ("013"%char ∉ s → Files.file_to_string path st' = inr s) ∧
  grows (Files.tree st) (Files.tree st') ∧
  ∃ real, ∀ p, p ≠ real → Files.data st' !! p = Files.data st !! p.
Proof.
  intros Hd Hw. pose proof (write_then_read s path st st' Hd Hw) as Hr.
  split; [done|]. split; [|split].
  - intros Hs. by rewrite Hr, universal_newlines_plain.
  - by destruct (string_to_file_ok s path st st' Hd Hw) as (real & _ & _ & ?).
  - by apply (write_keeps_others s path).
Qed.

Lemma X30_write_then_read_witness :
  Files.file_to_string (str "/bib/A.bib")
      (Files.State
         (FS.Dir [(str "bib", FS.Dir [(str "A.pdf", FS.File); (str "A.bib", FS.File)]);
                  (str "tags", FS.Dir [])])
         {[ [str "bib"; str "A.bib"] := str "@misc{A}" ++ ["013"%char; "010"%char] ]})
    = inr (str "@misc{A}" ++ ["010"%char]).
Proof.
  apply (X30_write_then_read (str "@misc{A}" ++ ["013"%char; "010"%char])
           (str "/bib/A.bib") (Files.State pdf_fs ∅)).
  - exact I.
  - vm_compute. reflexivity.
Defined.
